(** * Apple Mail MCP server: the text-protocol bridge

    A shallow embedding of the bridge of [services/mail.ts] and
    [services/applescript.ts]: the script builders, the process invoker, the
    availability guard, the four response parsers and the operation facade,
    followed by the properties of the specification that are stated about
    them.

    JavaScript strings are held as [string]: the sequence of the bytes of the
    UTF-8 encoding of the text (the form in which the text leaves the
    [osascript] subprocess).  All the markers, keys and separators of the
    protocol are ASCII, so searching and splitting on bytes agrees with
    searching and splitting on UTF-16 code units. *)

From Stdlib Require Import String Ascii List ZArith Lia Bool Arith.
From Stdlib Require Import DecimalString.
Import ListNotations.
Open Scope string_scope.

Set Warnings "-notation-for-abbreviation".

(** ** The string builtins used by the bridge *)

Module JS.

(** The line feed and the double quote, which have no escape in a literal. *)
Definition LF : string := String "010" "".
Definition DQ : string := String "034" "".

(** [Boolean(s)] on a string: the empty string is the only falsy one. *)
Definition truthy (s : string) : bool := negb (s =? "").

(** [Boolean(x)] on a possibly undefined string. *)
Definition truthyOpt (o : option string) : bool :=
  match o with
  | Some s => truthy s
  | None => false
  end.

(** [xs.filter(Boolean)] on an array of strings. *)
Definition filterBoolean (xs : list string) : list string := filter truthy xs.

(** [s.startsWith(pat)]. *)
Fixpoint startsWith (pat s : string) : bool :=
  match pat with
  | "" => true
  | String a pat' =>
      match s with
      | "" => false
      | String b s' => Ascii.eqb a b && startsWith pat' s'
      end
  end.

(** [s.includes(pat)]. *)
Fixpoint includes (pat s : string) : bool :=
  if startsWith pat s then true
  else match s with
       | "" => false
       | String _ s' => includes pat s'
       end.

(** [s.indexOf(pat)]: the first position at which [pat] occurs, [-1] when
    there is none. *)
Fixpoint indexOf (pat s : string) : Z :=
  if startsWith pat s then 0%Z
  else match s with
       | "" => (-1)%Z
       | String _ s' =>
           let i := indexOf pat s' in
           if (i <? 0)%Z then (-1)%Z else (i + 1)%Z
       end.

(** [s.substring(from, to)]: both indices are clamped to [0 .. length] and
    swapped when out of order. *)
Definition clamp (len i : Z) : Z := Z.min (Z.max i 0) len.

Definition substring (s : string) (from to : Z) : string :=
  let len := Z.of_nat (String.length s) in
  let a := clamp len from in
  let b := clamp len to in
  let lo := Z.min a b in
  let hi := Z.max a b in
  String.substring (Z.to_nat lo) (Z.to_nat (hi - lo)) s.

(** [s.split(sep)].  The scan goes left to right; at a position where [sep]
    matches, the piece read so far is closed and the scan resumes after the
    separator ([skip] counts the characters of the separator still to pass).
    The head of the result is the piece being read. *)
Definition consHead (c : ascii) (l : list string) : list string :=
  match l with
  | [] => [String c ""]
  | h :: t => String c h :: t
  end.

Fixpoint splitFrom (sep : string) (skip : nat) (s : string) : list string :=
  match s with
  | "" => [""]
  | String c s' =>
      match skip with
      | S k => splitFrom sep k s'
      | O =>
          if startsWith sep s
          then "" :: splitFrom sep (String.length sep - 1) s'
          else consHead c (splitFrom sep 0 s')
      end
  end.

Fixpoint chars (s : string) : list string :=
  match s with
  | "" => []
  | String c s' => String c "" :: chars s'
  end.

(** With the empty separator the string falls apart into its characters. *)
Definition split (sep s : string) : list string :=
  match sep with
  | "" => chars s
  | _ => splitFrom sep 0 s
  end.

(** [xs.join(sep)]. *)
Fixpoint join (sep : string) (xs : list string) : string :=
  match xs with
  | [] => ""
  | [x] => x
  | x :: rest => x ++ sep ++ join sep rest
  end.

(** *** [trim]

    The characters that [trim] removes (WhiteSpace and LineTerminator of
    ECMAScript), by code point, and their UTF-8 encodings. *)
Definition whiteSpaceCodePoints : list N :=
  [ 0x9; 0xA; 0xB; 0xC; 0xD; 0x20; 0xA0; 0x1680;
    0x2000; 0x2001; 0x2002; 0x2003; 0x2004; 0x2005; 0x2006; 0x2007;
    0x2008; 0x2009; 0x200A; 0x2028; 0x2029; 0x202F; 0x205F; 0x3000;
    0xFEFF ]%N.

Definition byte (n : N) : ascii := ascii_of_N n.

Definition utf8 (cp : N) : string :=
  if (cp <? 0x80)%N then String (byte cp) ""
  else if (cp <? 0x800)%N then
    String (byte (0xC0 + cp / 0x40))
      (String (byte (0x80 + cp mod 0x40)) "")
  else
    String (byte (0xE0 + cp / 0x1000))
      (String (byte (0x80 + (cp / 0x40) mod 0x40))
         (String (byte (0x80 + cp mod 0x40)) "")).

Definition whiteSpace : list string :=
  Eval vm_compute in map utf8 whiteSpaceCodePoints.

Fixpoint revOnto (s acc : string) : string :=
  match s with
  | "" => acc
  | String c s' => revOnto s' (String c acc)
  end.

Definition rev (s : string) : string := revOnto s "".

(** Length in bytes of the white-space character that [s] starts with,
    [0] when it starts with none. *)
Fixpoint leading (tokens : list string) (s : string) : nat :=
  match tokens with
  | [] => 0
  | t :: ts => if startsWith t s then String.length t else leading ts s
  end.

Fixpoint dropWhile (tokens : list string) (skip : nat) (s : string) : string :=
  match s with
  | "" => ""
  | String _ s' =>
      match skip with
      | S k => dropWhile tokens k s'
      | O =>
          match leading tokens s with
          | O => s
          | S k => dropWhile tokens k s'
          end
      end
  end.

Definition trimStart (s : string) : string := dropWhile whiteSpace 0 s.

Definition trimEnd (s : string) : string :=
  rev (dropWhile (map rev whiteSpace) 0 (rev s)).

Definition trim (s : string) : string := trimEnd (trimStart s).

(** *** [toLowerCase]

    Only the ASCII letters are mapped; the result is compared with the ASCII
    word ["true"] only, which no other character lowers into. *)
Definition lowerChar (c : ascii) : ascii :=
  let n := N_of_ascii c in
  if ((0x41 <=? n) && (n <=? 0x5A))%N then ascii_of_N (n + 0x20) else c.

Fixpoint toLowerCase (s : string) : string :=
  match s with
  | "" => ""
  | String c s' => String (lowerChar c) (toLowerCase s')
  end.

(** [s.replace(/c/g, by)] for a one-character pattern. *)
Fixpoint replaceChar (c : ascii) (by_ : string) (s : string) : string :=
  match s with
  | "" => ""
  | String d s' =>
      if Ascii.eqb c d then by_ ++ replaceChar c by_ s'
      else String d (replaceChar c by_ s')
  end.

(** *** Numbers

    A JavaScript number that is the result of [parseInt], or an integer that
    is interpolated into a script: [NaN], or the integer [z].  ([Num z]
    stands for the double nearest to [z], which is [z] itself up to 2^53;
    [-0] is not told from [0].) *)
Inductive number : Type :=
| NaN
| Num (z : Z).

Definition digitValue (radix : Z) (c : ascii) : option Z :=
  let n := Z.of_N (N_of_ascii c) in
  let v :=
    if ((0x30 <=? n) && (n <=? 0x39))%Z then (n - 0x30)%Z
    else if ((0x61 <=? n) && (n <=? 0x7A))%Z then (n - 0x61 + 10)%Z
    else if ((0x41 <=? n) && (n <=? 0x5A))%Z then (n - 0x41 + 10)%Z
    else 36%Z in
  if (v <? radix)%Z then Some v else None.

(** The value of the longest prefix of digits, [None] when it is empty. *)
Fixpoint digits (radix : Z) (acc : option Z) (s : string) : option Z :=
  match s with
  | "" => acc
  | String c s' =>
      match digitValue radix c with
      | Some v =>
          digits radix
            (Some (match acc with Some a => a * radix + v | None => v end)%Z) s'
      | None => acc
      end
  end.

(** [parseInt(s)] with no radix argument: leading white space, a sign, a
    [0x] prefix that selects base 16, then digits. *)
Definition parseInt (s : string) : number :=
  let s1 := trimStart s in
  let '(sign, s2) :=
    match s1 with
    | String "-" r => ((-1)%Z, r)
    | String "+" r => (1%Z, r)
    | _ => (1%Z, s1)
    end in
  let '(radix, s3) :=
    match s2 with
    | String "0" (String "x" r) => (16%Z, r)
    | String "0" (String "X" r) => (16%Z, r)
    | _ => (10%Z, s2)
    end in
  match digits radix None s3 with
  | Some v => Num (sign * v)
  | None => NaN
  end.

(** [x > 0] on a number. *)
Definition gtZero (x : number) : bool :=
  match x with
  | NaN => false
  | Num z => (0 <? z)%Z
  end.

(** An integer interpolated into a template string. *)
Definition showInt (z : Z) : string := NilZero.string_of_int (Z.to_int z).

(** A boolean interpolated into a template string. *)
Definition showBool (b : bool) : string := if b then "true" else "false".

End JS.


(** ** Occurrences in a text *)

Module Text.

(** [sep] matches at no position of [x] when [x] is followed by [tail]. *)
Fixpoint noMatch (sep x tail : string) : Prop :=
  match x with
  | "" => True
  | String _ x' => JS.startsWith sep (x ++ tail) = false /\ noMatch sep x' tail
  end.

(** [s] without its first [n] characters. *)
Fixpoint drop (n : nat) (s : string) : string :=
  match n, s with
  | S k, String _ s' => drop k s'
  | _, _ => s
  end.

End Text.

(** ** The response parser: records

    Each parser fills an object that starts out empty ([Partial<...>]) and
    pushes that same object, so every field of a parsed record is optional:
    [None] is [undefined]. *)

Module EmailMessage.

Record t : Type := mk {
  id : option string;
  subject : option string;
  sender : option string;
  recipients : option (list string);
  date : option string;
  read : option bool;
  flagged : option bool;
  mailbox : option string;
  account : option string;
  attachmentCount : option JS.number;
  hasAttachments : option bool;
  content : option string
}.

Definition empty : t :=
  mk None None None None None None None None None None None None.

Definition set_id (v : string) (m : t) : t :=
  mk (Some v) (subject m) (sender m) (recipients m) (date m) (read m)
     (flagged m) (mailbox m) (account m) (attachmentCount m)
     (hasAttachments m) (content m).

Definition set_subject (v : string) (m : t) : t :=
  mk (id m) (Some v) (sender m) (recipients m) (date m) (read m)
     (flagged m) (mailbox m) (account m) (attachmentCount m)
     (hasAttachments m) (content m).

Definition set_sender (v : string) (m : t) : t :=
  mk (id m) (subject m) (Some v) (recipients m) (date m) (read m)
     (flagged m) (mailbox m) (account m) (attachmentCount m)
     (hasAttachments m) (content m).

Definition set_recipients (v : list string) (m : t) : t :=
  mk (id m) (subject m) (sender m) (Some v) (date m) (read m)
     (flagged m) (mailbox m) (account m) (attachmentCount m)
     (hasAttachments m) (content m).

Definition set_date (v : string) (m : t) : t :=
  mk (id m) (subject m) (sender m) (recipients m) (Some v) (read m)
     (flagged m) (mailbox m) (account m) (attachmentCount m)
     (hasAttachments m) (content m).

Definition set_read (v : bool) (m : t) : t :=
  mk (id m) (subject m) (sender m) (recipients m) (date m) (Some v)
     (flagged m) (mailbox m) (account m) (attachmentCount m)
     (hasAttachments m) (content m).

Definition set_flagged (v : bool) (m : t) : t :=
  mk (id m) (subject m) (sender m) (recipients m) (date m) (read m)
     (Some v) (mailbox m) (account m) (attachmentCount m)
     (hasAttachments m) (content m).

Definition set_mailbox (v : string) (m : t) : t :=
  mk (id m) (subject m) (sender m) (recipients m) (date m) (read m)
     (flagged m) (Some v) (account m) (attachmentCount m)
     (hasAttachments m) (content m).

Definition set_account (v : string) (m : t) : t :=
  mk (id m) (subject m) (sender m) (recipients m) (date m) (read m)
     (flagged m) (mailbox m) (Some v) (attachmentCount m)
     (hasAttachments m) (content m).

Definition set_attachmentCount (v : JS.number) (m : t) : t :=
  mk (id m) (subject m) (sender m) (recipients m) (date m) (read m)
     (flagged m) (mailbox m) (account m) (Some v)
     (hasAttachments m) (content m).

Definition set_hasAttachments (v : bool) (m : t) : t :=
  mk (id m) (subject m) (sender m) (recipients m) (date m) (read m)
     (flagged m) (mailbox m) (account m) (attachmentCount m)
     (Some v) (content m).

Definition set_content (v : string) (m : t) : t :=
  mk (id m) (subject m) (sender m) (recipients m) (date m) (read m)
     (flagged m) (mailbox m) (account m) (attachmentCount m)
     (hasAttachments m) (Some v).

End EmailMessage.

Module Mailbox.

Record t : Type := mk {
  name : option string;
  account : option string;
  unreadCount : option JS.number;
  totalCount : option JS.number
}.

Definition empty : t := mk None None None None.

Definition set_name (v : string) (m : t) : t :=
  mk (Some v) (account m) (unreadCount m) (totalCount m).

Definition set_account (v : string) (m : t) : t :=
  mk (name m) (Some v) (unreadCount m) (totalCount m).

Definition set_unreadCount (v : JS.number) (m : t) : t :=
  mk (name m) (account m) (Some v) (totalCount m).

Definition set_totalCount (v : JS.number) (m : t) : t :=
  mk (name m) (account m) (unreadCount m) (Some v).

End Mailbox.

Module EmailAccount.

Record t : Type := mk {
  name : option string;
  email : option string;
  type : option string
}.

(** The account object starts as [{ email: '' }]. *)
Definition initial : t := mk None (Some "") None.

Definition set_name (v : string) (a : t) : t := mk (Some v) (email a) (type a).

Definition set_type (v : string) (a : t) : t := mk (name a) (email a) (Some v).

End EmailAccount.

Module EmailAttachment.

Record t : Type := mk { name : option string }.

Definition empty : t := mk None.

Definition set_name (v : string) (a : t) : t := mk (Some v).

End EmailAttachment.

(** ** The response parser: the four parsers *)

Module Parser.

(** A line of a block, as every parser takes it apart:
    [const [key, ...valueParts] = line.split(':')] and
    [const value = valueParts.join(':').trim()]. *)
Definition lineKey (line : string) : option string :=
  hd_error (JS.split ":" line).

Definition lineValue (line : string) : string :=
  JS.trim (JS.join ":" (tl (JS.split ":" line))).

(** The text of a block up to its end marker, cut into its non-empty lines:
    [block.substring(0, block.indexOf(END)).split('\n').filter(Boolean)]. *)
Definition blockLines (END block : string) : list string :=
  let content := JS.substring block 0 (JS.indexOf END block) in
  JS.filterBoolean (JS.split JS.LF content).

(** *** Messages *)

(** The [switch (key)] of [parseEmailMessages]. *)
Definition messageField (key value : string) (message : EmailMessage.t)
  : EmailMessage.t :=
  if key =? "ID" then EmailMessage.set_id value message
  else if key =? "SUBJECT" then EmailMessage.set_subject value message
  else if key =? "SENDER" then EmailMessage.set_sender value message
  else if key =? "RECIPIENTS" then
    EmailMessage.set_recipients (JS.filterBoolean (JS.split "," value)) message
  else if key =? "DATE" then EmailMessage.set_date value message
  else if key =? "READ" then EmailMessage.set_read (value =? "true") message
  else if key =? "FLAGGED" then
    EmailMessage.set_flagged (value =? "true") message
  else if key =? "MAILBOX" then EmailMessage.set_mailbox value message
  else if key =? "ACCOUNT" then EmailMessage.set_account value message
  else if key =? "ATTACHMENT_COUNT" then
    EmailMessage.set_hasAttachments (JS.gtZero (JS.parseInt value))
      (EmailMessage.set_attachmentCount (JS.parseInt value) message)
  else if key =? "CONTENT" then EmailMessage.set_content value message
  else message.

(** One turn of the loop over the lines of a block. *)
Definition messageLine (message : EmailMessage.t) (line : string)
  : EmailMessage.t :=
  match lineKey line with
  | Some key => messageField key (lineValue line) message
  | None => message
  end.

Definition messageOfLines (lines : list string) : EmailMessage.t :=
  fold_left messageLine lines EmailMessage.empty.

(** [message.id && message.subject] *)
Definition messageComplete (message : EmailMessage.t) : bool :=
  JS.truthyOpt (EmailMessage.id message)
  && JS.truthyOpt (EmailMessage.subject message).

(** One turn of the loop over the blocks: the records it pushes. *)
Definition parseMessageBlock (block : string) : list EmailMessage.t :=
  if negb (JS.includes "MESSAGE_END" block) then []
  else
    let message := messageOfLines (blockLines "MESSAGE_END" block) in
    if messageComplete message then [message] else [].

Definition messageBlocks (output : string) : list string :=
  JS.filterBoolean (JS.split ("MESSAGE_START" ++ JS.LF) output).

Definition parseEmailMessages (output : string) : list EmailMessage.t :=
  fold_left (fun messages block => (messages ++ parseMessageBlock block)%list)
    (messageBlocks output) [].

(** *** Mailboxes *)

Definition mailboxField (key value : string) (mailbox : Mailbox.t) : Mailbox.t :=
  if key =? "NAME" then Mailbox.set_name value mailbox
  else if key =? "ACCOUNT" then Mailbox.set_account value mailbox
  else if key =? "UNREAD" then
    Mailbox.set_unreadCount (JS.parseInt value) mailbox
  else if key =? "TOTAL" then Mailbox.set_totalCount (JS.parseInt value) mailbox
  else mailbox.

Definition mailboxLine (mailbox : Mailbox.t) (line : string) : Mailbox.t :=
  match lineKey line with
  | Some key => mailboxField key (lineValue line) mailbox
  | None => mailbox
  end.

Definition mailboxOfLines (lines : list string) : Mailbox.t :=
  fold_left mailboxLine lines Mailbox.empty.

(** [mailbox.name && mailbox.account !== undefined] *)
Definition mailboxComplete (mailbox : Mailbox.t) : bool :=
  JS.truthyOpt (Mailbox.name mailbox)
  && match Mailbox.account mailbox with
     | Some _ => true
     | None => false
     end.

Definition parseMailboxBlock (block : string) : list Mailbox.t :=
  if negb (JS.includes "MAILBOX_END" block) then []
  else
    let mailbox := mailboxOfLines (blockLines "MAILBOX_END" block) in
    if mailboxComplete mailbox then [mailbox] else [].

Definition mailboxBlocks (output : string) : list string :=
  JS.filterBoolean (JS.split ("MAILBOX_START" ++ JS.LF) output).

Definition parseMailboxes (output : string) : list Mailbox.t :=
  fold_left (fun mailboxes block => (mailboxes ++ parseMailboxBlock block)%list)
    (mailboxBlocks output) [].

(** *** Accounts *)

Definition accountField (key value : string) (account : EmailAccount.t)
  : EmailAccount.t :=
  if key =? "NAME" then EmailAccount.set_name value account
  else if key =? "TYPE" then EmailAccount.set_type value account
  else account.

Definition accountLine (account : EmailAccount.t) (line : string)
  : EmailAccount.t :=
  match lineKey line with
  | Some key => accountField key (lineValue line) account
  | None => account
  end.

Definition accountOfLines (lines : list string) : EmailAccount.t :=
  fold_left accountLine lines EmailAccount.initial.

(** [account.name && account.type] *)
Definition accountComplete (account : EmailAccount.t) : bool :=
  JS.truthyOpt (EmailAccount.name account)
  && JS.truthyOpt (EmailAccount.type account).

Definition parseAccountBlock (block : string) : list EmailAccount.t :=
  if negb (JS.includes "ACCOUNT_END" block) then []
  else
    let account := accountOfLines (blockLines "ACCOUNT_END" block) in
    if accountComplete account then [account] else [].

Definition accountBlocks (output : string) : list string :=
  JS.filterBoolean (JS.split ("ACCOUNT_START" ++ JS.LF) output).

Definition parseAccounts (output : string) : list EmailAccount.t :=
  fold_left (fun accounts block => (accounts ++ parseAccountBlock block)%list)
    (accountBlocks output) [].

(** *** Attachments *)

Definition attachmentField (key value : string) (attachment : EmailAttachment.t)
  : EmailAttachment.t :=
  if key =? "NAME" then EmailAttachment.set_name value attachment
  else attachment.

Definition attachmentLine (attachment : EmailAttachment.t) (line : string)
  : EmailAttachment.t :=
  match lineKey line with
  | Some key => attachmentField key (lineValue line) attachment
  | None => attachment
  end.

Definition attachmentOfLines (lines : list string) : EmailAttachment.t :=
  fold_left attachmentLine lines EmailAttachment.empty.

(** [attachment.name] *)
Definition attachmentComplete (attachment : EmailAttachment.t) : bool :=
  JS.truthyOpt (EmailAttachment.name attachment).

Definition parseAttachmentBlock (block : string) : list EmailAttachment.t :=
  if negb (JS.includes "ATTACHMENT_END" block) then []
  else
    let attachment := attachmentOfLines (blockLines "ATTACHMENT_END" block) in
    if attachmentComplete attachment then [attachment] else [].

Definition attachmentBlocks (output : string) : list string :=
  JS.filterBoolean (JS.split ("ATTACHMENT_START" ++ JS.LF) output).

Definition parseAttachments (output : string) : list EmailAttachment.t :=
  fold_left
    (fun attachments block => (attachments ++ parseAttachmentBlock block)%list)
    (attachmentBlocks output) [].

End Parser.

(** ** The script builder

    The scripts are template strings.  [tpl] writes a piece of template text:
    in it a backquote stands for the double quote of the AppleScript text
    (the template text itself holds no backquote).  Interpolated values are
    appended as they are, outside of [tpl]. *)

Module Script.

Fixpoint tpl (s : string) : string :=
  match s with
  | "" => ""
  | String c s' =>
      (if Ascii.eqb c "`" then JS.DQ else String c "") ++ tpl s'
  end.

(** The parameter object of [searchEmails]. *)
Record SearchParams : Type := {
  query : option string;
  sender : option string;
  subject : option string;
  dateFrom : option string;
  dateTo : option string;
  mailbox : option string;
  account : option string;
  unreadOnly : option bool;
  limit : option Z
}.

(** The value of a string that was tested truthy, as it is interpolated. *)
Definition str (o : option string) : string :=
  match o with
  | Some s => s
  | None => "undefined"
  end.

Definition searchHeader : string :=
  tpl "
tell application `Mail`
  set matchingMessages to {}
  ".

(** "Determine which mailbox to search". *)
Definition searchSource (mailbox account : option string) : string :=
  if JS.truthyOpt mailbox && JS.truthyOpt account then
    tpl "set targetMailbox to mailbox `" ++ str mailbox ++ tpl "` of account `" ++ str account ++ tpl "`
"
    ++ tpl "set allMessages to every message of targetMailbox
"
  else if JS.truthyOpt mailbox then
    tpl "set targetMailbox to mailbox `" ++ str mailbox ++ tpl "`
"
    ++ tpl "set allMessages to every message of targetMailbox
"
  else if JS.truthyOpt account then
    tpl "set allMessages to every message of account `" ++ str account ++ tpl "`
"
  else
    tpl "set targetMailbox to inbox
"
    ++ tpl "set allMessages to every message of targetMailbox
".

(** "Build filter conditions". *)
Definition queryCondition (params : SearchParams) : string :=
  tpl "((subject of aMessage contains `" ++ str (query params) ++ tpl "`) or (content of aMessage contains `" ++ str (query params) ++ tpl "`))".

Definition senderCondition (params : SearchParams) : string :=
  tpl "(sender of aMessage contains `" ++ str (sender params) ++ tpl "`)".

Definition subjectCondition (params : SearchParams) : string :=
  tpl "(subject of aMessage contains `" ++ str (subject params) ++ tpl "`)".

Definition unreadCondition : string :=
  tpl "(read status of aMessage is false)".

Definition searchConditions (params : SearchParams) : list string :=
  ((if JS.truthyOpt (query params) then [queryCondition params] else [])
   ++ (if JS.truthyOpt (sender params) then [senderCondition params] else [])
   ++ (if JS.truthyOpt (subject params) then [subjectCondition params] else [])
   ++ (match unreadOnly params with
       | Some true => [unreadCondition]
       | _ => []
       end))%list.

Definition searchFilter (params : SearchParams) : string :=
  let conditions := searchConditions params in
  if (0 <? List.length conditions)%nat then
    tpl "if " ++ JS.join " and " conditions ++ tpl " then
"
    ++ tpl "set end of matchingMessages to aMessage
"
    ++ tpl "end if
"
  else
    tpl "set end of matchingMessages to aMessage
".

(** [limit = 50] in the destructuring of the parameters. *)
Definition searchLimit (params : SearchParams) : Z :=
  match limit params with
  | Some n => n
  | None => 50%Z
  end.

Definition searchOutput : string :=
  tpl "
  set output to ``
  repeat with aMessage in matchingMessages
    set msgId to id of aMessage as text
    set msgSubject to subject of aMessage
    set msgSender to sender of aMessage
    set msgDate to date received of aMessage as text
    set msgRead to read status of aMessage as text
    set msgFlagged to flagged status of aMessage as text
    set msgContent to content of aMessage
    
    set output to output & `MESSAGE_START\n`
    set output to output & `ID:` & msgId & `\n`
    set output to output & `SUBJECT:` & msgSubject & `\n`
    set output to output & `SENDER:` & msgSender & `\n`
    set output to output & `DATE:` & msgDate & `\n`
    set output to output & `READ:` & msgRead & `\n`
    set output to output & `FLAGGED:` & msgFlagged & `\n`
    set output to output & `CONTENT:` & msgContent & `\n`
    set output to output & `MESSAGE_END\n`
  end repeat
  
  return output
end tell
  ".

(** What follows the choice of the source: the loop over the messages with
    its filter and its limit, then the output. *)
Definition searchTail (params : SearchParams) : string :=
  tpl "repeat with aMessage in allMessages
"
  ++ searchFilter params
  ++ tpl "if (count of matchingMessages) ≥ " ++ JS.showInt (searchLimit params) ++ tpl " then exit repeat
"
  ++ tpl "end repeat
"
  ++ searchOutput.

Definition searchScript (params : SearchParams) : string :=
  searchHeader
  ++ searchSource (mailbox params) (account params)
  ++ searchTail params.

(** The same parameters with another mailbox and another account. *)
Definition withSource (m a : option string) (params : SearchParams)
  : SearchParams :=
  {| query := query params;
     sender := sender params;
     subject := subject params;
     dateFrom := dateFrom params;
     dateTo := dateTo params;
     mailbox := m;
     account := a;
     unreadOnly := unreadOnly params;
     limit := limit params |}.

(** An optional string parameter that is not given: left out, or empty (the
    builders test the truthiness of the parameter). *)
Definition notGiven (o : option string) : Prop := o = None \/ o = Some "".

(** Two values of an optional string parameter that the builders cannot tell
    apart: the same value, or two values that are not given. *)
Definition sameText (a b : option string) : Prop :=
  a = b \/ (notGiven a /\ notGiven b).

(** Two values of an optional flag that the builders cannot tell apart: the
    same value, or two values other than [true]. *)
Definition sameFlag (a b : option bool) : Prop :=
  a = b \/ (a <> Some true /\ b <> Some true).

Definition getEmailByIdOutput : string :=
  tpl "
  if (count of msgs) = 0 then
    return `NOT_FOUND`
  end if
  
  set aMessage to item 1 of msgs
  set msgId to id of aMessage as text
  set msgSubject to subject of aMessage
  set msgSender to sender of aMessage
  set msgDate to date received of aMessage as text
  set msgRead to read status of aMessage as text
  set msgFlagged to flagged status of aMessage as text
  set msgContent to content of aMessage
  set msgMailbox to name of mailbox of aMessage
  set msgAccount to name of account of mailbox of aMessage
  
  set recipientList to ``
  repeat with recip in to recipients of aMessage
    set recipientList to recipientList & address of recip & `,`
  end repeat
  
  set attachCount to count of mail attachments of aMessage
  
  set output to `MESSAGE_START\n`
  set output to output & `ID:` & msgId & `\n`
  set output to output & `SUBJECT:` & msgSubject & `\n`
  set output to output & `SENDER:` & msgSender & `\n`
  set output to output & `RECIPIENTS:` & recipientList & `\n`
  set output to output & `DATE:` & msgDate & `\n`
  set output to output & `READ:` & msgRead & `\n`
  set output to output & `FLAGGED:` & msgFlagged & `\n`
  set output to output & `MAILBOX:` & msgMailbox & `\n`
  set output to output & `ACCOUNT:` & msgAccount & `\n`
  set output to output & `ATTACHMENT_COUNT:` & attachCount & `\n`
  set output to output & `CONTENT:` & msgContent & `\n`
  set output to output & `MESSAGE_END\n`
  
  return output
end tell
  ".

Definition getEmailByIdScript (messageId : string) (mailbox account : option string)
  : string :=
  tpl "
tell application `Mail`
  "
  ++ (if JS.truthyOpt mailbox && JS.truthyOpt account then
        tpl "set msgs to (every message of mailbox `" ++ str mailbox ++ tpl "` of account `" ++ str account ++ tpl "` whose id is " ++ messageId ++ tpl ")
"
      else if JS.truthyOpt mailbox then
        tpl "set msgs to (every message of mailbox `" ++ str mailbox ++ tpl "` whose id is " ++ messageId ++ tpl ")
"
      else
        tpl "set msgs to (every message whose id is " ++ messageId ++ tpl ")
")
  ++ getEmailByIdOutput.

(** [DraftEmail] of [types.ts]. *)
Record DraftEmail : Type := {
  draftSubject : string;
  to : list string;
  cc : option (list string);
  bcc : option (list string);
  draftContent : string;
  draftAccount : option string
}.

(** The loops that add one statement for each recipient. *)
Definition toRecipients (addrs : list string) : string :=
  fold_left
    (fun script addr =>
       script ++ tpl "make new to recipient with properties {address:`" ++ addr ++ tpl "`}
")
    addrs "".

Definition ccRecipients (addrs : option (list string)) : string :=
  match addrs with
  | Some l =>
      fold_left
        (fun script addr =>
           script ++ tpl "make new cc recipient with properties {address:`" ++ addr ++ tpl "`}
")
        l ""
  | None => ""
  end.

Definition bccRecipients (addrs : option (list string)) : string :=
  match addrs with
  | Some l =>
      fold_left
        (fun script addr =>
           script ++ tpl "make new bcc recipient with properties {address:`" ++ addr ++ tpl "`}
")
        l ""
  | None => ""
  end.

Definition sendEmailScript (draft : DraftEmail) : string :=
  tpl "
tell application `Mail`
  set newMessage to make new outgoing message with properties {subject:`" ++ draftSubject draft ++ tpl "`, content:`" ++ draftContent draft ++ tpl "`, visible:false}
  
  tell newMessage
    "
  ++ toRecipients (to draft)
  ++ ccRecipients (cc draft)
  ++ bccRecipients (bcc draft)
  ++ tpl "
    send
  end tell
  
  return id of newMessage as text
end tell
    ".

Definition moveEmailScript (messageId targetMailbox : string)
  (targetAccount : option string) : string :=
  tpl "
tell application `Mail`
  set theMessage to first message whose id is " ++ messageId ++ tpl "
  "
  ++ (if JS.truthyOpt targetAccount then
        tpl "set targetBox to mailbox `" ++ targetMailbox ++ tpl "` of account `" ++ str targetAccount ++ tpl "`
"
      else
        tpl "set targetBox to mailbox `" ++ targetMailbox ++ tpl "`
")
  ++ tpl "
  set mailbox of theMessage to targetBox
  return `SUCCESS`
end tell
  ".

Definition setReadStatusScript (messageId : string) (read : bool) : string :=
  tpl "
tell application `Mail`
  set theMessage to first message whose id is " ++ messageId ++ tpl "
  set read status of theMessage to " ++ JS.showBool read ++ tpl "
  return `SUCCESS`
end tell
  ".

(** The scripts of the operations that take no filter. *)
Definition listMailboxesScript : string :=
  tpl "
tell application `Mail`
  set output to ``
  repeat with anAccount in accounts
    set accountName to name of anAccount
    repeat with aMailbox in mailboxes of anAccount
      set mailboxName to name of aMailbox
      set unreadCount to unread count of aMailbox
      set totalCount to count of messages of aMailbox
      
      set output to output & `MAILBOX_START\n`
      set output to output & `NAME:` & mailboxName & `\n`
      set output to output & `ACCOUNT:` & accountName & `\n`
      set output to output & `UNREAD:` & unreadCount & `\n`
      set output to output & `TOTAL:` & totalCount & `\n`
      set output to output & `MAILBOX_END\n`
    end repeat
  end repeat
  return output
end tell
  ".

Definition listAccountsScript : string :=
  tpl "
tell application `Mail`
  set output to ``
  repeat with anAccount in accounts
    set accountName to name of anAccount
    set accountType to account type of anAccount as text
    
    set output to output & `ACCOUNT_START\n`
    set output to output & `NAME:` & accountName & `\n`
    set output to output & `TYPE:` & accountType & `\n`
    set output to output & `ACCOUNT_END\n`
  end repeat
  return output
end tell
  ".

Definition getAttachmentsScript (messageId : string) : string :=
  tpl "
tell application `Mail`
  set theMessage to first message whose id is " ++ messageId ++ tpl "
  set output to ``
  
  repeat with anAttachment in mail attachments of theMessage
    set attachName to name of anAttachment
    set output to output & `ATTACHMENT_START\n`
    set output to output & `NAME:` & attachName & `\n`
    set output to output & `ATTACHMENT_END\n`
  end repeat
  
  return output
end tell
  ".

(** [createDraft] builds the script of [sendEmail] without the [send]
    directive; the three helper strings of its first lines ([toList],
    [ccList], [bccList]) are computed and not used. *)
Definition createDraftScript (draft : DraftEmail) : string :=
  tpl "
tell application `Mail`
  set newMessage to make new outgoing message with properties {subject:`" ++ draftSubject draft ++ tpl "`, content:`" ++ draftContent draft ++ tpl "`, visible:false}
  
  tell newMessage
    "
  ++ toRecipients (to draft)
  ++ ccRecipients (cc draft)
  ++ bccRecipients (bcc draft)
  ++ tpl "
  end tell
  
  return id of newMessage as text
end tell
  ".

(** The same search parameters with other dates, and the same draft with
    another account hint. *)
Definition withDates (from to_ : option string) (params : SearchParams)
  : SearchParams :=
  {| query := query params;
     sender := sender params;
     subject := subject params;
     dateFrom := from;
     dateTo := to_;
     mailbox := mailbox params;
     account := account params;
     unreadOnly := unreadOnly params;
     limit := limit params |}.

Definition withAccount (a : option string) (draft : DraftEmail) : DraftEmail :=
  {| draftSubject := draftSubject draft;
     to := to draft;
     cc := cc draft;
     bcc := bcc draft;
     draftContent := draftContent draft;
     draftAccount := a |}.

(** The statement that adds one recipient of a kind ([to], [cc], [bcc]). *)
Definition recipientStatement (kind address : string) : string :=
  tpl "make new " ++ kind ++ tpl " recipient with properties {address:`"
  ++ address ++ tpl "`}
".

(** One statement for each address of a list, in order. *)
Fixpoint recipientStatements (kind : string) (addresses : list string)
  : string :=
  match addresses with
  | [] => ""
  | a :: rest => recipientStatement kind a ++ recipientStatements kind rest
  end.

(** [draft.cc] and [draft.bcc] when they are left out. *)
Definition orNone (addresses : option (list string)) : list string :=
  match addresses with
  | Some l => l
  | None => []
  end.

(** The two one-line scripts of the availability guard. *)
Definition isMailRunningScript : string :=
  tpl "tell application `System Events` to (name of processes) contains `Mail`".

Definition activateScript : string :=
  tpl "tell application `Mail` to activate".

End Script.

(** ** Effects

    The operations run [osascript] subprocesses, wait and write to the console.
    A computation takes the state of the outside world (of type [W], left
    open) and what was written to the console so far, and either returns a
    value or throws. *)

Module Effect.

(** A thrown value: an [Error] object with its message, or something that is
    not an [Error]. *)
Inductive thrown : Type :=
| Error (message : string)
| NotAnError.

Inductive outcome (A : Type) : Type :=
| Returned (a : A)
| Threw (e : thrown).

Arguments Returned {A} a.
Arguments Threw {A} e.

(** How the executor of the promise of [executeAppleScriptFile] ends for
    that promise: with an exception raised in the executor itself ([spawn]
    throwing, or a standard stream of the child that is not there), which is
    an [Error] with its message; with the [error] event of the child; or
    with its [close] event, the exit code ([None] is [null]) and all that
    was read from the two output streams. *)
Inductive spawned : Type :=
| ExecutorThrew (message : string)
| ErrorEvent (message : string)
| CloseEvent (code : option Z) (stdout stderr : string).

(** The outside world: running a command line through [exec] (promisified:
    it resolves with the two outputs or rejects), spawning [osascript -] with
    a script on its standard input, and letting time pass. *)
Record Env (W : Type) : Type := {
  execAsync : string -> W -> outcome (string * string) * W;
  spawnOsascript : string -> W -> spawned * W;
  setTimeout : Z -> W -> W
}.

Arguments execAsync {W} _ _ _.
Arguments spawnOsascript {W} _ _ _.
Arguments setTimeout {W} _ _ _.

Record State (W : Type) : Type := {
  world : W;
  console : list string
}.

Arguments Build_State {W} _ _.
Arguments world {W} _.
Arguments console {W} _.

Definition M (W A : Type) : Type := State W -> outcome A * State W.

Definition ret {W A} (a : A) : M W A := fun s => (Returned a, s).

Definition throw {W A} (e : thrown) : M W A := fun s => (Threw e, s).

Definition bind {W A B} (m : M W A) (k : A -> M W B) : M W B :=
  fun s =>
    match m s with
    | (Returned a, s') => k a s'
    | (Threw e, s') => (Threw e, s')
    end.

(** [try { m } catch (error) { handler }] *)
Definition tryCatch {W A} (m : M W A) (handler : thrown -> M W A) : M W A :=
  fun s =>
    match m s with
    | (Returned a, s') => (Returned a, s')
    | (Threw e, s') => handler e s'
    end.

(** [console.error(a, b)] writes its arguments, separated by a space. *)
Definition consoleError {W} (args : list string) : M W unit :=
  fun s =>
    (Returned tt, Build_State (world s) (console s ++ [JS.join " " args])%list).

(** A thrown value that is an [Error] of the process invoker. *)
Definition executionFailure (e : thrown) : Prop :=
  exists rest, e = Error ("AppleScript execution failed" ++ rest).

End Effect.

Declare Scope effect_scope.
Delimit Scope effect_scope with effect.
Notation "x <- m ;; k" := (Effect.bind m (fun x => k))
  (at level 61, m at next level, right associativity) : effect_scope.
Notation "m ;;; k" := (Effect.bind m (fun _ => k))
  (at level 61, right associativity) : effect_scope.

(** ** The process invoker and the availability guard ([applescript.ts]) *)

Module AppleScript.

Import Effect.
Open Scope effect_scope.

Section WithEnv.

Context {W : Type} (env : Env W).

(** "Escape single quotes in AppleScript string":
    [script.replace(/'/g, "'\\''")]. *)
Definition escapeAppleScript (script : string) : string :=
  JS.replaceChar "'" "'\''" script.

Definition awaitExec (command : string) : M W (string * string) :=
  fun s =>
    let '(r, w) := execAsync env command (world s) in
    (r, Build_State w (console s)).

Definition executeAppleScript (script : string) : M W string :=
  tryCatch
    (out <- awaitExec ("osascript -e '" ++ escapeAppleScript script ++ "'") ;;
     let '(stdout, stderr) := out in
     (if JS.truthy stderr
      then consoleError ["AppleScript stderr:"; stderr]
      else ret tt) ;;;
     ret (JS.trim stdout))
    (fun error =>
       match error with
       | Error message =>
           throw (Error ("AppleScript execution failed: " ++ message))
       | NotAnError =>
           throw (Error "AppleScript execution failed with unknown error")
       end).

(** The exit code as it is interpolated into the message. *)
Definition showCode (code : option Z) : string :=
  match code with
  | Some z => JS.showInt z
  | None => "null"
  end.

Definition executeAppleScriptFile (script : string) : M W string :=
  fun s =>
    match spawnOsascript env script (world s) with
    | (ExecutorThrew message, w) =>
        (Threw (Error message), Build_State w (console s))
    | (ErrorEvent message, w) =>
        (Threw (Error ("AppleScript execution failed: " ++ message)),
         Build_State w (console s))
    | (CloseEvent code stdout stderr, w) =>
        if match code with Some 0%Z => false | _ => true end
        then
          (Threw (Error ("AppleScript execution failed with code "
                         ++ showCode code ++ ": " ++ stderr)),
           Build_State w (console s))
        else
          ((if JS.truthy stderr
            then consoleError ["AppleScript stderr:"; stderr]
            else ret tt) ;;;
           ret (JS.trim stdout)) (Build_State w (console s))
    end.

Definition isMailRunning : M W bool :=
  tryCatch
    (result <- executeAppleScript Script.isMailRunningScript ;;
     ret (JS.toLowerCase result =? "true"))
    (fun _ => ret false).

(** [await new Promise(resolve => setTimeout(resolve, ms))] *)
Definition sleep (ms : Z) : M W unit :=
  fun s => (Returned tt, Build_State (setTimeout env ms (world s)) (console s)).

Definition ensureMailRunning : M W unit :=
  running <- isMailRunning ;;
  if negb running
  then executeAppleScript Script.activateScript ;;; sleep 1000
  else ret tt.

End WithEnv.

(** The command line that [executeAppleScript] runs for a script. *)
Definition command (script : string) : string :=
  "osascript -e '" ++ escapeAppleScript script ++ "'".

(** [e] is the exception that the executor of the promise of
    [executeAppleScriptFile] raised for [script], in some world: the promise
    rejects with it as it is. *)
Definition executorRaised {W : Type} (env : Env W) (script : string)
  (e : thrown) : Prop :=
  exists message w w',
    spawnOsascript env script w = (ExecutorThrew message, w')
    /\ e = Error message.

End AppleScript.

(** ** The operation facade ([mail.ts]) *)

Module Mail.

Import Effect.
Open Scope effect_scope.

(** [SendEmailResult] of [types.ts]. *)
Record SendEmailResult : Type := {
  success : bool;
  messageId : option string;
  error : option string
}.

Section WithEnv.

Context {W : Type} (env : Env W).

Definition searchEmails (params : Script.SearchParams)
  : M W (list EmailMessage.t) :=
  AppleScript.ensureMailRunning env ;;;
  result <- AppleScript.executeAppleScriptFile env (Script.searchScript params) ;;
  ret (Parser.parseEmailMessages result).

(** The result is the first parsed message, [null] when there is none. *)
Definition getEmailById (messageId : string) (mailbox account : option string)
  : M W (option EmailMessage.t) :=
  AppleScript.ensureMailRunning env ;;;
  result <- AppleScript.executeAppleScriptFile env
              (Script.getEmailByIdScript messageId mailbox account) ;;
  if result =? "NOT_FOUND" then ret None
  else
    let emails := Parser.parseEmailMessages result in
    ret (hd_error emails).

Definition sendEmail (draft : Script.DraftEmail) : M W SendEmailResult :=
  AppleScript.ensureMailRunning env ;;;
  tryCatch
    (messageId <- AppleScript.executeAppleScriptFile env
                    (Script.sendEmailScript draft) ;;
     ret {| success := true; messageId := Some messageId; error := None |})
    (fun error =>
       ret {| success := false;
              messageId := None;
              error := Some match error with
                            | Error message => message
                            | NotAnError => "Unknown error"
                            end |}).

Definition moveEmail (messageId targetMailbox : string)
  (targetAccount : option string) : M W bool :=
  AppleScript.ensureMailRunning env ;;;
  tryCatch
    (AppleScript.executeAppleScriptFile env
       (Script.moveEmailScript messageId targetMailbox targetAccount) ;;;
     ret true)
    (fun _ => ret false).

Definition setReadStatus (messageId : string) (read : bool) : M W bool :=
  AppleScript.ensureMailRunning env ;;;
  tryCatch
    (AppleScript.executeAppleScriptFile env
       (Script.setReadStatusScript messageId read) ;;;
     ret true)
    (fun _ => ret false).

Definition listMailboxes : M W (list Mailbox.t) :=
  AppleScript.ensureMailRunning env ;;;
  result <- AppleScript.executeAppleScriptFile env Script.listMailboxesScript ;;
  ret (Parser.parseMailboxes result).

Definition listAccounts : M W (list EmailAccount.t) :=
  AppleScript.ensureMailRunning env ;;;
  result <- AppleScript.executeAppleScriptFile env Script.listAccountsScript ;;
  ret (Parser.parseAccounts result).

Definition createDraft (draft : Script.DraftEmail) : M W string :=
  AppleScript.ensureMailRunning env ;;;
  messageId <- AppleScript.executeAppleScriptFile env
                 (Script.createDraftScript draft) ;;
  ret messageId.

Definition getAttachments (messageId : string) : M W (list EmailAttachment.t) :=
  AppleScript.ensureMailRunning env ;;;
  result <- AppleScript.executeAppleScriptFile env
              (Script.getAttachmentsScript messageId) ;;
  ret (Parser.parseAttachments result).

End WithEnv.

End Mail.

(** ** The tool handlers ([tools/index.ts])

    The handlers of the tools that call the operations above, except the one
    of the search tool (it cuts the content of the messages at a number of
    UTF-16 code units, which strings held as bytes do not count).  A handler
    returns either a result with a structured content and its JSON text, or
    an error result with a text.  [JSON.stringify(output, null, 2)] is a
    parameter. *)

Module Tools.

Import Effect.
Open Scope effect_scope.

Inductive CallToolResult (A : Type) : Type :=
| Structured (text : string) (structuredContent : A)
| IsError (text : string).

Arguments Structured {A} text structuredContent.
Arguments IsError {A} text.

(** [error instanceof Error ? error.message : 'Unknown error'] *)
Definition errorMsg (error : thrown) : string :=
  match error with
  | Error message => message
  | NotAnError => "Unknown error"
  end.

Record GetEmailInput : Type := {
  get_message_id : string;
  get_mailbox : option string;
  get_account : option string
}.

Record MoveEmailInput : Type := {
  move_message_id : string;
  target_mailbox : string;
  target_account : option string
}.

Record MoveOutput : Type := {
  moveSuccess : bool;
  moveMessageId : string;
  targetMailbox : string
}.

Record SetReadStatusInput : Type := {
  mark_message_id : string;
  mark_read : bool
}.

Record MarkReadOutput : Type := {
  markSuccess : bool;
  markMessageId : string;
  markRead : bool
}.

Record DraftOutput : Type := {
  draftSuccess : bool;
  draftMessageId : string;
  draftOutputSubject : string;
  draftRecipientCount : nat
}.

Record SendOutput : Type := {
  sendSuccess : bool;
  sendMessageId : string;
  sendError : option string;
  sendSubject : string;
  sendRecipientCount : nat
}.

(** [{ count, mailboxes }] and [{ count, accounts }]: the list is [items]. *)
Record ListOutput (A : Type) : Type := {
  count : nat;
  items : list A
}.

Arguments Build_ListOutput {A} count items.
Arguments count {A} _.
Arguments items {A} _.

Record AttachmentsOutput : Type := {
  attachmentsCount : nat;
  attachmentsMessageId : string;
  attachments : list EmailAttachment.t
}.

(** [params.to.length + (params.cc?.length || 0) + (params.bcc?.length || 0)] *)
Definition recipientCount (draft : Script.DraftEmail) : nat :=
  List.length (Script.to draft)
  + match Script.cc draft with Some l => List.length l | None => 0 end
  + match Script.bcc draft with Some l => List.length l | None => 0 end.

Section WithEnv.

Context {W : Type} (env : Env W).
Variable stringify : forall A : Type, A -> string.

Definition getEmailTool (params : GetEmailInput)
  : M W (CallToolResult EmailMessage.t) :=
  tryCatch
    (email <- Mail.getEmailById env (get_message_id params)
                (get_mailbox params) (get_account params) ;;
     match email with
     | None =>
         ret (IsError ("Email with ID " ++ get_message_id params
                       ++ " not found"))
     | Some email => ret (Structured (stringify _ email) email)
     end)
    (fun error => ret (IsError ("Error getting email: " ++ errorMsg error))).

Definition listMailboxesTool : M W (CallToolResult (ListOutput Mailbox.t)) :=
  tryCatch
    (mailboxes <- Mail.listMailboxes env ;;
     let output := {| count := List.length mailboxes; items := mailboxes |} in
     ret (Structured (stringify _ output) output))
    (fun error => ret (IsError ("Error listing mailboxes: " ++ errorMsg error))).

Definition getAttachmentsTool (message_id : string)
  : M W (CallToolResult AttachmentsOutput) :=
  tryCatch
    (found <- Mail.getAttachments env message_id ;;
     let output := {| attachmentsCount := List.length found;
                      attachmentsMessageId := message_id;
                      attachments := found |} in
     ret (Structured (stringify _ output) output))
    (fun error =>
       ret (IsError ("Error getting attachments: " ++ errorMsg error))).

Definition moveEmailTool (params : MoveEmailInput)
  : M W (CallToolResult MoveOutput) :=
  tryCatch
    (success <- Mail.moveEmail env (move_message_id params)
                  (target_mailbox params) (target_account params) ;;
     let output := {| moveSuccess := success;
                      moveMessageId := move_message_id params;
                      targetMailbox := target_mailbox params |} in
     ret (Structured (stringify _ output) output))
    (fun error => ret (IsError ("Error moving email: " ++ errorMsg error))).

Definition markReadTool (params : SetReadStatusInput)
  : M W (CallToolResult MarkReadOutput) :=
  tryCatch
    (success <- Mail.setReadStatus env (mark_message_id params)
                  (mark_read params) ;;
     let output := {| markSuccess := success;
                      markMessageId := mark_message_id params;
                      markRead := mark_read params |} in
     ret (Structured (stringify _ output) output))
    (fun error =>
       ret (IsError ("Error updating read status: " ++ errorMsg error))).

Definition createDraftTool (params : Script.DraftEmail)
  : M W (CallToolResult DraftOutput) :=
  tryCatch
    (messageId <- Mail.createDraft env params ;;
     let output := {| draftSuccess := true;
                      draftMessageId := messageId;
                      draftOutputSubject := Script.draftSubject params;
                      draftRecipientCount := recipientCount params |} in
     ret (Structured (stringify _ output) output))
    (fun error => ret (IsError ("Error creating draft: " ++ errorMsg error))).

(** [result.messageId || ''] *)
Definition orEmpty (o : option string) : string :=
  match o with
  | Some s => if JS.truthy s then s else ""
  | None => ""
  end.

Definition sendEmailTool (params : Script.DraftEmail)
  : M W (CallToolResult SendOutput) :=
  tryCatch
    (result <- Mail.sendEmail env params ;;
     let output := {| sendSuccess := Mail.success result;
                      sendMessageId := orEmpty (Mail.messageId result);
                      sendError := Mail.error result;
                      sendSubject := Script.draftSubject params;
                      sendRecipientCount := recipientCount params |} in
     ret (Structured (stringify _ output) output))
    (fun error => ret (IsError ("Error sending email: " ++ errorMsg error))).

Definition listAccountsTool
  : M W (CallToolResult (ListOutput EmailAccount.t)) :=
  tryCatch
    (accounts <- Mail.listAccounts env ;;
     let output := {| count := List.length accounts; items := accounts |} in
     ret (Structured (stringify _ output) output))
    (fun error => ret (IsError ("Error listing accounts: " ++ errorMsg error))).

End WithEnv.

End Tools.

(** ** The shape shared by the four parsers

    The four parsers are one algorithm, instantiated at a start marker, an end
    marker, an initial object, a [switch] over the keys and a test of the
    required fields. *)

Module Generic.

Section Shape.

Variables (Rec : Type) (START END : string) (initial : Rec).
Variable field : string -> string -> Rec -> Rec.
Variable complete : Rec -> bool.

Definition line (r : Rec) (l : string) : Rec :=
  match Parser.lineKey l with
  | Some key => field key (Parser.lineValue l) r
  | None => r
  end.

Definition ofLines (lines : list string) : Rec := fold_left line lines initial.

Definition parseBlock (block : string) : list Rec :=
  if negb (JS.includes END block) then []
  else
    let r := ofLines (Parser.blockLines END block) in
    if complete r then [r] else [].

Definition blocks (output : string) : list string :=
  JS.filterBoolean (JS.split (START ++ JS.LF) output).

Definition parse (output : string) : list Rec :=
  fold_left (fun acc block => (acc ++ parseBlock block)%list) (blocks output) [].

End Shape.

End Generic.

(** ** The wire format

    What the scripts write ([output & "MESSAGE_START\n"], then
    [output & "ID:" & msgId & "\n"] and so on, then [output & "MESSAGE_END\n"])
    and the parsers read: blocks of [KEY:value] lines between a start marker
    line and an end marker line, every line closed by a line feed.  A fragment
    is a start marker line followed by lines, with no end marker: a block that
    was cut short. *)

Module Wire.

Inductive item : Type :=
| Block (fields : list (string * string))
| Fragment (lines : list string).

Definition fieldLine (kv : string * string) : string :=
  fst kv ++ ":" ++ snd kv.

Fixpoint renderLines (lines : list string) : string :=
  match lines with
  | [] => ""
  | l :: rest => l ++ JS.LF ++ renderLines rest
  end.

(** What follows the start marker line of an item. *)
Definition body (END : string) (it : item) : string :=
  match it with
  | Block fields => renderLines (map fieldLine fields) ++ END ++ JS.LF
  | Fragment lines => renderLines lines
  end.

Fixpoint render (START END : string) (items : list item) : string :=
  match items with
  | [] => ""
  | it :: rest => START ++ JS.LF ++ body END it ++ render START END rest
  end.

(** A line that holds no line feed and neither marker. *)
Definition plainLine (START END l : string) : Prop :=
  JS.includes JS.LF l = false
  /\ JS.includes START l = false
  /\ JS.includes END l = false.

(** A [KEY:value] line: moreover the key holds no colon. *)
Definition wellFormedField (START END : string) (kv : string * string) : Prop :=
  JS.includes ":" (fst kv) = false /\ plainLine START END (fieldLine kv).

Definition wellFormed (START END : string) (it : item) : Prop :=
  match it with
  | Block fields => Forall (wellFormedField START END) fields
  | Fragment lines => Forall (plainLine START END) lines
  end.

(** The number of blocks (as opposed to fragments) among the items. *)
Definition isBlock (it : item) : bool :=
  match it with
  | Block _ => true
  | Fragment _ => false
  end.

Definition countBlocks (items : list item) : nat :=
  List.length (filter isBlock items).

Section Records.

Variables (Rec : Type) (initial : Rec).
Variable field : string -> string -> Rec -> Rec.
Variable complete : Rec -> bool.

(** The object that the fields of a block assign, one after the other. *)
Definition ofFields (fields : list (string * string)) : Rec :=
  fold_left (fun r kv => field (fst kv) (JS.trim (snd kv)) r) fields initial.

(** The records that an item stands for: the object of a block when its
    required fields are there, none for a fragment. *)
Definition records (it : item) : list Rec :=
  match it with
  | Block fields =>
      if complete (ofFields fields) then [ofFields fields] else []
  | Fragment _ => []
  end.

(** The number of blocks whose object passes the test [complete]: the count
    of the records above. *)
Definition isCompleteBlock (it : item) : bool :=
  match it with
  | Block fields => complete (ofFields fields)
  | Fragment _ => false
  end.

Definition countComplete (items : list item) : nat :=
  List.length (filter isCompleteBlock items).

End Records.

(** *** The required fields of a block

    Stated on the fields of the block, with no reference to the parsers:
    the value of a key is the value of its last field, trimmed. *)
Fixpoint lastField (k : string) (fields : list (string * string))
  : option string :=
  match fields with
  | [] => None
  | kv :: rest =>
      match lastField k rest with
      | Some v => Some v
      | None => if fst kv =? k then Some (JS.trim (snd kv)) else None
      end
  end.

(** Some field has the key [k]. *)
Definition hasField (k : string) (fields : list (string * string)) : bool :=
  match lastField k fields with
  | Some _ => true
  | None => false
  end.

(** Some field has the key [k], and the value of the last one is not
    empty. *)
Definition hasValue (k : string) (fields : list (string * string)) : bool :=
  match lastField k fields with
  | Some v => negb (v =? "")
  | None => false
  end.

(** A message needs an identifier and a subject; a mailbox a name and an
    [ACCOUNT] line; an account a name and a type; an attachment a name. *)
Definition messageRequired (fields : list (string * string)) : bool :=
  hasValue "ID" fields && hasValue "SUBJECT" fields.

Definition mailboxRequired (fields : list (string * string)) : bool :=
  hasValue "NAME" fields && hasField "ACCOUNT" fields.

Definition accountRequired (fields : list (string * string)) : bool :=
  hasValue "NAME" fields && hasValue "TYPE" fields.

Definition attachmentRequired (fields : list (string * string)) : bool :=
  hasValue "NAME" fields.

(** The number of blocks, among the items, whose fields pass [required]. *)
Definition isRequiredBlock (required : list (string * string) -> bool)
  (it : item) : bool :=
  match it with
  | Block fields => required fields
  | Fragment _ => false
  end.

Definition countRequired (required : list (string * string) -> bool)
  (items : list item) : nat :=
  List.length (filter (isRequiredBlock required) items).

(** The four marker vocabularies and what the parsers fill in. *)
Definition messages := render "MESSAGE_START" "MESSAGE_END".
Definition mailboxes := render "MAILBOX_START" "MAILBOX_END".
Definition accounts := render "ACCOUNT_START" "ACCOUNT_END".
Definition attachments := render "ATTACHMENT_START" "ATTACHMENT_END".

Definition messageItem := wellFormed "MESSAGE_START" "MESSAGE_END".
Definition mailboxItem := wellFormed "MAILBOX_START" "MAILBOX_END".
Definition accountItem := wellFormed "ACCOUNT_START" "ACCOUNT_END".
Definition attachmentItem := wellFormed "ATTACHMENT_START" "ATTACHMENT_END".

Definition completeMessages :=
  countComplete EmailMessage.t EmailMessage.empty
    Parser.messageField Parser.messageComplete.
Definition completeMailboxes :=
  countComplete Mailbox.t Mailbox.empty
    Parser.mailboxField Parser.mailboxComplete.
Definition completeAccounts :=
  countComplete EmailAccount.t EmailAccount.initial
    Parser.accountField Parser.accountComplete.
Definition completeAttachments :=
  countComplete EmailAttachment.t EmailAttachment.empty
    Parser.attachmentField Parser.attachmentComplete.

(** The records of an item, for each kind of record. *)
Definition messageRecords :=
  records EmailMessage.t EmailMessage.empty
    Parser.messageField Parser.messageComplete.
Definition mailboxRecords :=
  records Mailbox.t Mailbox.empty Parser.mailboxField Parser.mailboxComplete.
Definition accountRecords :=
  records EmailAccount.t EmailAccount.initial
    Parser.accountField Parser.accountComplete.
Definition attachmentRecords :=
  records EmailAttachment.t EmailAttachment.empty
    Parser.attachmentField Parser.attachmentComplete.

(** [n] line feeds: what may follow the text that a script returns, on the
    standard output of the subprocess. *)
Fixpoint lineFeeds (n : nat) : string :=
  match n with
  | O => ""
  | S k => JS.LF ++ lineFeeds k
  end.

(** The fields of a block, as a well-formed list of [KEY:value] pairs. *)
Definition fieldsOf (START END : string) (fields : list (string * string))
  : Prop :=
  Forall (wellFormedField START END) fields.

(** What the search script writes for one message, in the order in which it
    writes it, and the record that the parser makes of it. *)
Record SearchRow : Type := {
  rowId : string;
  rowSubject : string;
  rowSender : string;
  rowDate : string;
  rowRead : string;
  rowFlagged : string;
  rowContent : string
}.

Definition searchFields (row : SearchRow) : list (string * string) :=
  [ ("ID", rowId row); ("SUBJECT", rowSubject row); ("SENDER", rowSender row);
    ("DATE", rowDate row); ("READ", rowRead row);
    ("FLAGGED", rowFlagged row); ("CONTENT", rowContent row) ].

Definition searchMessage (row : SearchRow) : EmailMessage.t :=
  {| EmailMessage.id := Some (JS.trim (rowId row));
     EmailMessage.subject := Some (JS.trim (rowSubject row));
     EmailMessage.sender := Some (JS.trim (rowSender row));
     EmailMessage.recipients := None;
     EmailMessage.date := Some (JS.trim (rowDate row));
     EmailMessage.read := Some (JS.trim (rowRead row) =? "true");
     EmailMessage.flagged := Some (JS.trim (rowFlagged row) =? "true");
     EmailMessage.mailbox := None;
     EmailMessage.account := None;
     EmailMessage.attachmentCount := None;
     EmailMessage.hasAttachments := None;
     EmailMessage.content := Some (JS.trim (rowContent row)) |}.

(** The value of the [RECIPIENTS] line as the script of [getEmailById]
    builds it: every address followed by a comma. *)
Fixpoint recipientList (addresses : list string) : string :=
  match addresses with
  | [] => ""
  | a :: rest => a ++ "," ++ recipientList rest
  end.

(** The row has an identifier and a subject, once trimmed. *)
Definition rowComplete (row : SearchRow) : bool :=
  JS.truthy (JS.trim (rowId row)) && JS.truthy (JS.trim (rowSubject row)).

End Wire.

(** ** Lines of a block by key *)

Module Lines.

Definition hasKey (k line : string) : bool :=
  match Parser.lineKey line with
  | Some key => key =? k
  | None => false
  end.

(** The value of the last line with key [k]. *)
Fixpoint lastValue (k : string) (lines : list string) : option string :=
  match lines with
  | [] => None
  | l :: rest =>
      match lastValue k rest with
      | Some v => Some v
      | None => if hasKey k l then Some (Parser.lineValue l) else None
      end
  end.

(** [line] is the last line with key [k] among [lines]. *)
Definition isLast (k : string) (lines : list string) (line : string) : Prop :=
  exists pre post,
    lines = (pre ++ line :: post)%list
    /\ hasKey k line = true
    /\ Forall (fun l => hasKey k l = false) post.

(** No line has key [k]. *)
Definition absent (k : string) (lines : list string) : Prop :=
  Forall (fun l => hasKey k l = false) lines.

(** Some line has key [k], whatever its value. *)
Definition observed (k : string) (lines : list string) : Prop :=
  exists line, In line lines /\ Parser.lineKey line = Some k.

(** The last line with key [k] carries a value that is not empty. *)
Definition present (k : string) (lines : list string) : Prop :=
  exists line, isLast k lines line /\ Parser.lineValue line <> "".

End Lines.

(** ** Two worlds *)

Module World.

Import Effect.

(** A world in which Mail is running and every spawned script ends as
    [outcome]. *)
Definition answering (outcome : spawned) : Env unit :=
  {| execAsync := fun _ w => (Returned ("true" ++ JS.LF, ""), w);
     spawnOsascript := fun _ w => (outcome, w);
     setTimeout := fun _ w => w |}.

(** A world in which no [osascript] command can be run. *)
Definition unavailable : Env unit :=
  {| execAsync := fun _ w => (Threw (Error "Command failed: osascript"), w);
     spawnOsascript := fun _ w => (ErrorEvent "spawn osascript ENOENT", w);
     setTimeout := fun _ w => w |}.

Definition start {W : Type} (w : W) : State W :=
  {| world := w; console := [] |}.

End World.

(** ** The mail application, for the statements of [setReadStatus]

    The read status of a message lives in the mail application, outside the
    repository.  What [setReadStatus] hands to [osascript] is the text of a
    script, and what becomes of the read status depends on that text.  Here
    the statements that this script is made of are read from the lines of
    the text and run, one after the other, over the messages of the
    application: the lookup of a message by its identifier, which fails when
    there is none, the assignment of its read status, and [return].  A line
    that is none of these statements is beyond this model: the script is
    refused as a whole, and nothing runs. *)

Module MailApp.

Import Effect.

(** The messages: the text of the identifier and the read status. *)
Definition Messages : Type := list (string * bool).

Fixpoint readStatus (messages : Messages) (id : string) : option bool :=
  match messages with
  | [] => None
  | (i, read) :: rest => if i =? id then Some read else readStatus rest id
  end.

Fixpoint setRead (id : string) (read : bool) (messages : Messages)
  : Messages :=
  match messages with
  | [] => []
  | (i, r) :: rest =>
      if i =? id then (i, read) :: rest else (i, r) :: setRead id read rest
  end.

Inductive statement : Type :=
| TellMail
| FirstMessage (id : string)
| SetReadStatus (read : bool)
| Return (text : string)
| EndTell
| Blank
| Unknown.

(** [s] without the prefix [p], when it starts with [p]. *)
Fixpoint stripPrefix (p s : string) : option string :=
  match p with
  | "" => Some s
  | String a p' =>
      match s with
      | "" => None
      | String b s' => if Ascii.eqb a b then stripPrefix p' s' else None
      end
  end.

Fixpoint dropSpaces (s : string) : string :=
  match s with
  | String c s' => if Ascii.eqb c " " then dropSpaces s' else s
  | "" => ""
  end.

(** The text before the first character [c]. *)
Fixpoint upTo (c : ascii) (s : string) : string :=
  match s with
  | "" => ""
  | String d s' => if Ascii.eqb c d then "" else String d (upTo c s')
  end.

Definition statementOf (line : string) : statement :=
  let l := dropSpaces line in
  if l =? "" then Blank
  else if l =? Script.tpl "tell application `Mail`" then TellMail
  else if l =? "end tell" then EndTell
  else
    match stripPrefix "set theMessage to first message whose id is " l with
    | Some id => FirstMessage id
    | None =>
        match stripPrefix "set read status of theMessage to " l with
        | Some v =>
            if v =? "true" then SetReadStatus true
            else if v =? "false" then SetReadStatus false
            else Unknown
        | None =>
            match stripPrefix (Script.tpl "return `") l with
            | Some rest => Return (upTo "034" rest)
            | None => Unknown
            end
        end
    end.

Definition isUnknown (st : statement) : bool :=
  match st with
  | Unknown => true
  | _ => false
  end.

(** Running the statements: [theMessage] is the variable of the script. *)
Fixpoint run (statements : list statement) (theMessage : option string)
  (messages : Messages) : spawned * Messages :=
  match statements with
  | [] => (CloseEvent (Some 0%Z) "" "", messages)
  | st :: rest =>
      match st with
      | TellMail | EndTell | Blank => run rest theMessage messages
      | FirstMessage id =>
          match readStatus messages id with
          | Some _ => run rest (Some id) messages
          | None =>
              (CloseEvent (Some 1%Z) "" "execution error: Can't get message.",
               messages)
          end
      | SetReadStatus read =>
          match theMessage with
          | Some id => run rest theMessage (setRead id read messages)
          | None =>
              (CloseEvent (Some 1%Z) ""
                 "execution error: The variable theMessage is not defined.",
               messages)
          end
      | Return text => (CloseEvent (Some 0%Z) (text ++ JS.LF) "", messages)
      | Unknown => (CloseEvent (Some 1%Z) "" "script refused", messages)
      end
  end.

(** [osascript -] on the text of a script. *)
Definition osascript (script : string) (messages : Messages)
  : spawned * Messages :=
  let statements := map statementOf (JS.split JS.LF script) in
  if existsb isUnknown statements
  then (CloseEvent (Some 1%Z) "" "script refused", messages)
  else run statements None messages.

(** The world in which Mail is running over these messages. *)
Definition env : Env Messages :=
  {| execAsync := fun _ w => (Returned ("true" ++ JS.LF, ""), w);
     spawnOsascript := osascript;
     setTimeout := fun _ w => w |}.

End MailApp.

(** * Properties *)

(** ** Strings: prefixes, occurrences and splitting *)

Module StringFacts.

Import Text.

Lemma append_empty_r (s : string) : s ++ "" = s.
Proof. induction s as [|c s IH]; simpl; [reflexivity | now rewrite IH]. Qed.

Lemma append_assoc (a b c : string) : (a ++ b) ++ c = a ++ b ++ c.
Proof. induction a as [|x a IH]; simpl; [reflexivity | now rewrite IH]. Qed.

Lemma length_append (a b : string) :
  String.length (a ++ b) = String.length a + String.length b.
Proof. induction a as [|x a IH]; simpl; [reflexivity | now rewrite IH]. Qed.

Lemma startsWith_refl (s : string) : JS.startsWith s s = true.
Proof.
  induction s as [|c s IH]; [reflexivity|].
  simpl. rewrite Ascii.eqb_refl. exact IH.
Qed.

Lemma startsWith_append (a b : string) : JS.startsWith a (a ++ b) = true.
Proof.
  induction a as [|c a IH]; [reflexivity|].
  simpl. rewrite Ascii.eqb_refl. exact IH.
Qed.

Lemma noMatch_append (sep a b tail : string) :
  noMatch sep a (b ++ tail) -> noMatch sep b tail ->
  noMatch sep (a ++ b) tail.
Proof.
  induction a as [|c a IH]; simpl; intros Ha Hb; [exact Hb|].
  destruct Ha as [Hp Ha]. split.
  - rewrite <- Hp. f_equal. simpl. now rewrite append_assoc.
  - now apply IH.
Qed.

(** *** [split] *)

Lemma splitFrom_skip (sep x rest : string) :
  JS.splitFrom sep (String.length x) (x ++ rest) = JS.splitFrom sep 0 rest.
Proof.
  induction x as [|c x IH]; simpl; [reflexivity|exact IH].
Qed.

Lemma splitFrom_match (sep rest : string) :
  sep <> "" ->
  JS.splitFrom sep 0 (sep ++ rest) = "" :: JS.splitFrom sep 0 rest.
Proof.
  intros Hsep. destruct sep as [|c sep]; [congruence|].
  change (String c sep ++ rest) with (String c (sep ++ rest)).
  cbn [JS.splitFrom].
  change (String c (sep ++ rest)) with (String c sep ++ rest).
  rewrite startsWith_append. f_equal.
  replace (String.length (String c sep) - 1) with (String.length sep)
    by (simpl; lia).
  apply splitFrom_skip.
Qed.

Lemma splitFrom_step (sep : string) (c : ascii) (s : string) :
  JS.startsWith sep (String c s) = false ->
  JS.splitFrom sep 0 (String c s) = JS.consHead c (JS.splitFrom sep 0 s).
Proof. intros H. cbn [JS.splitFrom]. now rewrite H. Qed.

Lemma splitFrom_piece (sep x rest : string) :
  sep <> "" ->
  noMatch sep x (sep ++ rest) ->
  JS.splitFrom sep 0 (x ++ sep ++ rest) = x :: JS.splitFrom sep 0 rest.
Proof.
  intros Hsep. induction x as [|c x IH]; intros H.
  - simpl append. now apply splitFrom_match.
  - destruct H as [Hp H]. simpl append in *.
    rewrite splitFrom_step by exact Hp.
    rewrite IH by exact H. reflexivity.
Qed.

Lemma splitFrom_last (sep x : string) :
  sep <> "" ->
  noMatch sep x "" ->
  JS.splitFrom sep 0 x = [x].
Proof.
  intros Hsep. induction x as [|c x IH]; intros H; [reflexivity|].
  destruct H as [Hp H]. rewrite append_empty_r in Hp.
  rewrite splitFrom_step by exact Hp.
  rewrite IH by exact H. reflexivity.
Qed.

Lemma split_nonempty_sep (sep s : string) :
  sep <> "" -> JS.split sep s = JS.splitFrom sep 0 s.
Proof. destruct sep; [congruence | reflexivity]. Qed.

(** *** [includes], [indexOf] and [substring] *)

Lemma includes_noMatch (pat x : string) :
  pat <> "" -> noMatch pat x "" -> JS.includes pat x = false.
Proof.
  intros Hpat. induction x as [|c x IH]; intros H.
  - destruct pat; [congruence | reflexivity].
  - destruct H as [Hp H]. rewrite append_empty_r in Hp.
    cbn [JS.includes]. rewrite Hp. now apply IH.
Qed.

Lemma includes_here (pat s : string) :
  JS.startsWith pat s = true -> JS.includes pat s = true.
Proof. intros H. destruct s; cbn [JS.includes]; now rewrite H. Qed.

Lemma indexOf_here (pat s : string) :
  JS.startsWith pat s = true -> JS.indexOf pat s = 0%Z.
Proof. intros H. destruct s; cbn [JS.indexOf]; now rewrite H. Qed.

Lemma includes_append (pat x rest : string) :
  JS.includes pat (x ++ pat ++ rest) = true.
Proof.
  induction x as [|c x IH].
  - simpl append. apply includes_here, startsWith_append.
  - simpl append. cbn [JS.includes]. rewrite IH.
    now destruct (JS.startsWith _ _).
Qed.

Lemma indexOf_noMatch (pat x rest : string) :
  noMatch pat x (pat ++ rest) ->
  JS.indexOf pat (x ++ pat ++ rest) = Z.of_nat (String.length x).
Proof.
  induction x as [|c x IH]; intros H.
  - simpl append. apply indexOf_here, startsWith_append.
  - destruct H as [Hp H]. simpl append in *. cbn [JS.indexOf].
    rewrite Hp, (IH H).
    destruct (Z.ltb_spec (Z.of_nat (String.length x)) 0); [lia|].
    cbn [String.length]. lia.
Qed.

Lemma substring_prefix (x y : string) :
  String.substring 0 (String.length x) (x ++ y) = x.
Proof.
  induction x as [|c x IH]; simpl.
  - now destruct y.
  - now rewrite IH.
Qed.

Lemma substring_head (x y : string) :
  JS.substring (x ++ y) 0 (Z.of_nat (String.length x)) = x.
Proof.
  unfold JS.substring, JS.clamp. rewrite length_append.
  replace (Z.min (Z.max 0 0) _) with 0%Z by lia.
  replace (Z.min (Z.max (Z.of_nat (String.length x)) 0) _)
    with (Z.of_nat (String.length x)) by lia.
  replace (Z.min 0 (Z.of_nat (String.length x))) with 0%Z by lia.
  replace (Z.max 0 (Z.of_nat (String.length x)))
    with (Z.of_nat (String.length x)) by lia.
  rewrite Z.sub_0_r, Nat2Z.id. apply substring_prefix.
Qed.

(** *** Lines *)

Lemma includes_cons (pat : string) (c : ascii) (s : string) :
  JS.includes pat (String c s) = false ->
  JS.startsWith pat (String c s) = false /\ JS.includes pat s = false.
Proof.
  cbn [JS.includes]. destruct (JS.startsWith pat (String c s)); [discriminate|].
  auto.
Qed.

Lemma includes_empty (pat : string) :
  JS.includes pat "" = false -> pat <> "".
Proof. intros H ->. discriminate. Qed.

Lemma includes_LF_cons (c : ascii) (s : string) :
  JS.includes JS.LF (String c s) = false ->
  Ascii.eqb "010" c = false /\ JS.includes JS.LF s = false.
Proof.
  intros H. apply includes_cons in H. destruct H as [H1 H2]. split; [|exact H2].
  unfold JS.LF in H1. cbn [JS.startsWith] in H1.
  now rewrite andb_true_r in H1.
Qed.

(** A marker followed by a line feed can only match a whole line. *)
Lemma startsWith_line_sep (tok l rest : string) :
  JS.includes JS.LF tok = false ->
  JS.includes JS.LF l = false ->
  JS.startsWith (tok ++ JS.LF) (l ++ JS.LF ++ rest) = true ->
  tok = l.
Proof.
  revert l. induction tok as [|a tok IH]; intros l Ht Hl H.
  - destruct l as [|b l]; [reflexivity|].
    apply includes_LF_cons in Hl. destruct Hl as [Hb _].
    unfold JS.LF in H. cbn [JS.startsWith append] in H.
    rewrite Hb in H. discriminate.
  - apply includes_LF_cons in Ht. destruct Ht as [Ha Ht].
    destruct l as [|b l].
    + unfold JS.LF in H. cbn [JS.startsWith append] in H.
      rewrite Ascii.eqb_sym, Ha in H. discriminate.
    + apply includes_LF_cons in Hl. destruct Hl as [_ Hl].
      cbn [JS.startsWith append] in H.
      apply andb_true_iff in H. destruct H as [Hab H].
      apply Ascii.eqb_eq in Hab. subst b. f_equal. now apply IH.
Qed.

(** A marker with no line feed can only match inside a line. *)
Lemma startsWith_line_tok (tok l rest : string) :
  JS.includes JS.LF tok = false ->
  JS.startsWith tok (l ++ JS.LF ++ rest) = true ->
  JS.startsWith tok l = true.
Proof.
  revert l. induction tok as [|a tok IH]; intros l Ht H; [reflexivity|].
  apply includes_LF_cons in Ht. destruct Ht as [Ha Ht].
  destruct l as [|b l].
  - unfold JS.LF in H. cbn [JS.startsWith append] in H.
    rewrite Ascii.eqb_sym, Ha in H. discriminate.
  - cbn [JS.startsWith append] in H.
    apply andb_true_iff in H. destruct H as [Hab H].
    cbn [JS.startsWith]. rewrite Hab. now apply IH.
Qed.

Lemma noMatch_line_sep (tok l rest : string) :
  JS.includes JS.LF tok = false ->
  JS.includes JS.LF l = false ->
  JS.includes tok l = false ->
  noMatch (tok ++ JS.LF) (l ++ JS.LF) rest.
Proof.
  intros Ht. induction l as [|c l IH]; intros Hl Hi.
  - simpl. split; [|exact I].
    destruct (JS.startsWith (tok ++ JS.LF) (String "010" rest)) eqn:E;
      [|reflexivity].
    apply (startsWith_line_sep tok "" rest Ht Hl) in E. subst tok. discriminate.
  - pose proof (includes_cons _ _ _ Hi) as [Hs Hi'].
    pose proof (includes_LF_cons _ _ Hl) as [_ Hl'].
    change (String c l ++ JS.LF) with (String c (l ++ JS.LF)).
    split; [|now apply IH].
    destruct (JS.startsWith (tok ++ JS.LF) (String c (l ++ JS.LF) ++ rest))
      eqn:E; [|reflexivity].
    change (String c (l ++ JS.LF) ++ rest)
      with (String c ((l ++ JS.LF) ++ rest)) in E.
    rewrite append_assoc in E.
    apply (startsWith_line_sep tok (String c l) rest Ht Hl) in E. subst tok.
    rewrite startsWith_refl in Hs. discriminate.
Qed.

Lemma noMatch_line_tok (tok l rest : string) :
  JS.includes JS.LF tok = false ->
  JS.includes tok l = false ->
  noMatch tok (l ++ JS.LF) rest.
Proof.
  intros Ht. induction l as [|c l IH]; intros Hi.
  - simpl. split; [|exact I].
    destruct (JS.startsWith tok (String "010" rest)) eqn:E; [|reflexivity].
    apply (startsWith_line_tok tok "" rest Ht) in E.
    destruct tok; discriminate.
  - pose proof (includes_cons _ _ _ Hi) as [Hs Hi'].
    change (String c l ++ JS.LF) with (String c (l ++ JS.LF)).
    split; [|now apply IH].
    destruct (JS.startsWith tok (String c (l ++ JS.LF) ++ rest)) eqn:E;
      [|reflexivity].
    change (String c (l ++ JS.LF) ++ rest)
      with (String c ((l ++ JS.LF) ++ rest)) in E.
    rewrite append_assoc in E.
    apply (startsWith_line_tok tok (String c l) rest Ht) in E.
    rewrite E in Hs. discriminate.
Qed.

Lemma noMatch_lines_sep (tok : string) (lines : list string) (rest : string) :
  JS.includes JS.LF tok = false ->
  Forall (fun l => JS.includes JS.LF l = false /\ JS.includes tok l = false)
    lines ->
  noMatch (tok ++ JS.LF) (Wire.renderLines lines) rest.
Proof.
  intros Ht H. induction H as [|l lines [Hl Hi] _ IH]; [exact I|].
  cbn [Wire.renderLines]. rewrite <- append_assoc.
  apply noMatch_append; [|exact IH].
  now apply noMatch_line_sep.
Qed.

Lemma noMatch_lines_tok (tok : string) (lines : list string) (rest : string) :
  JS.includes JS.LF tok = false ->
  Forall (fun l => JS.includes tok l = false) lines ->
  noMatch tok (Wire.renderLines lines) rest.
Proof.
  intros Ht H. induction H as [|l lines Hi _ IH]; [exact I|].
  cbn [Wire.renderLines]. rewrite <- append_assoc.
  apply noMatch_append; [|exact IH].
  now apply noMatch_line_tok.
Qed.

(** Cutting rendered lines at the line feeds gives the lines back, and one
    empty piece after the last line feed. *)
Lemma noMatch_char (c : ascii) (l rest : string) :
  JS.includes (String c "") l = false -> noMatch (String c "") l rest.
Proof.
  induction l as [|d l IH]; intros H; [exact I|].
  apply includes_cons in H. destruct H as [Hs H]. split; [|now apply IH].
  simpl in *. exact Hs.
Qed.

Lemma split_renderLines (lines : list string) :
  Forall (fun l => JS.includes JS.LF l = false) lines ->
  JS.split JS.LF (Wire.renderLines lines) = (lines ++ [""])%list.
Proof.
  intros H. rewrite split_nonempty_sep by discriminate.
  induction H as [|l lines Hl _ IH]; [reflexivity|].
  cbn [Wire.renderLines]. rewrite splitFrom_piece.
  - now rewrite IH.
  - discriminate.
  - now apply noMatch_char.
Qed.

Lemma filterBoolean_lines (lines : list string) :
  Forall (fun l => l <> "") lines ->
  JS.filterBoolean (lines ++ [""]) = lines.
Proof.
  intros H. unfold JS.filterBoolean. rewrite filter_app. simpl.
  rewrite app_nil_r. induction H as [|l lines Hl _ IH]; [reflexivity|].
  simpl. rewrite IH. unfold JS.truthy.
  destruct (String.eqb_spec l ""); [contradiction|reflexivity].
Qed.

(** *** [join] after [split] *)

Lemma splitFrom_not_nil (sep : string) (k : nat) (s : string) :
  JS.splitFrom sep k s <> [].
Proof.
  revert k. induction s as [|c s IH]; intros k; [discriminate|].
  cbn [JS.splitFrom]. destruct k; [|apply IH].
  destruct (JS.startsWith sep (String c s)); [discriminate|].
  specialize (IH 0). destruct (JS.splitFrom sep 0 s); [contradiction|].
  discriminate.
Qed.

Lemma join_cons (sep x : string) (l : list string) :
  l <> [] -> JS.join sep (x :: l) = x ++ sep ++ JS.join sep l.
Proof. destruct l; [contradiction | reflexivity]. Qed.

Lemma join_consHead (sep : string) (c : ascii) (l : list string) :
  l <> [] -> JS.join sep (JS.consHead c l) = String c (JS.join sep l).
Proof.
  destruct l as [|x l]; [contradiction|]. intros _.
  destruct l; reflexivity.
Qed.

Lemma startsWith_drop (sep s : string) :
  JS.startsWith sep s = true -> s = sep ++ drop (String.length sep) s.
Proof.
  revert s. induction sep as [|a sep IH]; intros s H; [reflexivity|].
  destruct s as [|b s]; [discriminate|].
  simpl in H. apply andb_true_iff in H. destruct H as [Hab H].
  apply Ascii.eqb_eq in Hab. subst b. simpl. f_equal. now apply IH.
Qed.

Lemma join_splitFrom (sep s : string) (k : nat) :
  sep <> "" -> JS.join sep (JS.splitFrom sep k s) = drop k s.
Proof.
  intros Hsep. revert k. induction s as [|c s IH]; intros k.
  - now destruct k.
  - cbn [JS.splitFrom]. destruct k as [|k]; [|apply IH].
    destruct (JS.startsWith sep (String c s)) eqn:E.
    + rewrite join_cons by apply splitFrom_not_nil.
      rewrite IH. apply startsWith_drop in E.
      destruct sep as [|a sep]; [congruence|].
      simpl in E. simpl. injection E as -> E.
      replace (String.length sep - 0) with (String.length sep) by lia.
      now rewrite <- E.
    + rewrite join_consHead by apply splitFrom_not_nil.
      now rewrite IH.
Qed.

Lemma join_split (sep s : string) :
  sep <> "" -> JS.join sep (JS.split sep s) = s.
Proof.
  intros Hsep. rewrite split_nonempty_sep by exact Hsep.
  now rewrite join_splitFrom.
Qed.

(** *** A [KEY:value] line *)

Lemma split_fieldLine (k v : string) :
  JS.includes ":" k = false ->
  JS.split ":" (k ++ ":" ++ v) = k :: JS.split ":" v.
Proof.
  intros Hk. rewrite !split_nonempty_sep by discriminate.
  apply splitFrom_piece; [discriminate|]. now apply noMatch_char.
Qed.

Lemma lineKey_fieldLine (kv : string * string) :
  JS.includes ":" (fst kv) = false ->
  Parser.lineKey (Wire.fieldLine kv) = Some (fst kv).
Proof.
  intros Hk. unfold Parser.lineKey, Wire.fieldLine.
  now rewrite split_fieldLine.
Qed.

Lemma lineValue_fieldLine (kv : string * string) :
  JS.includes ":" (fst kv) = false ->
  Parser.lineValue (Wire.fieldLine kv) = JS.trim (snd kv).
Proof.
  intros Hk. unfold Parser.lineValue, Wire.fieldLine.
  rewrite split_fieldLine by exact Hk. cbn [tl].
  now rewrite join_split by discriminate.
Qed.

Lemma fieldLine_not_empty (kv : string * string) : Wire.fieldLine kv <> "".
Proof.
  unfold Wire.fieldLine. destruct (fst kv); discriminate.
Qed.

End StringFacts.

(** ** The shared shape on rendered items *)

Module GenericFacts.

Lemma fold_append_flat_map {A B : Type} (f : A -> list B) (l : list A)
  (acc : list B) :
  fold_left (fun acc x => (acc ++ f x)%list) l acc = (acc ++ flat_map f l)%list.
Proof.
  revert acc. induction l as [|x l IH]; intros acc; simpl.
  - now rewrite app_nil_r.
  - now rewrite IH, app_assoc.
Qed.

Lemma flat_map_filterBoolean {B : Type} (f : string -> list B)
  (l : list string) :
  f "" = [] -> flat_map f (JS.filterBoolean l) = flat_map f l.
Proof.
  intros Hf. induction l as [|x l IH]; [reflexivity|].
  unfold JS.filterBoolean in *. simpl. unfold JS.truthy at 1.
  destruct (String.eqb_spec x "") as [->|N]; simpl.
  - now rewrite Hf.
  - now rewrite IH.
Qed.

Section Shape.

Import Text StringFacts.

Variables (Rec : Type) (START END : string) (initial : Rec).
Variable field : string -> string -> Rec -> Rec.
Variable complete : Rec -> bool.

Hypothesis START_one_line : JS.includes JS.LF START = false.
Hypothesis END_one_line : JS.includes JS.LF END = false.
Hypothesis END_not_START : JS.includes START END = false.
Hypothesis END_not_empty : END <> "".

Notation parse := (Generic.parse Rec START END initial field complete).
Notation parseBlock := (Generic.parseBlock Rec END initial field complete).
Notation ofLines := (Generic.ofLines Rec initial field).
Notation records := (Wire.records Rec initial field complete).
Notation wellFormed := (Wire.wellFormed START END).

Lemma parse_flat_map (output : string) :
  parse output = flat_map parseBlock (Generic.blocks START output).
Proof. unfold Generic.parse. now rewrite fold_append_flat_map. Qed.

Lemma parseBlock_empty : parseBlock "" = [].
Proof.
  unfold Generic.parseBlock.
  destruct END; [contradiction | reflexivity].
Qed.

Lemma wellFormed_lines_START (fields : list (string * string)) :
  Forall (Wire.wellFormedField START END) fields ->
  Forall (fun l => JS.includes JS.LF l = false /\ JS.includes START l = false)
    (map Wire.fieldLine fields).
Proof.
  intros H. apply Forall_map. eapply Forall_impl; [|exact H].
  intros kv [_ [H1 [H2 _]]]. now split.
Qed.

Lemma wellFormed_lines_END (fields : list (string * string)) :
  Forall (Wire.wellFormedField START END) fields ->
  Forall (fun l => JS.includes END l = false) (map Wire.fieldLine fields).
Proof.
  intros H. apply Forall_map. eapply Forall_impl; [|exact H].
  intros kv [_ [_ [_ H3]]]. exact H3.
Qed.

Lemma wellFormed_lines_LF (fields : list (string * string)) :
  Forall (Wire.wellFormedField START END) fields ->
  Forall (fun l => JS.includes JS.LF l = false) (map Wire.fieldLine fields).
Proof.
  intros H. apply Forall_map. eapply Forall_impl; [|exact H].
  intros kv [_ [H1 _]]. exact H1.
Qed.

(** The start marker line matches nowhere inside the body of an item. *)
Lemma body_noMatch (it : Wire.item) (rest : string) :
  wellFormed it -> noMatch (START ++ JS.LF) (Wire.body END it) rest.
Proof.
  destruct it as [fields|lines]; intros H; cbn [Wire.body Wire.wellFormed] in *.
  - apply noMatch_append.
    + apply noMatch_lines_sep; [exact START_one_line|].
      now apply wellFormed_lines_START.
    + now apply noMatch_line_sep.
  - apply noMatch_lines_sep; [exact START_one_line|].
    eapply Forall_impl; [|exact H]. intros l [H1 [H2 _]]. now split.
Qed.

Lemma splitFrom_render (x : string) (items : list Wire.item) :
  (forall rest, noMatch (START ++ JS.LF) x rest) ->
  Forall wellFormed items ->
  JS.splitFrom (START ++ JS.LF) 0 (x ++ Wire.render START END items)
  = x :: map (Wire.body END) items.
Proof.
  intros Hx H. revert x Hx.
  induction H as [|it items Hit _ IH]; intros x Hx.
  - cbn [Wire.render map]. rewrite append_empty_r.
    apply splitFrom_last; [destruct START; discriminate | apply Hx].
  - cbn [Wire.render map].
    rewrite <- (append_assoc START JS.LF).
    rewrite splitFrom_piece;
      [|destruct START; discriminate | apply Hx].
    f_equal. apply IH. intros rest. now apply body_noMatch.
Qed.

Lemma blocks_render (items : list Wire.item) :
  Forall wellFormed items ->
  Generic.blocks START (Wire.render START END items)
  = JS.filterBoolean (map (Wire.body END) items).
Proof.
  intros H. unfold Generic.blocks.
  rewrite split_nonempty_sep by (destruct START; discriminate).
  change (Wire.render START END items)
    with ("" ++ Wire.render START END items).
  rewrite splitFrom_render; [reflexivity | intros; exact I | exact H].
Qed.

(** A fragment has no end marker: it yields nothing. *)
Lemma parseBlock_fragment (lines : list string) :
  wellFormed (Wire.Fragment lines) ->
  parseBlock (Wire.body END (Wire.Fragment lines)) = [].
Proof.
  intros H. cbn [Wire.body Wire.wellFormed] in *. unfold Generic.parseBlock.
  rewrite includes_noMatch; [reflexivity | exact END_not_empty |].
  apply noMatch_lines_tok; [exact END_one_line|].
  eapply Forall_impl; [|exact H]. intros l [_ [_ H3]]. exact H3.
Qed.

Lemma blockLines_block (fields : list (string * string)) :
  Forall (Wire.wellFormedField START END) fields ->
  Parser.blockLines END (Wire.body END (Wire.Block fields))
  = map Wire.fieldLine fields.
Proof.
  intros H. cbn [Wire.body]. unfold Parser.blockLines.
  rewrite indexOf_noMatch
    by (apply noMatch_lines_tok;
        [exact END_one_line | now apply wellFormed_lines_END]).
  rewrite substring_head.
  rewrite split_renderLines by now apply wellFormed_lines_LF.
  apply filterBoolean_lines. apply Forall_map, Forall_forall.
  intros kv _. apply fieldLine_not_empty.
Qed.

Lemma ofLines_fields (fields : list (string * string)) (r : Rec) :
  Forall (Wire.wellFormedField START END) fields ->
  fold_left (Generic.line Rec field) (map Wire.fieldLine fields) r
  = fold_left (fun r kv => field (fst kv) (JS.trim (snd kv)) r) fields r.
Proof.
  intros H. revert r. induction H as [|kv fields [Hk _] _ IH]; intros r.
  - reflexivity.
  - cbn [map fold_left]. rewrite IH. f_equal.
    unfold Generic.line.
    now rewrite lineKey_fieldLine, lineValue_fieldLine.
Qed.

(** A block yields its object, when the required fields are there. *)
Lemma parseBlock_block (fields : list (string * string)) :
  wellFormed (Wire.Block fields) ->
  parseBlock (Wire.body END (Wire.Block fields)) = records (Wire.Block fields).
Proof.
  intros H. cbn [Wire.wellFormed] in H. unfold Generic.parseBlock.
  rewrite blockLines_block by exact H.
  cbn [Wire.body]. rewrite includes_append. cbn [negb].
  unfold Generic.ofLines. rewrite ofLines_fields by exact H.
  reflexivity.
Qed.

Lemma parseBlock_body (it : Wire.item) :
  wellFormed it -> parseBlock (Wire.body END it) = records it.
Proof.
  destruct it as [fields|lines]; intros H.
  - now apply parseBlock_block.
  - now apply parseBlock_fragment.
Qed.

(** The parser reads back, in order, the records of the blocks and nothing
    for the fragments. *)
Lemma parse_render (items : list Wire.item) :
  Forall wellFormed items ->
  parse (Wire.render START END items) = flat_map records items.
Proof.
  intros H. rewrite parse_flat_map, blocks_render by exact H.
  rewrite flat_map_filterBoolean by apply parseBlock_empty.
  induction H as [|it items Hit _ IH]; [reflexivity|].
  cbn [map flat_map]. now rewrite IH, parseBlock_body.
Qed.

Lemma length_flat_map_records (items : list Wire.item) :
  List.length (flat_map records items)
  = Wire.countComplete Rec initial field complete items.
Proof.
  unfold Wire.countComplete.
  induction items as [|it items IH]; [reflexivity|].
  cbn [flat_map filter]. rewrite length_app, IH.
  destruct it as [fields|lines]; cbn [Wire.records Wire.isCompleteBlock].
  - destruct (complete _); reflexivity.
  - reflexivity.
Qed.

Lemma length_parse_render (items : list Wire.item) :
  Forall wellFormed items ->
  List.length (parse (Wire.render START END items))
  = Wire.countComplete Rec initial field complete items.
Proof.
  intros H. rewrite parse_render by exact H. apply length_flat_map_records.
Qed.

End Shape.

End GenericFacts.

(** ** The four parsers are instances of the shared shape *)

Module ParserFacts.

Lemma parseEmailMessages_shape (output : string) :
  Parser.parseEmailMessages output
  = Generic.parse EmailMessage.t "MESSAGE_START" "MESSAGE_END"
      EmailMessage.empty Parser.messageField Parser.messageComplete output.
Proof. reflexivity. Qed.

Lemma parseMailboxes_shape (output : string) :
  Parser.parseMailboxes output
  = Generic.parse Mailbox.t "MAILBOX_START" "MAILBOX_END"
      Mailbox.empty Parser.mailboxField Parser.mailboxComplete output.
Proof. reflexivity. Qed.

Lemma parseAccounts_shape (output : string) :
  Parser.parseAccounts output
  = Generic.parse EmailAccount.t "ACCOUNT_START" "ACCOUNT_END"
      EmailAccount.initial Parser.accountField Parser.accountComplete output.
Proof. reflexivity. Qed.

Lemma parseAttachments_shape (output : string) :
  Parser.parseAttachments output
  = Generic.parse EmailAttachment.t "ATTACHMENT_START" "ATTACHMENT_END"
      EmailAttachment.empty Parser.attachmentField Parser.attachmentComplete
      output.
Proof. reflexivity. Qed.

Lemma length_parseEmailMessages (items : list Wire.item) :
  Forall Wire.messageItem items ->
  List.length (Parser.parseEmailMessages (Wire.messages items))
  = Wire.completeMessages items.
Proof.
  intros H. rewrite parseEmailMessages_shape.
  apply GenericFacts.length_parse_render;
    [reflexivity | reflexivity | reflexivity | discriminate | exact H].
Qed.

Lemma length_parseMailboxes (items : list Wire.item) :
  Forall Wire.mailboxItem items ->
  List.length (Parser.parseMailboxes (Wire.mailboxes items))
  = Wire.completeMailboxes items.
Proof.
  intros H. rewrite parseMailboxes_shape.
  apply GenericFacts.length_parse_render;
    [reflexivity | reflexivity | reflexivity | discriminate | exact H].
Qed.

Lemma length_parseAccounts (items : list Wire.item) :
  Forall Wire.accountItem items ->
  List.length (Parser.parseAccounts (Wire.accounts items))
  = Wire.completeAccounts items.
Proof.
  intros H. rewrite parseAccounts_shape.
  apply GenericFacts.length_parse_render;
    [reflexivity | reflexivity | reflexivity | discriminate | exact H].
Qed.

Lemma length_parseAttachments (items : list Wire.item) :
  Forall Wire.attachmentItem items ->
  List.length (Parser.parseAttachments (Wire.attachments items))
  = Wire.completeAttachments items.
Proof.
  intros H. rewrite parseAttachments_shape.
  apply GenericFacts.length_parse_render;
    [reflexivity | reflexivity | reflexivity | discriminate | exact H].
Qed.

End ParserFacts.

(** ** Lines by key: which assignment a field keeps *)

Module LinesFacts.

Lemma hasKey_lineKey (k line : string) :
  Lines.hasKey k line = true <-> Parser.lineKey line = Some k.
Proof.
  unfold Lines.hasKey. destruct (Parser.lineKey line) as [key|].
  - split; intros H.
    + apply String.eqb_eq in H. now subst.
    + injection H as ->. apply String.eqb_refl.
  - split; discriminate.
Qed.

Lemma lastValue_absent (k : string) (lines : list string) :
  Lines.absent k lines <-> Lines.lastValue k lines = None.
Proof.
  unfold Lines.absent. induction lines as [|l lines IH].
  - split; [reflexivity | constructor].
  - cbn [Lines.lastValue]. split.
    + intros H. inversion H as [|? ? Hl Hrest]; subst.
      apply IH in Hrest. now rewrite Hrest, Hl.
    + intros H. destruct (Lines.lastValue k lines) eqn:E; [discriminate|].
      destruct (Lines.hasKey k l) eqn:El; [discriminate|].
      constructor; [exact El | now apply IH].
Qed.

Lemma lastValue_app (k : string) (pre post : list string) :
  Lines.lastValue k (pre ++ post)
  = match Lines.lastValue k post with
    | Some v => Some v
    | None => Lines.lastValue k pre
    end.
Proof.
  induction pre as [|l pre IH]; cbn [app Lines.lastValue].
  - now destruct (Lines.lastValue k post).
  - rewrite IH. now destruct (Lines.lastValue k post).
Qed.

Lemma lastValue_isLast (k : string) (lines : list string) (line : string) :
  Lines.isLast k lines line ->
  Lines.lastValue k lines = Some (Parser.lineValue line).
Proof.
  intros [pre [post [-> [Hk Hpost]]]].
  rewrite lastValue_app. cbn [Lines.lastValue].
  apply lastValue_absent in Hpost. now rewrite Hpost, Hk.
Qed.

Lemma lastValue_some (k : string) (lines : list string) (v : string) :
  Lines.lastValue k lines = Some v ->
  exists line, Lines.isLast k lines line /\ Parser.lineValue line = v.
Proof.
  induction lines as [|l lines IH]; [discriminate|].
  cbn [Lines.lastValue]. destruct (Lines.lastValue k lines) as [w|] eqn:E.
  - intros H. injection H as ->.
    destruct (IH eq_refl) as [line [[pre [post [-> [Hk Hp]]]] Hv]].
    exists line. split; [|exact Hv].
    exists (l :: pre), post. now repeat split.
  - destruct (Lines.hasKey k l) eqn:El; [|discriminate].
    intros H. injection H as <-. exists l. split; [|reflexivity].
    exists [], lines. repeat split; [exact El|]. now apply lastValue_absent.
Qed.

Lemma lastValue_In (k : string) (lines : list string) :
  Lines.lastValue k lines <> None
  <-> exists line, In line lines /\ Parser.lineKey line = Some k.
Proof.
  split.
  - intros H. destruct (Lines.lastValue k lines) as [v|] eqn:E; [|congruence].
    destruct (lastValue_some _ _ _ E) as [line [[pre [post [-> [Hk _]]]] _]].
    exists line. split; [apply in_elt | now apply hasKey_lineKey].
  - intros [line [Hin Hk]] Hnone. apply lastValue_absent in Hnone.
    unfold Lines.absent in Hnone. rewrite Forall_forall in Hnone.
    apply Hnone in Hin. apply hasKey_lineKey in Hk. congruence.
Qed.

Section Getter.

Variables (Rec A : Type).
Variable field : string -> string -> Rec -> Rec.
Variable get : Rec -> option A.
Variable K : string.
Variable conv : string -> A.

(** The field [get] is written by the key [K] and by no other key. *)
Hypothesis get_field :
  forall key v r,
    get (field key v r) = if key =? K then Some (conv v) else get r.

Lemma get_fold (lines : list string) (r : Rec) :
  get (fold_left (Generic.line Rec field) lines r)
  = match Lines.lastValue K lines with
    | Some v => Some (conv v)
    | None => get r
    end.
Proof.
  revert r. induction lines as [|l lines IH]; intros r; [reflexivity|].
  cbn [fold_left Lines.lastValue]. rewrite IH.
  destruct (Lines.lastValue K lines); [reflexivity|].
  unfold Generic.line, Lines.hasKey.
  destruct (Parser.lineKey l) as [key|]; [|reflexivity].
  rewrite get_field. now destruct (key =? K).
Qed.

End Getter.

(** *** The fields of a message *)

Ltac switch :=
  repeat match goal with
    | |- context [String.eqb ?k ?c] =>
        destruct (String.eqb_spec k c); [subst; reflexivity|]
    end;
  try reflexivity.

Lemma id_field key v m :
  EmailMessage.id (Parser.messageField key v m)
  = if key =? "ID" then Some v else EmailMessage.id m.
Proof. unfold Parser.messageField. switch. Qed.

Lemma subject_field key v m :
  EmailMessage.subject (Parser.messageField key v m)
  = if key =? "SUBJECT" then Some v else EmailMessage.subject m.
Proof. unfold Parser.messageField. switch. Qed.

Lemma sender_field key v m :
  EmailMessage.sender (Parser.messageField key v m)
  = if key =? "SENDER" then Some v else EmailMessage.sender m.
Proof. unfold Parser.messageField. switch. Qed.

Lemma recipients_field key v m :
  EmailMessage.recipients (Parser.messageField key v m)
  = if key =? "RECIPIENTS" then Some (JS.filterBoolean (JS.split "," v))
    else EmailMessage.recipients m.
Proof. unfold Parser.messageField. switch. Qed.

Lemma date_field key v m :
  EmailMessage.date (Parser.messageField key v m)
  = if key =? "DATE" then Some v else EmailMessage.date m.
Proof. unfold Parser.messageField. switch. Qed.

Lemma read_field key v m :
  EmailMessage.read (Parser.messageField key v m)
  = if key =? "READ" then Some (v =? "true") else EmailMessage.read m.
Proof. unfold Parser.messageField. switch. Qed.

Lemma flagged_field key v m :
  EmailMessage.flagged (Parser.messageField key v m)
  = if key =? "FLAGGED" then Some (v =? "true") else EmailMessage.flagged m.
Proof. unfold Parser.messageField. switch. Qed.

Lemma mailbox_field key v m :
  EmailMessage.mailbox (Parser.messageField key v m)
  = if key =? "MAILBOX" then Some v else EmailMessage.mailbox m.
Proof. unfold Parser.messageField. switch. Qed.

Lemma account_field key v m :
  EmailMessage.account (Parser.messageField key v m)
  = if key =? "ACCOUNT" then Some v else EmailMessage.account m.
Proof. unfold Parser.messageField. switch. Qed.

Lemma attachmentCount_field key v m :
  EmailMessage.attachmentCount (Parser.messageField key v m)
  = if key =? "ATTACHMENT_COUNT" then Some (JS.parseInt v)
    else EmailMessage.attachmentCount m.
Proof. unfold Parser.messageField. switch. Qed.

Lemma hasAttachments_field key v m :
  EmailMessage.hasAttachments (Parser.messageField key v m)
  = if key =? "ATTACHMENT_COUNT" then Some (JS.gtZero (JS.parseInt v))
    else EmailMessage.hasAttachments m.
Proof. unfold Parser.messageField. switch. Qed.

Lemma content_field key v m :
  EmailMessage.content (Parser.messageField key v m)
  = if key =? "CONTENT" then Some v else EmailMessage.content m.
Proof. unfold Parser.messageField. switch. Qed.

(** The identifier and the subject of the object of a block are the values of
    the last [ID] line and of the last [SUBJECT] line. *)
Lemma id_messageOfLines (lines : list string) :
  EmailMessage.id (Parser.messageOfLines lines) = Lines.lastValue "ID" lines.
Proof.
  unfold Parser.messageOfLines.
  change Parser.messageLine
    with (Generic.line EmailMessage.t Parser.messageField).
  rewrite (get_fold _ _ _ _ "ID" (fun v => v) id_field).
  now destruct (Lines.lastValue "ID" lines).
Qed.

Lemma subject_messageOfLines (lines : list string) :
  EmailMessage.subject (Parser.messageOfLines lines)
  = Lines.lastValue "SUBJECT" lines.
Proof.
  unfold Parser.messageOfLines.
  change Parser.messageLine
    with (Generic.line EmailMessage.t Parser.messageField).
  rewrite (get_fold _ _ _ _ "SUBJECT" (fun v => v) subject_field).
  now destruct (Lines.lastValue "SUBJECT" lines).
Qed.

(** *** The fields of a mailbox *)

Lemma name_mailboxField key v m :
  Mailbox.name (Parser.mailboxField key v m)
  = if key =? "NAME" then Some v else Mailbox.name m.
Proof. unfold Parser.mailboxField. switch. Qed.

Lemma account_mailboxField key v m :
  Mailbox.account (Parser.mailboxField key v m)
  = if key =? "ACCOUNT" then Some v else Mailbox.account m.
Proof. unfold Parser.mailboxField. switch. Qed.

Lemma name_mailboxOfLines (lines : list string) :
  Mailbox.name (Parser.mailboxOfLines lines) = Lines.lastValue "NAME" lines.
Proof.
  unfold Parser.mailboxOfLines.
  change Parser.mailboxLine with (Generic.line Mailbox.t Parser.mailboxField).
  rewrite (get_fold _ _ _ _ "NAME" (fun v => v) name_mailboxField).
  now destruct (Lines.lastValue "NAME" lines).
Qed.

Lemma account_mailboxOfLines (lines : list string) :
  Mailbox.account (Parser.mailboxOfLines lines)
  = Lines.lastValue "ACCOUNT" lines.
Proof.
  unfold Parser.mailboxOfLines.
  change Parser.mailboxLine with (Generic.line Mailbox.t Parser.mailboxField).
  rewrite (get_fold _ _ _ _ "ACCOUNT" (fun v => v) account_mailboxField).
  now destruct (Lines.lastValue "ACCOUNT" lines).
Qed.

Lemma unreadCount_mailboxField key v m :
  Mailbox.unreadCount (Parser.mailboxField key v m)
  = if key =? "UNREAD" then Some (JS.parseInt v) else Mailbox.unreadCount m.
Proof. unfold Parser.mailboxField. switch. Qed.

Lemma totalCount_mailboxField key v m :
  Mailbox.totalCount (Parser.mailboxField key v m)
  = if key =? "TOTAL" then Some (JS.parseInt v) else Mailbox.totalCount m.
Proof. unfold Parser.mailboxField. switch. Qed.

(** *** The fields of an account and of an attachment *)

Lemma name_accountField key v a :
  EmailAccount.name (Parser.accountField key v a)
  = if key =? "NAME" then Some v else EmailAccount.name a.
Proof. unfold Parser.accountField. switch. Qed.

Lemma type_accountField key v a :
  EmailAccount.type (Parser.accountField key v a)
  = if key =? "TYPE" then Some v else EmailAccount.type a.
Proof. unfold Parser.accountField. switch. Qed.

Lemma name_attachmentField key v a :
  EmailAttachment.name (Parser.attachmentField key v a)
  = if key =? "NAME" then Some v else EmailAttachment.name a.
Proof. unfold Parser.attachmentField. switch. Qed.

(** *** What the fields of a block assign *)

Section FieldGetter.

Variables (Rec A : Type).
Variable field : string -> string -> Rec -> Rec.
Variable get : Rec -> option A.
Variable K : string.
Variable conv : string -> A.

Hypothesis get_field :
  forall key v r,
    get (field key v r) = if key =? K then Some (conv v) else get r.

Lemma get_fields (fields : list (string * string)) (initial : Rec) :
  get (Wire.ofFields Rec initial field fields)
  = match Wire.lastField K fields with
    | Some v => Some (conv v)
    | None => get initial
    end.
Proof.
  unfold Wire.ofFields. revert initial.
  induction fields as [|kv fields IH]; intros initial; [reflexivity|].
  cbn [fold_left Wire.lastField]. rewrite IH.
  destruct (Wire.lastField K fields); [reflexivity|].
  rewrite get_field. now destruct (fst kv =? K).
Qed.

(** With the last line of the key at hand. *)
Lemma get_isLast (lines : list string) (line : string) (r : Rec) :
  Lines.isLast K lines line ->
  get (fold_left (Generic.line Rec field) lines r)
  = Some (conv (Parser.lineValue line)).
Proof.
  intros H. rewrite (get_fold Rec A field get K conv get_field).
  now rewrite (lastValue_isLast _ _ _ H).
Qed.

End FieldGetter.

End LinesFacts.

(** ** Properties of the response parser *)

Module ParserProperties.

Import LinesFacts.

Lemma parseEmailMessages_flat_map (output : string) :
  Parser.parseEmailMessages output
  = flat_map Parser.parseMessageBlock (Parser.messageBlocks output).
Proof.
  unfold Parser.parseEmailMessages.
  now rewrite GenericFacts.fold_append_flat_map.
Qed.

Lemma parseMailboxes_flat_map (output : string) :
  Parser.parseMailboxes output
  = flat_map Parser.parseMailboxBlock (Parser.mailboxBlocks output).
Proof.
  unfold Parser.parseMailboxes.
  now rewrite GenericFacts.fold_append_flat_map.
Qed.


(** The test of each parser, on the object that the fields of a block
    assign, is the test of the required fields. *)
Lemma messageComplete_fields (fields : list (string * string)) :
  Parser.messageComplete
    (Wire.ofFields EmailMessage.t EmailMessage.empty Parser.messageField fields)
  = Wire.messageRequired fields.
Proof.
  unfold Parser.messageComplete, Wire.messageRequired, Wire.hasValue.
  rewrite (get_fields _ _ _ _ "ID" (fun v => v) id_field).
  rewrite (get_fields _ _ _ _ "SUBJECT" (fun v => v) subject_field).
  now destruct (Wire.lastField "ID" fields),
    (Wire.lastField "SUBJECT" fields).
Qed.

Lemma mailboxComplete_fields (fields : list (string * string)) :
  Parser.mailboxComplete
    (Wire.ofFields Mailbox.t Mailbox.empty Parser.mailboxField fields)
  = Wire.mailboxRequired fields.
Proof.
  unfold Parser.mailboxComplete, Wire.mailboxRequired, Wire.hasValue,
    Wire.hasField.
  rewrite (get_fields _ _ _ _ "NAME" (fun v => v) name_mailboxField).
  rewrite (get_fields _ _ _ _ "ACCOUNT" (fun v => v) account_mailboxField).
  now destruct (Wire.lastField "NAME" fields),
    (Wire.lastField "ACCOUNT" fields).
Qed.

Lemma accountComplete_fields (fields : list (string * string)) :
  Parser.accountComplete
    (Wire.ofFields EmailAccount.t EmailAccount.initial Parser.accountField
       fields)
  = Wire.accountRequired fields.
Proof.
  unfold Parser.accountComplete, Wire.accountRequired, Wire.hasValue.
  rewrite (get_fields _ _ _ _ "NAME" (fun v => v) name_accountField).
  rewrite (get_fields _ _ _ _ "TYPE" (fun v => v) type_accountField).
  now destruct (Wire.lastField "NAME" fields),
    (Wire.lastField "TYPE" fields).
Qed.

Lemma attachmentComplete_fields (fields : list (string * string)) :
  Parser.attachmentComplete
    (Wire.ofFields EmailAttachment.t EmailAttachment.empty
       Parser.attachmentField fields)
  = Wire.attachmentRequired fields.
Proof.
  unfold Parser.attachmentComplete, Wire.attachmentRequired, Wire.hasValue.
  rewrite (get_fields _ _ _ _ "NAME" (fun v => v) name_attachmentField).
  now destruct (Wire.lastField "NAME" fields).
Qed.

Lemma countComplete_required (Rec : Type) (initial : Rec)
  (field : string -> string -> Rec -> Rec) (complete : Rec -> bool)
  (required : list (string * string) -> bool) (items : list Wire.item) :
  (forall fields,
     complete (Wire.ofFields Rec initial field fields) = required fields) ->
  Wire.countComplete Rec initial field complete items
  = Wire.countRequired required items.
Proof.
  intros H. unfold Wire.countComplete, Wire.countRequired. f_equal.
  apply filter_ext. intros [fields|lines]; [apply H | reflexivity].
Qed.

Lemma countRequired_all (required : list (string * string) -> bool)
  (items : list Wire.item) :
  (forall fields, In (Wire.Block fields) items -> required fields = true) ->
  Wire.countRequired required items = Wire.countBlocks items.
Proof.
  intros H. unfold Wire.countRequired, Wire.countBlocks. f_equal.
  apply filter_ext_in. intros [fields|lines] Hin; [|reflexivity].
  exact (H fields Hin).
Qed.



(** *** Required fields *)

Lemma parseMessageBlock_complete (block : string) (m : EmailMessage.t) :
  In m (Parser.parseMessageBlock block) -> Parser.messageComplete m = true.
Proof.
  unfold Parser.parseMessageBlock.
  destruct (negb (JS.includes "MESSAGE_END" block)); [intros []|].
  destruct (Parser.messageComplete _) eqn:E; [|intros []].
  intros [<-|[]]. exact E.
Qed.

Lemma truthyOpt_true (o : option string) :
  JS.truthyOpt o = true <-> exists v, o = Some v /\ v <> "".
Proof.
  destruct o as [v|]; cbn [JS.truthyOpt]; unfold JS.truthy.
  - destruct (String.eqb_spec v ""); split.
    + discriminate.
    + intros [w [E N]]. congruence.
    + intros _. now exists v.
    + reflexivity.
  - split; [discriminate | intros [v [E _]]; discriminate].
Qed.

Lemma messageComplete_lines (lines : list string) :
  Parser.messageComplete (Parser.messageOfLines lines) = true
  <-> Lines.present "ID" lines /\ Lines.present "SUBJECT" lines.
Proof.
  unfold Parser.messageComplete.
  rewrite andb_true_iff, !truthyOpt_true.
  rewrite id_messageOfLines, subject_messageOfLines.
  unfold Lines.present. split.
  - intros [[v [Hv Nv]] [w [Hw Nw]]].
    apply lastValue_some in Hv, Hw.
    destruct Hv as [l1 [H1 E1]], Hw as [l2 [H2 E2]]. split.
    + exists l1. split; [exact H1 | congruence].
    + exists l2. split; [exact H2 | congruence].
  - intros [[l1 [H1 N1]] [l2 [H2 N2]]].
    apply lastValue_isLast in H1, H2. split; eauto.
Qed.

Lemma mailboxComplete_lines (lines : list string) :
  Parser.mailboxComplete (Parser.mailboxOfLines lines) = true
  <-> Lines.present "NAME" lines /\ Lines.observed "ACCOUNT" lines.
Proof.
  unfold Parser.mailboxComplete.
  rewrite andb_true_iff, truthyOpt_true.
  rewrite name_mailboxOfLines, account_mailboxOfLines.
  unfold Lines.present, Lines.observed.
  rewrite <- lastValue_In. split.
  - intros [[v [Hv Nv]] Ha].
    apply lastValue_some in Hv. destruct Hv as [l1 [H1 E1]]. split.
    + exists l1. split; [exact H1 | congruence].
    + destruct (Lines.lastValue "ACCOUNT" lines); [discriminate|discriminate].
  - intros [[l1 [H1 N1]] Ha].
    apply lastValue_isLast in H1. split; [eauto|].
    destruct (Lines.lastValue "ACCOUNT" lines); [reflexivity|congruence].
Qed.

Lemma absent_not_present (k : string) (lines : list string) :
  Lines.absent k lines -> ~ Lines.present k lines.
Proof.
  intros Ha [line [Hl _]]. apply lastValue_absent in Ha.
  apply lastValue_isLast in Hl. congruence.
Qed.

Lemma parseMessageBlock_incomplete (block : string) :
  ~ (Lines.present "ID" (Parser.blockLines "MESSAGE_END" block)
     /\ Lines.present "SUBJECT" (Parser.blockLines "MESSAGE_END" block)) ->
  Parser.parseMessageBlock block = [].
Proof.
  intros H. unfold Parser.parseMessageBlock.
  destruct (negb (JS.includes "MESSAGE_END" block)); [reflexivity|].
  destruct (Parser.messageComplete _) eqn:E; [|reflexivity].
  apply messageComplete_lines in E. contradiction.
Qed.

(** C3.  The output of [parseEmailMessages] is, block after block, what each
    block of the input yields.  A block with no [ID] line, or with no
    [SUBJECT] line, yields nothing, whatever its other lines are: the output
    is the one of the other blocks alone.  Every record of the output has an
    identifier and a subject, so no partial record comes out; the parser is a
    total function, so no error does. *)
Theorem message_block_without_required_field_dropped
  (output : string) (pre : list string) (block : string) (post : list string) :
  Parser.messageBlocks output = (pre ++ block :: post)%list ->
  Lines.absent "ID" (Parser.blockLines "MESSAGE_END" block)
  \/ Lines.absent "SUBJECT" (Parser.blockLines "MESSAGE_END" block) ->
  Parser.parseMessageBlock block = []
  /\ Parser.parseEmailMessages output
     = flat_map Parser.parseMessageBlock (pre ++ post)
  /\ (forall m,
        In m (Parser.parseEmailMessages output) ->
        (exists v, EmailMessage.id m = Some v /\ v <> "")
        /\ (exists v, EmailMessage.subject m = Some v /\ v <> "")).
Proof.
  intros Hblocks Habsent.
  assert (Hdrop : Parser.parseMessageBlock block = []).
  { apply parseMessageBlock_incomplete. intros [Hid Hsubject].
    destruct Habsent as [H|H]; eapply absent_not_present; eauto. }
  split; [exact Hdrop|]. split.
  - rewrite parseEmailMessages_flat_map, Hblocks, !flat_map_app.
    cbn [flat_map]. now rewrite Hdrop.
  - intros m Hm. rewrite parseEmailMessages_flat_map in Hm.
    apply in_flat_map in Hm. destruct Hm as [b [_ Hm]].
    apply parseMessageBlock_complete in Hm.
    unfold Parser.messageComplete in Hm.
    apply andb_true_iff in Hm. now rewrite !truthyOpt_true in Hm.
Qed.

(** A block with a subject and no identifier, then a complete block. *)
Lemma message_block_without_required_field_dropped_witness :
  Parser.parseMessageBlock "SUBJECT:Hi
SENDER:a@b.com
MESSAGE_END
" = []
  /\ List.length (Parser.parseEmailMessages "MESSAGE_START
SUBJECT:Hi
SENDER:a@b.com
MESSAGE_END
MESSAGE_START
ID:2
SUBJECT:Yo
MESSAGE_END
") = 1.
Proof.
  assert (Habsent : Lines.absent "ID" (Parser.blockLines "MESSAGE_END"
    "SUBJECT:Hi
SENDER:a@b.com
MESSAGE_END
")) by (vm_compute; repeat constructor).
  assert (H := message_block_without_required_field_dropped
    "MESSAGE_START
SUBJECT:Hi
SENDER:a@b.com
MESSAGE_END
MESSAGE_START
ID:2
SUBJECT:Yo
MESSAGE_END
"
    []
    "SUBJECT:Hi
SENDER:a@b.com
MESSAGE_END
"
    ["ID:2
SUBJECT:Yo
MESSAGE_END
"]
    eq_refl
    (or_introl Habsent)).
  destruct H as [H1 [H2 _]]. split; [exact H1|].
  rewrite H2. reflexivity.
Defined.

(** *** Duplicate keys *)

Lemma parseMessageBlock_In (block : string) (m : EmailMessage.t) :
  In m (Parser.parseMessageBlock block) ->
  m = Parser.messageOfLines (Parser.blockLines "MESSAGE_END" block).
Proof.
  unfold Parser.parseMessageBlock.
  destruct (negb (JS.includes "MESSAGE_END" block)); [intros []|].
  destruct (Parser.messageComplete _); [|intros []].
  now intros [<-|[]].
Qed.

Lemma parseMailboxBlock_In (block : string) (m : Mailbox.t) :
  In m (Parser.parseMailboxBlock block) ->
  m = Parser.mailboxOfLines (Parser.blockLines "MAILBOX_END" block).
Proof.
  unfold Parser.parseMailboxBlock.
  destruct (negb (JS.includes "MAILBOX_END" block)); [intros []|].
  destruct (Parser.mailboxComplete _); [|intros []].
  now intros [<-|[]].
Qed.

Lemma parseAccountBlock_In (block : string) (a : EmailAccount.t) :
  In a (Parser.parseAccountBlock block) ->
  a = Parser.accountOfLines (Parser.blockLines "ACCOUNT_END" block).
Proof.
  unfold Parser.parseAccountBlock.
  destruct (negb (JS.includes "ACCOUNT_END" block)); [intros []|].
  destruct (Parser.accountComplete _); [|intros []].
  now intros [<-|[]].
Qed.

Lemma parseAttachmentBlock_In (block : string) (a : EmailAttachment.t) :
  In a (Parser.parseAttachmentBlock block) ->
  a = Parser.attachmentOfLines (Parser.blockLines "ATTACHMENT_END" block).
Proof.
  unfold Parser.parseAttachmentBlock.
  destruct (negb (JS.includes "ATTACHMENT_END" block)); [intros []|].
  destruct (Parser.attachmentComplete _); [|intros []].
  now intros [<-|[]].
Qed.

(** The four objects of a list of lines, as folds of the shared loop. *)
Lemma messageOfLines_fold (lines : list string) :
  Parser.messageOfLines lines
  = fold_left (Generic.line EmailMessage.t Parser.messageField) lines
      EmailMessage.empty.
Proof. reflexivity. Qed.

Lemma mailboxOfLines_fold (lines : list string) :
  Parser.mailboxOfLines lines
  = fold_left (Generic.line Mailbox.t Parser.mailboxField) lines Mailbox.empty.
Proof. reflexivity. Qed.

Lemma accountOfLines_fold (lines : list string) :
  Parser.accountOfLines lines
  = fold_left (Generic.line EmailAccount.t Parser.accountField) lines
      EmailAccount.initial.
Proof. reflexivity. Qed.

Lemma attachmentOfLines_fold (lines : list string) :
  Parser.attachmentOfLines lines
  = fold_left (Generic.line EmailAttachment.t Parser.attachmentField) lines
      EmailAttachment.empty.
Proof. reflexivity. Qed.

(** C7.  Let [line] be the last line with key [key] among the lines of a
    block, and [v] its value.  Then the object parsed from these lines holds
    [v] in the field that [key] assigns, whatever the earlier lines with that
    key carry, for every recognized key of the four kinds of record: as it
    is for the text fields, split at the commas for [RECIPIENTS], compared
    with [true] for [READ] and [FLAGGED], parsed as an integer for
    [ATTACHMENT_COUNT] (with [hasAttachments] after it), [UNREAD] and
    [TOTAL].  Every record that a parser takes from a block is the object of
    the lines of that block.  When the line is the text [k:value], with no
    colon in [k], its key is [k] and [v] is [value] trimmed.  A message
    block with the line [READ:true]
    followed by the line [READ:false] parses with [read] false. *)
Theorem last_occurrence_of_key_wins
  (lines : list string) (line key : string) :
  Lines.isLast key lines line ->
  let v := Parser.lineValue line in
  let message := Parser.messageOfLines lines in
  let mailbox := Parser.mailboxOfLines lines in
  let account := Parser.accountOfLines lines in
  let attachment := Parser.attachmentOfLines lines in
  ((key = "ID" -> EmailMessage.id message = Some v)
   /\ (key = "SUBJECT" -> EmailMessage.subject message = Some v)
   /\ (key = "SENDER" -> EmailMessage.sender message = Some v)
   /\ (key = "RECIPIENTS" ->
       EmailMessage.recipients message
       = Some (JS.filterBoolean (JS.split "," v)))
   /\ (key = "DATE" -> EmailMessage.date message = Some v)
   /\ (key = "READ" -> EmailMessage.read message = Some (v =? "true"))
   /\ (key = "FLAGGED" -> EmailMessage.flagged message = Some (v =? "true"))
   /\ (key = "MAILBOX" -> EmailMessage.mailbox message = Some v)
   /\ (key = "ACCOUNT" -> EmailMessage.account message = Some v)
   /\ (key = "ATTACHMENT_COUNT" ->
       EmailMessage.attachmentCount message = Some (JS.parseInt v)
       /\ EmailMessage.hasAttachments message
          = Some (JS.gtZero (JS.parseInt v)))
   /\ (key = "CONTENT" -> EmailMessage.content message = Some v))
  /\ ((key = "NAME" -> Mailbox.name mailbox = Some v)
      /\ (key = "ACCOUNT" -> Mailbox.account mailbox = Some v)
      /\ (key = "UNREAD" -> Mailbox.unreadCount mailbox = Some (JS.parseInt v))
      /\ (key = "TOTAL" -> Mailbox.totalCount mailbox = Some (JS.parseInt v)))
  /\ ((key = "NAME" -> EmailAccount.name account = Some v)
      /\ (key = "TYPE" -> EmailAccount.type account = Some v))
  /\ (key = "NAME" -> EmailAttachment.name attachment = Some v)
  /\ ((forall block m,
         In m (Parser.parseMessageBlock block) ->
         m = Parser.messageOfLines (Parser.blockLines "MESSAGE_END" block))
      /\ (forall block m,
            In m (Parser.parseMailboxBlock block) ->
            m = Parser.mailboxOfLines (Parser.blockLines "MAILBOX_END" block))
      /\ (forall block a,
            In a (Parser.parseAccountBlock block) ->
            a = Parser.accountOfLines (Parser.blockLines "ACCOUNT_END" block))
      /\ (forall block a,
            In a (Parser.parseAttachmentBlock block) ->
            a = Parser.attachmentOfLines
                  (Parser.blockLines "ATTACHMENT_END" block)))
  /\ (forall k value,
        JS.includes ":" k = false ->
        line = k ++ ":" ++ value ->
        key = k /\ v = JS.trim value)
  /\ map EmailMessage.read (Parser.parseEmailMessages "MESSAGE_START
ID:1
SUBJECT:Hi
READ:true
READ:false
MESSAGE_END
") = [Some false].
Proof.
  intros Hlast v message mailbox account attachment.
  subst v message mailbox account attachment.
  rewrite messageOfLines_fold, mailboxOfLines_fold, accountOfLines_fold,
    attachmentOfLines_fold.
  split; [|split; [|split; [|split; [|split; [|split]]]]].
  - split; [|split; [|split; [|split; [|split; [|split; [|split; [|split;
      [|split; [|split]]]]]]]]]; intros E; rewrite E in Hlast.
    + exact (get_isLast _ _ _ _ _ (fun x => x) id_field _ _ _ Hlast).
    + exact (get_isLast _ _ _ _ _ (fun x => x) subject_field _ _ _ Hlast).
    + exact (get_isLast _ _ _ _ _ (fun x => x) sender_field _ _ _ Hlast).
    + exact (get_isLast _ _ _ _ _ _ recipients_field _ _ _ Hlast).
    + exact (get_isLast _ _ _ _ _ (fun x => x) date_field _ _ _ Hlast).
    + exact (get_isLast _ _ _ _ _ _ read_field _ _ _ Hlast).
    + exact (get_isLast _ _ _ _ _ _ flagged_field _ _ _ Hlast).
    + exact (get_isLast _ _ _ _ _ (fun x => x) mailbox_field _ _ _ Hlast).
    + exact (get_isLast _ _ _ _ _ (fun x => x) account_field _ _ _ Hlast).
    + split.
      * exact (get_isLast _ _ _ _ _ _ attachmentCount_field _ _ _ Hlast).
      * exact (get_isLast _ _ _ _ _ _ hasAttachments_field _ _ _ Hlast).
    + exact (get_isLast _ _ _ _ _ (fun x => x) content_field _ _ _ Hlast).
  - split; [|split; [|split]]; intros E; rewrite E in Hlast.
    + exact (get_isLast _ _ _ _ _ (fun x => x) name_mailboxField _ _ _ Hlast).
    + exact (get_isLast _ _ _ _ _ (fun x => x) account_mailboxField _ _ _
               Hlast).
    + exact (get_isLast _ _ _ _ _ _ unreadCount_mailboxField _ _ _ Hlast).
    + exact (get_isLast _ _ _ _ _ _ totalCount_mailboxField _ _ _ Hlast).
  - split; intros E; rewrite E in Hlast.
    + exact (get_isLast _ _ _ _ _ (fun x => x) name_accountField _ _ _ Hlast).
    + exact (get_isLast _ _ _ _ _ (fun x => x) type_accountField _ _ _ Hlast).
  - intros E; rewrite E in Hlast.
    exact (get_isLast _ _ _ _ _ (fun x => x) name_attachmentField _ _ _ Hlast).
  - split; [exact parseMessageBlock_In|].
    split; [exact parseMailboxBlock_In|].
    split; [exact parseAccountBlock_In | exact parseAttachmentBlock_In].
  - intros k value Hk ->.
    destruct Hlast as [pre [post [_ [Hkey _]]]].
    apply hasKey_lineKey in Hkey.
    change (k ++ ":" ++ value) with (Wire.fieldLine (k, value)) in *.
    rewrite (StringFacts.lineKey_fieldLine (k, value) Hk) in Hkey.
    split; [now injection Hkey|].
    exact (StringFacts.lineValue_fieldLine (k, value) Hk).
  - reflexivity.
Qed.

(** The lines [SUBJECT:first], [READ:true], [SUBJECT:second], [READ:false]:
    the subject is [second] and the flag is false. *)
Lemma last_occurrence_of_key_wins_witness :
  EmailMessage.subject
    (Parser.messageOfLines
       ["SUBJECT:first"; "READ:true"; "SUBJECT:second"; "READ:false"])
  = Some "second"
  /\ EmailMessage.read
       (Parser.messageOfLines
          ["SUBJECT:first"; "READ:true"; "SUBJECT:second"; "READ:false"])
     = Some false.
Proof.
  assert (Hsubject : Lines.isLast "SUBJECT"
            ["SUBJECT:first"; "READ:true"; "SUBJECT:second"; "READ:false"]
            "SUBJECT:second").
  { exists ["SUBJECT:first"; "READ:true"], ["READ:false"].
    repeat split. repeat constructor. }
  assert (Hread : Lines.isLast "READ"
            ["SUBJECT:first"; "READ:true"; "SUBJECT:second"; "READ:false"]
            "READ:false").
  { exists ["SUBJECT:first"; "READ:true"; "SUBJECT:second"], [].
    repeat split. constructor. }
  split.
  - destruct (last_occurrence_of_key_wins _ _ _ Hsubject)
      as [[_ [H _]] _].
    exact (H eq_refl).
  - destruct (last_occurrence_of_key_wins _ _ _ Hread)
      as [[_ [_ [_ [_ [_ [H _]]]]]] _].
    exact (H eq_refl).
Defined.

(** *** Mailboxes: the name and the account key *)

Lemma parseMailboxBlock_cases (block : string) :
  JS.includes "MAILBOX_END" block = true ->
  Parser.parseMailboxBlock block
  = if Parser.mailboxComplete
         (Parser.mailboxOfLines (Parser.blockLines "MAILBOX_END" block))
    then [Parser.mailboxOfLines (Parser.blockLines "MAILBOX_END" block)]
    else [].
Proof. intros H. unfold Parser.parseMailboxBlock. now rewrite H. Qed.

(** C8.  [parseMailboxes] returns, block after block, what each block yields.
    A mailbox block (a piece of the input that holds the end marker) yields
    its record exactly when its name is present (the last [NAME] line carries
    a value that is not empty) and some line of it has the key [ACCOUNT],
    whatever the value of that line; otherwise it yields nothing.  The account
    of the record is the value of the last [ACCOUNT] line, the empty string
    included: the block with [NAME:Inbox] and [ACCOUNT:] is kept with the
    account [""], the block with [NAME:Inbox] alone is dropped. *)
Theorem mailbox_emitted_iff_name_and_account_key (output block : string) :
  Parser.parseMailboxes output
  = flat_map Parser.parseMailboxBlock (Parser.mailboxBlocks output)
  /\ (JS.includes "MAILBOX_END" block = true ->
      let lines := Parser.blockLines "MAILBOX_END" block in
      (Parser.parseMailboxBlock block = [Parser.mailboxOfLines lines]
       <-> Lines.present "NAME" lines /\ Lines.observed "ACCOUNT" lines)
      /\ (Parser.parseMailboxBlock block = []
          <-> ~ (Lines.present "NAME" lines /\ Lines.observed "ACCOUNT" lines))
      /\ (forall line,
            Lines.isLast "ACCOUNT" lines line ->
            Mailbox.account (Parser.mailboxOfLines lines)
            = Some (Parser.lineValue line)))
  /\ Parser.parseMailboxes "MAILBOX_START
NAME:Inbox
ACCOUNT:
MAILBOX_END
" = [Mailbox.mk (Some "Inbox") (Some "") None None]
  /\ Parser.parseMailboxes "MAILBOX_START
NAME:Inbox
MAILBOX_END
" = [].
Proof.
  split; [apply parseMailboxes_flat_map|].
  split; [|split; reflexivity].
  intros Hend lines.
  rewrite (parseMailboxBlock_cases block Hend). fold lines.
  rewrite <- mailboxComplete_lines.
  destruct (Parser.mailboxComplete (Parser.mailboxOfLines lines)) eqn:E.
  - split; [|split].
    + split; reflexivity || auto.
    + split; [discriminate | intros N; now contradiction N].
    + intros line Hl. rewrite account_mailboxOfLines.
      now apply lastValue_isLast.
  - split; [|split].
    + split; discriminate.
    + split; [intros _; discriminate | reflexivity].
    + intros line Hl. rewrite account_mailboxOfLines.
      now apply lastValue_isLast.
Qed.

(** The block with [NAME:Inbox] and [ACCOUNT:]. *)
Lemma mailbox_emitted_iff_name_and_account_key_witness :
  JS.includes "MAILBOX_END" "NAME:Inbox
ACCOUNT:
MAILBOX_END
" = true
  /\ Mailbox.account
       (Parser.mailboxOfLines
          (Parser.blockLines "MAILBOX_END" "NAME:Inbox
ACCOUNT:
MAILBOX_END
")) = Some "".
Proof.
  split; [reflexivity|].
  destruct (mailbox_emitted_iff_name_and_account_key "" "NAME:Inbox
ACCOUNT:
MAILBOX_END
") as [_ [H _]].
  destruct (H eq_refl) as [_ [_ Haccount]].
  apply (Haccount "ACCOUNT:").
  exists ["NAME:Inbox"], []. repeat split. constructor.
Defined.

(** *** Required fields with an empty value *)

(** C10.  A message block whose last [ID] line, or whose last [SUBJECT] line,
    carries the empty value yields nothing: the test of the required fields
    of a message is the truthiness of the strings.  A mailbox block whose
    name is present and whose last [ACCOUNT] line carries the empty value is
    kept, with the account [""]: there the test is that the field is not
    [undefined]. *)
Theorem message_with_empty_required_value_dropped
  (output block line : string) :
  Parser.parseEmailMessages output
  = flat_map Parser.parseMessageBlock (Parser.messageBlocks output)
  /\ (Lines.isLast "ID" (Parser.blockLines "MESSAGE_END" block) line
      \/ Lines.isLast "SUBJECT" (Parser.blockLines "MESSAGE_END" block) line ->
      Parser.lineValue line = "" ->
      Parser.parseMessageBlock block = [])
  /\ (JS.includes "MAILBOX_END" block = true ->
      Lines.present "NAME" (Parser.blockLines "MAILBOX_END" block) ->
      Lines.isLast "ACCOUNT" (Parser.blockLines "MAILBOX_END" block) line ->
      Parser.lineValue line = "" ->
      Parser.parseMailboxBlock block
      = [Parser.mailboxOfLines (Parser.blockLines "MAILBOX_END" block)]
      /\ Mailbox.account
           (Parser.mailboxOfLines (Parser.blockLines "MAILBOX_END" block))
         = Some "")
  /\ Parser.parseEmailMessages "MESSAGE_START
ID:
SUBJECT:Hi
MESSAGE_END
" = []
  /\ Parser.parseEmailMessages "MESSAGE_START
ID:1
SUBJECT:
MESSAGE_END
" = [].
Proof.
  split; [apply parseEmailMessages_flat_map|].
  split; [|split; [|split; reflexivity]].
  - intros Hlast Hempty. apply parseMessageBlock_incomplete.
    intros [[l1 [H1 N1]] [l2 [H2 N2]]].
    destruct Hlast as [H|H];
      apply lastValue_isLast in H; rewrite Hempty in H.
    + apply lastValue_isLast in H1. congruence.
    + apply lastValue_isLast in H2. congruence.
  - intros Hend Hname Hlast Hempty.
    assert (Haccount :
      Mailbox.account
        (Parser.mailboxOfLines (Parser.blockLines "MAILBOX_END" block))
      = Some "").
    { rewrite account_mailboxOfLines.
      rewrite (lastValue_isLast _ _ _ Hlast). now rewrite Hempty. }
    split; [|exact Haccount].
    rewrite (parseMailboxBlock_cases block Hend).
    replace (Parser.mailboxComplete _) with true; [reflexivity|].
    symmetry. apply mailboxComplete_lines. split; [exact Hname|].
    destruct Hlast as [pre [post [E [Hk _]]]].
    exists line. split; [rewrite E; apply in_elt | now apply hasKey_lineKey].
Qed.

(** The block with the lines [ID:] and [SUBJECT:Hi]. *)
Lemma message_with_empty_required_value_dropped_witness :
  Lines.isLast "ID" (Parser.blockLines "MESSAGE_END" "ID:
SUBJECT:Hi
MESSAGE_END
") "ID:"
  /\ Parser.lineValue "ID:" = ""
  /\ Parser.parseMessageBlock "ID:
SUBJECT:Hi
MESSAGE_END
" = [].
Proof.
  assert (H : Lines.isLast "ID" (Parser.blockLines "MESSAGE_END" "ID:
SUBJECT:Hi
MESSAGE_END
") "ID:").
  { exists [], ["SUBJECT:Hi"]. repeat split. repeat constructor. }
  split; [exact H|]. split; [reflexivity|].
  destruct (message_with_empty_required_value_dropped "" "ID:
SUBJECT:Hi
MESSAGE_END
" "ID:") as [_ [Hdrop _]].
  exact (Hdrop (or_introl H) eq_refl).
Defined.

End ParserProperties.

(** ** Properties of the script builder *)

Module ScriptProperties.

Import Script.

Lemma truthyOpt_notGiven (o : option string) :
  notGiven o -> JS.truthyOpt o = false.
Proof. intros [->| ->]; reflexivity. Qed.

Lemma truthyOpt_given (v : string) : v <> "" -> JS.truthyOpt (Some v) = true.
Proof.
  intros N. cbn [JS.truthyOpt]. unfold JS.truthy.
  now destruct (String.eqb_spec v "").
Qed.

(** C2.  The script of [searchEmails] is its header, then the choice of the
    source, then a tail that does not depend on the mailbox and account
    parameters.  The source is chosen in this order: with a mailbox and an
    account, the named mailbox of the named account; with a mailbox only, the
    named mailbox; with an account only, every message of the named account;
    with neither, the inbox.  (A parameter is given when it is a string that
    is not empty.) *)
Theorem search_source_precedence (params : SearchParams) (mb acc : string) :
  searchScript params
  = searchHeader
    ++ searchSource (mailbox params) (account params)
    ++ searchTail params
  /\ (forall m a, searchTail (withSource m a params) = searchTail params)
  /\ (mb <> "" -> acc <> "" ->
      searchSource (Some mb) (Some acc)
      = tpl "set targetMailbox to mailbox `" ++ mb
        ++ tpl "` of account `" ++ acc ++ tpl "`
set allMessages to every message of targetMailbox
")
  /\ (mb <> "" -> forall a, notGiven a ->
      searchSource (Some mb) a
      = tpl "set targetMailbox to mailbox `" ++ mb ++ tpl "`
set allMessages to every message of targetMailbox
")
  /\ (acc <> "" -> forall m, notGiven m ->
      searchSource m (Some acc)
      = tpl "set allMessages to every message of account `" ++ acc ++ tpl "`
")
  /\ (forall m a, notGiven m -> notGiven a ->
      searchSource m a
      = tpl "set targetMailbox to inbox
set allMessages to every message of targetMailbox
").
Proof.
  split; [reflexivity|]. split; [reflexivity|].
  split; [|split; [|split]].
  - intros Hm Ha. unfold searchSource.
    rewrite (truthyOpt_given mb Hm), (truthyOpt_given acc Ha).
    reflexivity.
  - intros Hm a Ha. unfold searchSource.
    rewrite (truthyOpt_given mb Hm), (truthyOpt_notGiven a Ha).
    reflexivity.
  - intros Ha m Hm. unfold searchSource.
    rewrite (truthyOpt_given acc Ha), (truthyOpt_notGiven m Hm).
    reflexivity.
  - intros m a Hm Ha. unfold searchSource.
    rewrite (truthyOpt_notGiven m Hm), (truthyOpt_notGiven a Ha).
    reflexivity.
Qed.

(** The mailbox INBOX of the account iCloud. *)
Lemma search_source_precedence_witness :
  "INBOX" <> "" /\ "iCloud" <> ""
  /\ searchSource (Some "INBOX") (Some "iCloud")
     = tpl "set targetMailbox to mailbox `INBOX` of account `iCloud`
set allMessages to every message of targetMailbox
".
Proof.
  assert (H1 : "INBOX" <> "") by discriminate.
  assert (H2 : "iCloud" <> "") by discriminate.
  split; [exact H1|]. split; [exact H2|].
  destruct (search_source_precedence
              (Build_SearchParams None None None None None None None None None)
              "INBOX" "iCloud") as [_ [_ [H _]]].
  exact (H H1 H2).
Defined.

End ScriptProperties.

(** ** Properties of the operation facade *)

Module MailProperties.

Import Effect.

Section WithEnv.

Context {W : Type} (env : Env W).

(** The process invoker throws [Error] objects only. *)
Lemma executeAppleScriptFile_throws (script : string) (s s' : State W)
  (e : thrown) :
  AppleScript.executeAppleScriptFile env script s = (Threw e, s') ->
  exists message, e = Error message.
Proof.
  unfold AppleScript.executeAppleScriptFile.
  destruct (spawnOsascript env script (world s))
    as [[message|message|code out err] w].
  - intros H. injection H as <- _. eauto.
  - intros H. injection H as <- _. eauto.
  - destruct code as [[| |]|]; try (intros H; injection H as <- _; eauto).
    unfold bind, consoleError, ret.
    destruct (JS.truthy err); discriminate.
Qed.

(** With exit code 0 it returns the trimmed output. *)
Lemma executeAppleScriptFile_closes (script : string) (s : State W)
  (stdout stderr : string) (w : W) :
  spawnOsascript env script (world s)
  = (CloseEvent (Some 0%Z) stdout stderr, w) ->
  exists s',
    AppleScript.executeAppleScriptFile env script s
    = (Returned (JS.trim stdout), s')
    /\ world s' = w.
Proof.
  intros H. unfold AppleScript.executeAppleScriptFile. rewrite H.
  unfold bind, consoleError, ret.
  destruct (JS.truthy stderr); eexists; split; reflexivity.
Qed.

Lemma bind_guard {A : Type} (k : M W A) (s s1 : State W) :
  AppleScript.ensureMailRunning env s = (Returned tt, s1) ->
  bind (AppleScript.ensureMailRunning env) (fun _ => k) s = k s1.
Proof. intros H. unfold bind. now rewrite H. Qed.

Lemma bind_guard_throws {A : Type} (k : M W A) (s s1 : State W) (e : thrown) :
  AppleScript.ensureMailRunning env s = (Threw e, s1) ->
  bind (AppleScript.ensureMailRunning env) (fun _ => k) s = (Threw e, s1).
Proof. intros H. unfold bind. now rewrite H. Qed.

End WithEnv.

(** C4.  Once the availability guard has returned: when the invocation of
    the script of [getEmailById] returns the sentinel [NOT_FOUND], that is,
    when the subprocess closes with exit code 0 and an output that is
    [NOT_FOUND] up to the surrounding white space, [getEmailById] returns
    [null] and does not throw, for every identifier and every mailbox and
    account hint. *)
Theorem getEmailById_not_found {W : Type} (env : Env W)
  (messageId : string) (mailbox account : option string) (s s1 : State W) :
  AppleScript.ensureMailRunning env s = (Returned tt, s1) ->
  (forall s2,
     AppleScript.executeAppleScriptFile env
       (Script.getEmailByIdScript messageId mailbox account) s1
     = (Returned "NOT_FOUND", s2) ->
     Mail.getEmailById env messageId mailbox account s = (Returned None, s2))
  /\ (forall stdout stderr w2,
        spawnOsascript env
          (Script.getEmailByIdScript messageId mailbox account) (world s1)
        = (CloseEvent (Some 0%Z) stdout stderr, w2) ->
        JS.trim stdout = "NOT_FOUND" ->
        exists s2,
          Mail.getEmailById env messageId mailbox account s
          = (Returned None, s2)
          /\ world s2 = w2).
Proof.
  intros Hguard.
  assert (Hresult : forall s2,
     AppleScript.executeAppleScriptFile env
       (Script.getEmailByIdScript messageId mailbox account) s1
     = (Returned "NOT_FOUND", s2) ->
     Mail.getEmailById env messageId mailbox account s = (Returned None, s2)).
  { intros s2 H. unfold Mail.getEmailById.
    rewrite (bind_guard env _ s s1 Hguard). unfold bind. rewrite H.
    reflexivity. }
  split; [exact Hresult|].
  intros stdout stderr w2 Hspawn Hout.
  destruct (executeAppleScriptFile_closes env _ _ _ _ _ Hspawn)
    as [s2 [Hexec Hw]].
  rewrite Hout in Hexec. exists s2. split; [now apply Hresult | exact Hw].
Qed.

(** Mail is running and the subprocess prints the sentinel. *)
Lemma getEmailById_not_found_witness :
  Mail.getEmailById
    (World.answering (CloseEvent (Some 0%Z) ("NOT_FOUND" ++ JS.LF) ""))
    "42" (Some "INBOX") None (World.start tt)
  = (Returned None, World.start tt).
Proof.
  apply (proj1 (getEmailById_not_found
                  (World.answering
                     (CloseEvent (Some 0%Z) ("NOT_FOUND" ++ JS.LF) ""))
                  "42" (Some "INBOX") None (World.start tt) (World.start tt)
                  eq_refl)).
  reflexivity.
Defined.

(** C5, as stated, fails: where no [osascript] command can be run, the
    subprocess invocation that the availability guard makes inside
    [sendEmail] throws, and [sendEmail] throws to its caller instead of
    returning a structured result. *)
Lemma sendEmail_throws_when_guard_throws :
  Mail.sendEmail World.unavailable
    {| Script.draftSubject := "Hello";
       Script.to := ["a@b.com"];
       Script.cc := None;
       Script.bcc := None;
       Script.draftContent := "Hi there";
       Script.draftAccount := None |}
    (World.start tt)
  = (Threw (Error "AppleScript execution failed: Command failed: osascript"),
     World.start tt).
Proof. reflexivity. Qed.

(** C5, amended.  Once the availability guard has returned: when the
    invocation of the send script throws, the thrown value is an [Error] and
    [sendEmail] returns the result with [success] false and the message of
    the error, and does not throw; when the invocation returns an identifier,
    [sendEmail] returns the result with [success] true and that identifier.
    A failure of the guard, which runs before the [try], is thrown to the
    caller. *)
Theorem sendEmail_structured_result {W : Type} (env : Env W)
  (draft : Script.DraftEmail) (s s1 : State W) :
  (AppleScript.ensureMailRunning env s = (Returned tt, s1) ->
   (forall e s2,
      AppleScript.executeAppleScriptFile env (Script.sendEmailScript draft) s1
      = (Threw e, s2) ->
      exists message,
        e = Error message
        /\ Mail.sendEmail env draft s
           = (Returned {| Mail.success := false;
                          Mail.messageId := None;
                          Mail.error := Some message |}, s2))
   /\ (forall messageId s2,
         AppleScript.executeAppleScriptFile env
           (Script.sendEmailScript draft) s1
         = (Returned messageId, s2) ->
         Mail.sendEmail env draft s
         = (Returned {| Mail.success := true;
                        Mail.messageId := Some messageId;
                        Mail.error := None |}, s2)))
  /\ (forall e,
        AppleScript.ensureMailRunning env s = (Threw e, s1) ->
        Mail.sendEmail env draft s = (Threw e, s1)).
Proof.
  split.
  - intros Hguard. split.
    + intros e s2 H.
      destruct (executeAppleScriptFile_throws env _ _ _ _ H) as [message ->].
      exists message. split; [reflexivity|].
      unfold Mail.sendEmail. rewrite (bind_guard env _ s s1 Hguard).
      unfold tryCatch, bind. rewrite H. reflexivity.
    + intros messageId s2 H.
      unfold Mail.sendEmail. rewrite (bind_guard env _ s s1 Hguard).
      unfold tryCatch, bind. rewrite H. reflexivity.
  - intros e Hguard. unfold Mail.sendEmail.
    now rewrite (bind_guard_throws env _ s s1 e Hguard).
Qed.

(** Mail is running and the subprocess exits with code 1. *)
Lemma sendEmail_structured_result_witness :
  Mail.sendEmail
    (World.answering (CloseEvent (Some 1%Z) "" "execution error"))
    {| Script.draftSubject := "Hello";
       Script.to := ["a@b.com"];
       Script.cc := None;
       Script.bcc := None;
       Script.draftContent := "Hi there";
       Script.draftAccount := None |}
    (World.start tt)
  = (Returned
       {| Mail.success := false;
          Mail.messageId := None;
          Mail.error :=
            Some "AppleScript execution failed with code 1: execution error" |},
     World.start tt).
Proof.
  destruct (proj1 (proj1 (sendEmail_structured_result
                     (World.answering
                        (CloseEvent (Some 1%Z) "" "execution error"))
                     {| Script.draftSubject := "Hello";
                        Script.to := ["a@b.com"];
                        Script.cc := None;
                        Script.bcc := None;
                        Script.draftContent := "Hi there";
                        Script.draftAccount := None |}
                     (World.start tt) (World.start tt)) eq_refl)
              _ _ eq_refl) as [message [E H]].
  injection E as <-. exact H.
Defined.

(** C6, as stated, fails: where no [osascript] command can be run, the
    availability guard throws inside [moveEmail] and inside [setReadStatus],
    and both throw to their caller instead of returning [false]. *)
Lemma boolean_operations_throw_when_guard_throws :
  Mail.moveEmail World.unavailable "42" "Archive" None (World.start tt)
  = (Threw (Error "AppleScript execution failed: Command failed: osascript"),
     World.start tt)
  /\ Mail.setReadStatus World.unavailable "42" true (World.start tt)
     = (Threw (Error "AppleScript execution failed: Command failed: osascript"),
        World.start tt).
Proof. split; reflexivity. Qed.

(** C6, amended.  Once the availability guard has returned, [moveEmail] and
    [setReadStatus] return [false] when the execution of their script throws,
    whatever is thrown, and [true] when it returns; they do not throw.  A
    failure of the guard, which runs before the [try], is thrown to the
    caller. *)
Theorem boolean_operations_collapse_failures {W : Type} (env : Env W)
  (messageId targetMailbox : string) (targetAccount : option string)
  (read : bool) (s s1 : State W) :
  (AppleScript.ensureMailRunning env s = (Returned tt, s1) ->
   (forall e s2,
      AppleScript.executeAppleScriptFile env
        (Script.moveEmailScript messageId targetMailbox targetAccount) s1
      = (Threw e, s2) ->
      Mail.moveEmail env messageId targetMailbox targetAccount s
      = (Returned false, s2))
   /\ (forall result s2,
         AppleScript.executeAppleScriptFile env
           (Script.moveEmailScript messageId targetMailbox targetAccount) s1
         = (Returned result, s2) ->
         Mail.moveEmail env messageId targetMailbox targetAccount s
         = (Returned true, s2))
   /\ (forall e s2,
         AppleScript.executeAppleScriptFile env
           (Script.setReadStatusScript messageId read) s1
         = (Threw e, s2) ->
         Mail.setReadStatus env messageId read s = (Returned false, s2))
   /\ (forall result s2,
         AppleScript.executeAppleScriptFile env
           (Script.setReadStatusScript messageId read) s1
         = (Returned result, s2) ->
         Mail.setReadStatus env messageId read s = (Returned true, s2)))
  /\ (forall e,
        AppleScript.ensureMailRunning env s = (Threw e, s1) ->
        Mail.moveEmail env messageId targetMailbox targetAccount s
        = (Threw e, s1)
        /\ Mail.setReadStatus env messageId read s = (Threw e, s1)).
Proof.
  split.
  - intros Hguard. repeat split; intros x s2 H.
    + unfold Mail.moveEmail. rewrite (bind_guard env _ s s1 Hguard).
      unfold tryCatch, bind. rewrite H. reflexivity.
    + unfold Mail.moveEmail. rewrite (bind_guard env _ s s1 Hguard).
      unfold tryCatch, bind. rewrite H. reflexivity.
    + unfold Mail.setReadStatus. rewrite (bind_guard env _ s s1 Hguard).
      unfold tryCatch, bind. rewrite H. reflexivity.
    + unfold Mail.setReadStatus. rewrite (bind_guard env _ s s1 Hguard).
      unfold tryCatch, bind. rewrite H. reflexivity.
  - intros e Hguard. split.
    + unfold Mail.moveEmail.
      now rewrite (bind_guard_throws env _ s s1 e Hguard).
    + unfold Mail.setReadStatus.
      now rewrite (bind_guard_throws env _ s s1 e Hguard).
Qed.

(** Mail is running and the subprocess cannot be spawned. *)
Lemma boolean_operations_collapse_failures_witness :
  Mail.moveEmail (World.answering (ErrorEvent "spawn osascript EAGAIN"))
    "42" "Archive" (Some "iCloud") (World.start tt)
  = (Returned false, World.start tt).
Proof.
  apply (proj1 (proj1 (boolean_operations_collapse_failures
                  (World.answering (ErrorEvent "spawn osascript EAGAIN"))
                  "42" "Archive" (Some "iCloud") true
                  (World.start tt) (World.start tt)) eq_refl)
           (Error "AppleScript execution failed: spawn osascript EAGAIN")).
  reflexivity.
Defined.

(** *** The script of [setReadStatus] in the mail application *)

Lemma split_lines_last (lines : list string) (last : string) :
  Forall (fun l => JS.includes JS.LF l = false) lines ->
  JS.includes JS.LF last = false ->
  JS.split JS.LF (Wire.renderLines lines ++ last) = (lines ++ [last])%list.
Proof.
  intros H Hlast. rewrite StringFacts.split_nonempty_sep by discriminate.
  induction H as [|l lines Hl _ IH].
  - cbn [Wire.renderLines append app].
    apply StringFacts.splitFrom_last; [discriminate|].
    now apply StringFacts.noMatch_char.
  - cbn [Wire.renderLines app]. rewrite !StringFacts.append_assoc.
    rewrite StringFacts.splitFrom_piece.
    + now rewrite IH.
    + discriminate.
    + now apply StringFacts.noMatch_char.
Qed.

Lemma includes_LF_prefix (c : ascii) (s : string) :
  Ascii.eqb "010" c = false ->
  JS.includes JS.LF s = false ->
  JS.includes JS.LF (String c s) = false.
Proof.
  intros Hc Hs. cbn [JS.includes JS.LF JS.startsWith]. now rewrite Hc, Hs.
Qed.

(** The lines of the script. *)
Lemma setReadStatusScript_lines (messageId : string) (read : bool) :
  JS.includes JS.LF messageId = false ->
  JS.split JS.LF (Script.setReadStatusScript messageId read)
  = [ "";
      Script.tpl "tell application `Mail`";
      "  set theMessage to first message whose id is " ++ messageId;
      "  set read status of theMessage to " ++ JS.showBool read;
      Script.tpl "  return `SUCCESS`";
      "end tell";
      "  " ].
Proof.
  intros Hid.
  replace (Script.setReadStatusScript messageId read)
    with (Wire.renderLines
            [ "";
              Script.tpl "tell application `Mail`";
              "  set theMessage to first message whose id is " ++ messageId;
              "  set read status of theMessage to " ++ JS.showBool read;
              Script.tpl "  return `SUCCESS`";
              "end tell" ] ++ "  ")
    by (destruct read; cbn [Wire.renderLines];
        rewrite !StringFacts.append_assoc; reflexivity).
  apply split_lines_last; [|reflexivity].
  repeat constructor; try reflexivity.
  - cbn [append]. repeat (apply includes_LF_prefix; [reflexivity|]).
    exact Hid.
  - destruct read; reflexivity.
Qed.

(** What the mail application does with it. *)
Lemma osascript_setReadStatusScript (messages : MailApp.Messages)
  (messageId : string) (read : bool) :
  JS.includes JS.LF messageId = false ->
  MailApp.readStatus messages messageId <> None ->
  MailApp.osascript (Script.setReadStatusScript messageId read) messages
  = (CloseEvent (Some 0%Z) ("SUCCESS" ++ JS.LF) "",
     MailApp.setRead messageId read messages).
Proof.
  intros Hid Hexists. unfold MailApp.osascript.
  rewrite (setReadStatusScript_lines messageId read Hid).
  cbn [map].
  change (MailApp.statementOf "") with MailApp.Blank.
  change (MailApp.statementOf (Script.tpl "tell application `Mail`"))
    with MailApp.TellMail.
  change (MailApp.statementOf
            ("  set theMessage to first message whose id is " ++ messageId))
    with (MailApp.FirstMessage messageId).
  replace (MailApp.statementOf
             ("  set read status of theMessage to " ++ JS.showBool read))
    with (MailApp.SetReadStatus read) by (destruct read; reflexivity).
  change (MailApp.statementOf (Script.tpl "  return `SUCCESS`"))
    with (MailApp.Return "SUCCESS").
  change (MailApp.statementOf "end tell") with MailApp.EndTell.
  change (MailApp.statementOf "  ") with MailApp.Blank.
  cbn [existsb MailApp.isUnknown orb MailApp.run].
  destruct (MailApp.readStatus messages messageId); [reflexivity|].
  now contradiction Hexists.
Qed.

Lemma readStatus_setRead (messages : MailApp.Messages) (id : string)
  (read : bool) :
  MailApp.readStatus messages id <> None ->
  MailApp.readStatus (MailApp.setRead id read messages) id = Some read.
Proof.
  induction messages as [|[i r] rest IH]; intros H; [now contradiction H|].
  cbn [MailApp.readStatus MailApp.setRead] in *.
  destruct (i =? id) eqn:E; cbn [MailApp.readStatus]; rewrite E;
    [reflexivity | now apply IH].
Qed.

Lemma readStatus_setRead_other (messages : MailApp.Messages)
  (id other : string) (read : bool) :
  other <> id ->
  MailApp.readStatus (MailApp.setRead id read messages) other
  = MailApp.readStatus messages other.
Proof.
  intros N. induction messages as [|[i r] rest IH]; [reflexivity|].
  cbn [MailApp.setRead].
  destruct (String.eqb_spec i id) as [->|Hi]; cbn [MailApp.readStatus].
  - destruct (String.eqb_spec id other); [congruence | reflexivity].
  - now rewrite IH.
Qed.

Lemma setRead_twice (messages : MailApp.Messages) (id : string)
  (read : bool) :
  MailApp.setRead id read (MailApp.setRead id read messages)
  = MailApp.setRead id read messages.
Proof.
  induction messages as [|[i r] rest IH]; [reflexivity|].
  cbn [MailApp.setRead].
  destruct (i =? id) eqn:E; cbn [MailApp.setRead]; rewrite E;
    [reflexivity | now rewrite IH].
Qed.

(** One invocation, in the world of the mail application. *)
Lemma setReadStatus_call (messages : MailApp.Messages) (log : list string)
  (messageId : string) (read : bool) :
  JS.includes JS.LF messageId = false ->
  MailApp.readStatus messages messageId <> None ->
  Mail.setReadStatus MailApp.env messageId read
    {| world := messages; console := log |}
  = (Returned true,
     {| world := MailApp.setRead messageId read messages; console := log |}).
Proof.
  intros Hid Hexists. unfold Mail.setReadStatus.
  rewrite (bind_guard MailApp.env _ {| world := messages; console := log |}
             {| world := messages; console := log |} eq_refl).
  unfold tryCatch, bind, AppleScript.executeAppleScriptFile.
  cbn [spawnOsascript MailApp.env world].
  rewrite (osascript_setReadStatusScript messages messageId read Hid Hexists).
  reflexivity.
Qed.



End MailProperties.

(** ** [trim] on the output of a script *)

Module TrimFacts.

Import StringFacts.

Lemma revOnto_acc (s acc : string) : JS.revOnto s acc = JS.rev s ++ acc.
Proof.
  unfold JS.rev. revert acc. induction s as [|c s IH]; intros acc.
  - reflexivity.
  - cbn [JS.revOnto]. rewrite (IH (String c acc)), (IH (String c "")).
    now rewrite append_assoc.
Qed.

Lemma rev_cons (c : ascii) (s : string) :
  JS.rev (String c s) = JS.rev s ++ String c "".
Proof. unfold JS.rev at 1. cbn [JS.revOnto]. apply revOnto_acc. Qed.

Lemma rev_append (a b : string) : JS.rev (a ++ b) = JS.rev b ++ JS.rev a.
Proof.
  induction a as [|c a IH].
  - cbn [append]. now rewrite append_empty_r.
  - cbn [append]. rewrite !rev_cons, IH. now rewrite append_assoc.
Qed.

Lemma rev_rev (s : string) : JS.rev (JS.rev s) = s.
Proof.
  induction s as [|c s IH]; [reflexivity|].
  rewrite rev_cons, rev_append, IH. reflexivity.
Qed.

Lemma lineFeeds_LF (n : nat) :
  Wire.lineFeeds n ++ JS.LF = JS.LF ++ Wire.lineFeeds n.
Proof.
  induction n as [|n IH]; [reflexivity|].
  cbn [Wire.lineFeeds]. rewrite append_assoc, IH. reflexivity.
Qed.

Lemma rev_lineFeeds (n : nat) : JS.rev (Wire.lineFeeds n) = Wire.lineFeeds n.
Proof.
  induction n as [|n IH]; [reflexivity|].
  cbn [Wire.lineFeeds]. rewrite rev_append, IH. apply lineFeeds_LF.
Qed.

Lemma dropWhile_none (tokens : list string) (s : string) :
  JS.leading tokens s = 0 -> JS.dropWhile tokens 0 s = s.
Proof. intros H. destruct s; [reflexivity|]. cbn [JS.dropWhile]. now rewrite H. Qed.

Lemma leading_LF (rest : string) :
  JS.leading JS.whiteSpace (String "010" rest) = 1.
Proof. reflexivity. Qed.

Lemma leading_rev_LF (rest : string) :
  JS.leading (map JS.rev JS.whiteSpace) (String "010" rest) = 1.
Proof. reflexivity. Qed.

Lemma dropWhile_lineFeeds (n : nat) (s : string) :
  JS.dropWhile JS.whiteSpace 0 (Wire.lineFeeds n ++ s)
  = JS.dropWhile JS.whiteSpace 0 s.
Proof.
  induction n as [|n IH]; [reflexivity|].
  cbn [Wire.lineFeeds]. unfold JS.LF. cbn [append JS.dropWhile].
  rewrite leading_LF. exact IH.
Qed.

Lemma dropWhile_rev_lineFeeds (n : nat) (s : string) :
  JS.dropWhile (map JS.rev JS.whiteSpace) 0 (Wire.lineFeeds n ++ s)
  = JS.dropWhile (map JS.rev JS.whiteSpace) 0 s.
Proof.
  induction n as [|n IH]; [reflexivity|].
  cbn [Wire.lineFeeds]. unfold JS.LF. cbn [append JS.dropWhile].
  rewrite leading_rev_LF. exact IH.
Qed.

(** Line feeds alone trim to nothing. *)
Lemma trim_lineFeeds (n : nat) : JS.trim (Wire.lineFeeds n) = "".
Proof.
  unfold JS.trim, JS.trimStart.
  rewrite <- (append_empty_r (Wire.lineFeeds n)), dropWhile_lineFeeds.
  reflexivity.
Qed.

(** A text that neither starts nor ends with white space, followed by line
    feeds, trims to the text. *)
Lemma trim_text (t : string) (n : nat) :
  (forall rest, JS.leading JS.whiteSpace (t ++ rest) = 0) ->
  (forall rest, JS.leading (map JS.rev JS.whiteSpace) (JS.rev t ++ rest) = 0) ->
  JS.trim (t ++ Wire.lineFeeds n) = t.
Proof.
  intros Hstart Hend. unfold JS.trim, JS.trimStart, JS.trimEnd.
  rewrite (dropWhile_none _ _ (Hstart _)).
  rewrite rev_append, rev_lineFeeds, dropWhile_rev_lineFeeds.
  rewrite dropWhile_none.
  - apply rev_rev.
  - rewrite <- (append_empty_r (JS.rev t)). apply Hend.
Qed.

End TrimFacts.

(** ** More on blocks: what follows the end marker, and texts cut short *)

Module BlockFacts.

Import Text StringFacts.

Lemma exists_last_or_nil {A : Type} (l : list A) :
  l = [] \/ exists init x, l = (init ++ [x])%list.
Proof.
  destruct l as [|a l]; [now left|]. right.
  destruct (exists_last (l := a :: l)) as [init [x E]]; [discriminate|].
  eauto.
Qed.

Lemma includes_grow (pat : string) (c : ascii) (s : string) :
  JS.includes pat s = true -> JS.includes pat (String c s) = true.
Proof.
  intros H. cbn [JS.includes]. rewrite H.
  now destruct (JS.startsWith pat (String c s)).
Qed.

Lemma startsWith_sep_includes_LF (tok l : string) :
  JS.startsWith (tok ++ JS.LF) l = true -> JS.includes JS.LF l = true.
Proof.
  revert l. induction tok as [|a tok IH]; intros l H.
  - now apply includes_here.
  - destruct l as [|b l]; [discriminate|].
    cbn [append JS.startsWith] in H. apply andb_true_iff in H.
    apply includes_grow, IH, H.
Qed.

(** A marker line matches nowhere in a text that holds no line feed and is
    followed by nothing. *)
Lemma noMatch_sep_one_line (tok l : string) :
  JS.includes JS.LF l = false -> noMatch (tok ++ JS.LF) l "".
Proof.
  induction l as [|c l IH]; intros H; [exact I|].
  split.
  - rewrite append_empty_r.
    destruct (JS.startsWith (tok ++ JS.LF) (String c l)) eqn:E; [|reflexivity].
    apply startsWith_sep_includes_LF in E. congruence.
  - apply IH. now apply includes_LF_cons in H.
Qed.

Section Shape.

Variables (Rec : Type) (START END : string) (initial : Rec).
Variable field : string -> string -> Rec -> Rec.
Variable complete : Rec -> bool.

Hypothesis START_one_line : JS.includes JS.LF START = false.
Hypothesis END_one_line : JS.includes JS.LF END = false.
Hypothesis END_not_START : JS.includes START END = false.
Hypothesis END_not_empty : END <> "".

Notation parse := (Generic.parse Rec START END initial field complete).
Notation parseBlock := (Generic.parseBlock Rec END initial field complete).
Notation records := (Wire.records Rec initial field complete).
Notation wellFormed := (Wire.wellFormed START END).
Notation fieldsOf := (Wire.fieldsOf START END).

(** The lines of a block are those before the first end marker, whatever
    follows it. *)
Lemma blockLines_rest (fields : list (string * string)) (rest : string) :
  fieldsOf fields ->
  Parser.blockLines END
    (Wire.renderLines (map Wire.fieldLine fields) ++ END ++ rest)
  = map Wire.fieldLine fields.
Proof.
  intros H. unfold Parser.blockLines.
  rewrite indexOf_noMatch
    by (apply noMatch_lines_tok;
        [exact END_one_line
        | now apply (GenericFacts.wellFormed_lines_END START END)]).
  rewrite substring_head.
  rewrite split_renderLines
    by now apply (GenericFacts.wellFormed_lines_LF START END).
  apply filterBoolean_lines. apply Forall_map, Forall_forall.
  intros kv _. apply fieldLine_not_empty.
Qed.

Lemma parseBlock_rest (fields : list (string * string)) (rest : string) :
  fieldsOf fields ->
  parseBlock (Wire.renderLines (map Wire.fieldLine fields) ++ END ++ rest)
  = records (Wire.Block fields).
Proof.
  intros H. unfold Generic.parseBlock.
  rewrite blockLines_rest by exact H.
  rewrite includes_append. cbn [negb].
  unfold Generic.ofLines.
  rewrite (GenericFacts.ofLines_fields Rec START END field) by exact H.
  reflexivity.
Qed.

(** The pieces of a text that is some text [x], then rendered items, then a
    start marker line and a last piece [y]. *)
Lemma splitFrom_render_last (x y : string) (items : list Wire.item) :
  (forall rest, noMatch (START ++ JS.LF) x rest) ->
  Forall wellFormed items ->
  noMatch (START ++ JS.LF) y "" ->
  JS.splitFrom (START ++ JS.LF) 0
    (x ++ Wire.render START END items ++ (START ++ JS.LF) ++ y)
  = (x :: map (Wire.body END) items ++ [y])%list.
Proof.
  intros Hx H Hy. revert x Hx.
  induction H as [|it items Hit _ IH]; intros x Hx.
  - cbn [Wire.render map app]. cbn [append].
    rewrite splitFrom_piece; [|destruct START; discriminate | apply Hx].
    f_equal. apply splitFrom_last; [destruct START; discriminate | exact Hy].
  - cbn [Wire.render map app].
    replace (x ++ (START ++ JS.LF ++ Wire.body END it
                   ++ Wire.render START END items)
             ++ (START ++ JS.LF) ++ y)
      with (x ++ (START ++ JS.LF)
            ++ (Wire.body END it ++ Wire.render START END items
                ++ (START ++ JS.LF) ++ y))
      by (now rewrite !append_assoc).
    rewrite splitFrom_piece; [|destruct START; discriminate | apply Hx].
    f_equal. apply IH. intros rest.
    now apply (GenericFacts.body_noMatch START END).
Qed.

Lemma flat_map_parseBlock_bodies (items : list Wire.item) :
  Forall wellFormed items ->
  flat_map parseBlock (map (Wire.body END) items) = flat_map records items.
Proof.
  intros H. induction H as [|it items Hit _ IH]; [reflexivity|].
  cbn [map flat_map]. rewrite IH.
  now rewrite (GenericFacts.parseBlock_body Rec START END initial field
                 complete END_one_line END_not_empty it Hit).
Qed.

Lemma parseBlock_nothing : parseBlock "" = [].
Proof.
  exact (GenericFacts.parseBlock_empty Rec START END initial field complete
           END_one_line END_not_START END_not_empty).
Qed.

(** A text that starts with the lines of a block and its end marker, with no
    start marker before them, then goes on with rendered items. *)
Lemma parse_leading_block (fields : list (string * string))
  (items : list Wire.item) :
  fieldsOf fields ->
  Forall wellFormed items ->
  parse (Wire.body END (Wire.Block fields) ++ Wire.render START END items)
  = (records (Wire.Block fields) ++ flat_map records items)%list.
Proof.
  intros Hf H.
  rewrite (GenericFacts.parse_flat_map Rec START END). unfold Generic.blocks.
  rewrite split_nonempty_sep by (destruct START; discriminate).
  rewrite (GenericFacts.splitFrom_render START END START_one_line
             END_one_line END_not_START _ items
             (fun rest => GenericFacts.body_noMatch START END START_one_line
                            END_one_line END_not_START (Wire.Block fields)
                            rest Hf) H).
  rewrite GenericFacts.flat_map_filterBoolean by apply parseBlock_nothing.
  cbn [flat_map]. rewrite flat_map_parseBlock_bodies by exact H.
  now rewrite (GenericFacts.parseBlock_body Rec START END initial field
                 complete END_one_line END_not_empty (Wire.Block fields) Hf).
Qed.

(** Rendered items, then a last block that stops at its end marker, with no
    line feed after it. *)
Lemma parse_render_cut (items : list Wire.item)
  (fields : list (string * string)) :
  Forall wellFormed items ->
  fieldsOf fields ->
  parse (Wire.render START END items ++ (START ++ JS.LF)
         ++ Wire.renderLines (map Wire.fieldLine fields) ++ END)
  = (flat_map records items ++ records (Wire.Block fields))%list.
Proof.
  intros H Hf.
  rewrite (GenericFacts.parse_flat_map Rec START END). unfold Generic.blocks.
  rewrite split_nonempty_sep by (destruct START; discriminate).
  change (Wire.render START END items ++ (START ++ JS.LF)
          ++ Wire.renderLines (map Wire.fieldLine fields) ++ END)
    with ("" ++ Wire.render START END items ++ (START ++ JS.LF)
          ++ Wire.renderLines (map Wire.fieldLine fields) ++ END).
  rewrite splitFrom_render_last; [|intros; exact I | exact H |].
  - rewrite GenericFacts.flat_map_filterBoolean by apply parseBlock_nothing.
    cbn [flat_map]. rewrite parseBlock_nothing. cbn [app].
    rewrite flat_map_app.
    rewrite flat_map_parseBlock_bodies by exact H.
    cbn [flat_map]. rewrite app_nil_r. f_equal.
    replace (Wire.renderLines (map Wire.fieldLine fields) ++ END)
      with (Wire.renderLines (map Wire.fieldLine fields) ++ END ++ "")
      by (now rewrite append_empty_r).
    now apply parseBlock_rest.
  - apply noMatch_append.
    + apply noMatch_lines_sep; [exact START_one_line|].
      now apply (GenericFacts.wellFormed_lines_START START END).
    + apply noMatch_sep_one_line. exact END_one_line.
Qed.

(** *** The output of a script, trimmed by the process invoker *)

Hypothesis START_not_space :
  forall rest, JS.leading JS.whiteSpace (START ++ rest) = 0.
Hypothesis END_not_space :
  forall rest, JS.leading (map JS.rev JS.whiteSpace) (JS.rev END ++ rest) = 0.

Lemma render_snoc (items : list Wire.item) (it : Wire.item) :
  Wire.render START END (items ++ [it])
  = Wire.render START END items ++ (START ++ JS.LF) ++ Wire.body END it.
Proof.
  induction items as [|x items IH].
  - cbn [app Wire.render append]. now rewrite append_empty_r, append_assoc.
  - cbn [app Wire.render]. rewrite IH. now rewrite !append_assoc.
Qed.

Lemma render_starts (items : list Wire.item) (rest : string) :
  exists r, Wire.render START END items ++ (START ++ JS.LF) ++ rest = START ++ r.
Proof.
  destruct items as [|it items].
  - cbn [Wire.render append]. rewrite append_assoc. eauto.
  - cbn [Wire.render]. rewrite append_assoc. eauto.
Qed.

(** The text of blocks followed by line feeds trims to the text without its
    last line feed. *)
Lemma trim_render_blocks (init : list (list (string * string)))
  (fields : list (string * string)) (n : nat) :
  JS.trim (Wire.render START END (map Wire.Block (init ++ [fields]))
           ++ Wire.lineFeeds n)
  = Wire.render START END (map Wire.Block init) ++ (START ++ JS.LF)
    ++ Wire.renderLines (map Wire.fieldLine fields) ++ END.
Proof.
  rewrite map_app. cbn [map]. rewrite render_snoc. cbn [Wire.body].
  set (t := Wire.render START END (map Wire.Block init) ++ (START ++ JS.LF)
            ++ Wire.renderLines (map Wire.fieldLine fields) ++ END).
  replace ((Wire.render START END (map Wire.Block init) ++ (START ++ JS.LF)
            ++ Wire.renderLines (map Wire.fieldLine fields) ++ END ++ JS.LF)
           ++ Wire.lineFeeds n)
    with (t ++ Wire.lineFeeds (S n))
    by (unfold t; cbn [Wire.lineFeeds]; now rewrite !append_assoc).
  apply TrimFacts.trim_text.
  - intros rest. unfold t.
    destruct (render_starts (map Wire.Block init)
                (Wire.renderLines (map Wire.fieldLine fields) ++ END))
      as [r ->].
    rewrite append_assoc. apply START_not_space.
  - intros rest. unfold t.
    rewrite <- !append_assoc, TrimFacts.rev_append, append_assoc.
    apply END_not_space.
Qed.

(** It is empty or it starts with the start marker. *)
Lemma trim_render_blocks_cases (blocks : list (list (string * string)))
  (n : nat) :
  JS.trim (Wire.render START END (map Wire.Block blocks) ++ Wire.lineFeeds n)
  = ""
  \/ exists r,
       JS.trim (Wire.render START END (map Wire.Block blocks)
                ++ Wire.lineFeeds n)
       = START ++ r.
Proof.
  destruct (exists_last_or_nil blocks) as [->|[init [fields ->]]].
  - left. cbn [map Wire.render append]. apply TrimFacts.trim_lineFeeds.
  - right. rewrite trim_render_blocks. apply render_starts.
Qed.

(** The blocks that a script writes, followed by line feeds and then
    trimmed, parse to the records of the blocks, in order. *)
Lemma parse_trim_blocks (blocks : list (list (string * string))) (n : nat) :
  Forall fieldsOf blocks ->
  parse (JS.trim (Wire.render START END (map Wire.Block blocks)
                  ++ Wire.lineFeeds n))
  = flat_map records (map Wire.Block blocks).
Proof.
  intros H.
  destruct (exists_last_or_nil blocks) as [->|[init [fields ->]]].
  - cbn [map Wire.render append]. rewrite TrimFacts.trim_lineFeeds.
    rewrite (GenericFacts.parse_flat_map Rec START END).
    unfold Generic.blocks.
    rewrite split_nonempty_sep by (destruct START; discriminate).
    reflexivity.
  - apply Forall_app in H. destruct H as [Hinit Hlast].
    inversion Hlast as [|? ? Hfields _]; subst.
    assert (Hitems : Forall wellFormed (map Wire.Block init)).
    { apply Forall_map. eapply Forall_impl; [|exact Hinit]. auto. }
    rewrite trim_render_blocks.
    rewrite parse_render_cut by assumption.
    rewrite map_app, flat_map_app. cbn [map flat_map].
    now rewrite app_nil_r.
Qed.

End Shape.

End BlockFacts.

(** ** Further properties of the response parser *)

Module ParserExtras.

Import Text StringFacts LinesFacts.

Lemma parseEmailMessages_render (items : list Wire.item) :
  Forall Wire.messageItem items ->
  Parser.parseEmailMessages (Wire.messages items)
  = flat_map Wire.messageRecords items.
Proof.
  intros H. rewrite ParserFacts.parseEmailMessages_shape.
  apply GenericFacts.parse_render;
    [reflexivity | reflexivity | reflexivity | discriminate | exact H].
Qed.

Lemma parseMailboxes_render (items : list Wire.item) :
  Forall Wire.mailboxItem items ->
  Parser.parseMailboxes (Wire.mailboxes items)
  = flat_map Wire.mailboxRecords items.
Proof.
  intros H. rewrite ParserFacts.parseMailboxes_shape.
  apply GenericFacts.parse_render;
    [reflexivity | reflexivity | reflexivity | discriminate | exact H].
Qed.

Lemma parseAccounts_render (items : list Wire.item) :
  Forall Wire.accountItem items ->
  Parser.parseAccounts (Wire.accounts items)
  = flat_map Wire.accountRecords items.
Proof.
  intros H. rewrite ParserFacts.parseAccounts_shape.
  apply GenericFacts.parse_render;
    [reflexivity | reflexivity | reflexivity | discriminate | exact H].
Qed.

Lemma parseAttachments_render (items : list Wire.item) :
  Forall Wire.attachmentItem items ->
  Parser.parseAttachments (Wire.attachments items)
  = flat_map Wire.attachmentRecords items.
Proof.
  intros H. rewrite ParserFacts.parseAttachments_shape.
  apply GenericFacts.parse_render;
    [reflexivity | reflexivity | reflexivity | discriminate | exact H].
Qed.



(** Whatever follows the end marker of a block is ignored: the lines of the
    block are those before its first end marker. *)
Theorem text_after_end_marker_ignored
  (fields : list (string * string)) (rest : string) :
  (Wire.fieldsOf "MESSAGE_START" "MESSAGE_END" fields ->
   Parser.parseMessageBlock
     (Wire.renderLines (map Wire.fieldLine fields) ++ "MESSAGE_END" ++ rest)
   = Wire.messageRecords (Wire.Block fields))
  /\ (Wire.fieldsOf "MAILBOX_START" "MAILBOX_END" fields ->
      Parser.parseMailboxBlock
        (Wire.renderLines (map Wire.fieldLine fields) ++ "MAILBOX_END" ++ rest)
      = Wire.mailboxRecords (Wire.Block fields))
  /\ (Wire.fieldsOf "ACCOUNT_START" "ACCOUNT_END" fields ->
      Parser.parseAccountBlock
        (Wire.renderLines (map Wire.fieldLine fields) ++ "ACCOUNT_END" ++ rest)
      = Wire.accountRecords (Wire.Block fields))
  /\ (Wire.fieldsOf "ATTACHMENT_START" "ATTACHMENT_END" fields ->
      Parser.parseAttachmentBlock
        (Wire.renderLines (map Wire.fieldLine fields)
         ++ "ATTACHMENT_END" ++ rest)
      = Wire.attachmentRecords (Wire.Block fields)).
Proof.
  repeat split; intros H.
  - apply (BlockFacts.parseBlock_rest EmailMessage.t "MESSAGE_START"
             "MESSAGE_END" EmailMessage.empty Parser.messageField
             Parser.messageComplete eq_refl fields rest H).
  - apply (BlockFacts.parseBlock_rest Mailbox.t "MAILBOX_START"
             "MAILBOX_END" Mailbox.empty Parser.mailboxField
             Parser.mailboxComplete eq_refl fields rest H).
  - apply (BlockFacts.parseBlock_rest EmailAccount.t "ACCOUNT_START"
             "ACCOUNT_END" EmailAccount.initial Parser.accountField
             Parser.accountComplete eq_refl fields rest H).
  - apply (BlockFacts.parseBlock_rest EmailAttachment.t "ATTACHMENT_START"
             "ATTACHMENT_END" EmailAttachment.empty Parser.attachmentField
             Parser.attachmentComplete eq_refl fields rest H).
Qed.

(** A block whose end marker is followed by a second, different name. *)
Lemma text_after_end_marker_ignored_witness :
  Parser.parseAttachmentBlock "NAME:a.pdf
ATTACHMENT_END
NAME:b.pdf
ATTACHMENT_END
" = [EmailAttachment.mk (Some "a.pdf")].
Proof.
  apply (proj2 (proj2 (proj2 (text_after_end_marker_ignored
           [("NAME", "a.pdf")] "
NAME:b.pdf
ATTACHMENT_END
")))).
  repeat constructor.
Defined.

(** A first block that comes without its start marker is parsed like the
    others: the piece before the first start marker is a block as soon as it
    holds an end marker. *)
Theorem leading_block_without_start_marker_parsed
  (fields : list (string * string)) (items : list Wire.item) :
  Wire.fieldsOf "MESSAGE_START" "MESSAGE_END" fields ->
  Forall Wire.messageItem items ->
  Parser.parseEmailMessages
    (Wire.renderLines (map Wire.fieldLine fields) ++ "MESSAGE_END" ++ JS.LF
     ++ Wire.messages items)
  = (Wire.messageRecords (Wire.Block fields)
     ++ flat_map Wire.messageRecords items)%list.
Proof.
  intros Hf H. rewrite ParserFacts.parseEmailMessages_shape.
  pose proof (BlockFacts.parse_leading_block EmailMessage.t "MESSAGE_START"
                "MESSAGE_END" EmailMessage.empty Parser.messageField
                Parser.messageComplete eq_refl eq_refl eq_refl
                ltac:(discriminate) fields items Hf H) as E.
  cbn [Wire.body] in E. rewrite !append_assoc in E. exact E.
Qed.

(** The text [ID:7], [SUBJECT:Hi], end marker, with no start marker. *)
Lemma leading_block_without_start_marker_parsed_witness :
  map EmailMessage.id (Parser.parseEmailMessages "ID:7
SUBJECT:Hi
MESSAGE_END
") = [Some "7"].
Proof.
  assert (Hf : Wire.fieldsOf "MESSAGE_START" "MESSAGE_END"
                 [("ID", "7"); ("SUBJECT", "Hi")]) by (repeat constructor).
  pose proof (leading_block_without_start_marker_parsed
                [("ID", "7"); ("SUBJECT", "Hi")] [] Hf (Forall_nil _)) as E.
  change (Parser.parseEmailMessages "ID:7
SUBJECT:Hi
MESSAGE_END
" = (Wire.messageRecords (Wire.Block [("ID", "7"); ("SUBJECT", "Hi")])
     ++ [])%list) in E.
  rewrite E. reflexivity.
Defined.

(** What the search script writes for a list of messages is read back as the
    messages with every field trimmed, in order, without the rows whose
    identifier or subject is empty once trimmed; the flags are true exactly
    for the text [true]. *)
Theorem search_rows_read_back (rows : list Wire.SearchRow) :
  Forall (fun row =>
            Wire.fieldsOf "MESSAGE_START" "MESSAGE_END" (Wire.searchFields row))
    rows ->
  Parser.parseEmailMessages
    (Wire.messages (map (fun row => Wire.Block (Wire.searchFields row)) rows))
  = map Wire.searchMessage (filter Wire.rowComplete rows).
Proof.
  intros H.
  rewrite parseEmailMessages_render.
  - clear H. induction rows as [|row rows IH]; [reflexivity|].
    cbn [map flat_map filter]. rewrite IH.
    change (Wire.messageRecords (Wire.Block (Wire.searchFields row)))
      with (if Wire.rowComplete row then [Wire.searchMessage row] else []).
    now destruct (Wire.rowComplete row).
  - apply Forall_map. eapply Forall_impl; [|exact H]. auto.
Qed.

(** One row, with a date that holds colons and a padded subject. *)
Lemma search_rows_read_back_witness :
  Parser.parseEmailMessages
    (Wire.messages
       [Wire.Block
          (Wire.searchFields
             {| Wire.rowId := "1";
                Wire.rowSubject := " Hi ";
                Wire.rowSender := "a@b.com";
                Wire.rowDate := "Monday 10:30:00";
                Wire.rowRead := "true";
                Wire.rowFlagged := "false";
                Wire.rowContent := "hello" |})])
  = [EmailMessage.mk (Some "1") (Some "Hi") (Some "a@b.com") None
       (Some "Monday 10:30:00") (Some true) (Some false) None None None None
       (Some "hello")].
Proof.
  apply (search_rows_read_back
           [{| Wire.rowId := "1";
               Wire.rowSubject := " Hi ";
               Wire.rowSender := "a@b.com";
               Wire.rowDate := "Monday 10:30:00";
               Wire.rowRead := "true";
               Wire.rowFlagged := "false";
               Wire.rowContent := "hello" |}]).
  repeat constructor.
Defined.

(** The key of a line is what precedes its first colon and the value is the
    rest, trimmed, with its own colons kept; a line with no colon is a key
    with the empty value. *)
Theorem line_key_and_value (k v line : string) :
  (JS.includes ":" k = false ->
   Parser.lineKey (k ++ ":" ++ v) = Some k
   /\ Parser.lineValue (k ++ ":" ++ v) = JS.trim v)
  /\ (JS.includes ":" line = false ->
      Parser.lineKey line = Some line /\ Parser.lineValue line = "").
Proof.
  split.
  - intros Hk. split.
    + exact (lineKey_fieldLine (k, v) Hk).
    + exact (lineValue_fieldLine (k, v) Hk).
  - intros Hl. unfold Parser.lineKey, Parser.lineValue.
    rewrite split_nonempty_sep by discriminate.
    rewrite splitFrom_last; [split; reflexivity | discriminate |].
    now apply noMatch_char.
Qed.

(** The line [DATE:10:30:00]. *)
Lemma line_key_and_value_witness :
  Parser.lineKey "DATE:10:30:00" = Some "DATE"
  /\ Parser.lineValue "DATE:10:30:00" = "10:30:00".
Proof.
  exact (proj1 (line_key_and_value "DATE" "10:30:00" "") eq_refl).
Defined.

(** *** What every parsed record satisfies *)

Lemma email_accountOfLines (lines : list string) (a : EmailAccount.t) :
  EmailAccount.email (fold_left Parser.accountLine lines a)
  = EmailAccount.email a.
Proof.
  revert a. induction lines as [|l lines IH]; intros a; [reflexivity|].
  cbn [fold_left]. rewrite IH. unfold Parser.accountLine.
  destruct (Parser.lineKey l) as [key|]; [|reflexivity].
  unfold Parser.accountField.
  destruct (key =? "NAME"); [reflexivity|].
  destruct (key =? "TYPE"); reflexivity.
Qed.

Lemma parseAccounts_flat_map (output : string) :
  Parser.parseAccounts output
  = flat_map Parser.parseAccountBlock (Parser.accountBlocks output).
Proof.
  unfold Parser.parseAccounts. now rewrite GenericFacts.fold_append_flat_map.
Qed.

Lemma parseAttachments_flat_map (output : string) :
  Parser.parseAttachments output
  = flat_map Parser.parseAttachmentBlock (Parser.attachmentBlocks output).
Proof.
  unfold Parser.parseAttachments.
  now rewrite GenericFacts.fold_append_flat_map.
Qed.

(** For every input text: every mailbox returned has a name that is not empty
    and an account; every account returned has a name and a type that are not
    empty, and the empty string as its email address; every attachment
    returned has a name that is not empty. *)
Theorem parsed_records_have_required_fields (output : string) :
  (forall m, In m (Parser.parseMailboxes output) ->
     (exists v, Mailbox.name m = Some v /\ v <> "")
     /\ (exists v, Mailbox.account m = Some v))
  /\ (forall a, In a (Parser.parseAccounts output) ->
        (exists v, EmailAccount.name a = Some v /\ v <> "")
        /\ (exists v, EmailAccount.type a = Some v /\ v <> "")
        /\ EmailAccount.email a = Some "")
  /\ (forall a, In a (Parser.parseAttachments output) ->
        exists v, EmailAttachment.name a = Some v /\ v <> "").
Proof.
  split; [|split].
  - intros m Hm. rewrite ParserProperties.parseMailboxes_flat_map in Hm.
    apply in_flat_map in Hm. destruct Hm as [block [_ Hm]].
    unfold Parser.parseMailboxBlock in Hm.
    destruct (negb (JS.includes "MAILBOX_END" block)); [destruct Hm|].
    destruct (Parser.mailboxComplete _) eqn:E; [|destruct Hm].
    destruct Hm as [<-|[]]. unfold Parser.mailboxComplete in E.
    apply andb_true_iff in E. destruct E as [E1 E2].
    apply ParserProperties.truthyOpt_true in E1. split; [exact E1|].
    destruct (Mailbox.account _) as [v|]; [eauto | discriminate].
  - intros a Ha. rewrite parseAccounts_flat_map in Ha.
    apply in_flat_map in Ha. destruct Ha as [block [_ Ha]].
    unfold Parser.parseAccountBlock in Ha.
    destruct (negb (JS.includes "ACCOUNT_END" block)); [destruct Ha|].
    destruct (Parser.accountComplete _) eqn:E; [|destruct Ha].
    destruct Ha as [<-|[]]. unfold Parser.accountComplete in E.
    apply andb_true_iff in E. destruct E as [E1 E2].
    apply ParserProperties.truthyOpt_true in E1, E2.
    split; [exact E1|]. split; [exact E2|].
    unfold Parser.accountOfLines. now rewrite email_accountOfLines.
  - intros a Ha. rewrite parseAttachments_flat_map in Ha.
    apply in_flat_map in Ha. destruct Ha as [block [_ Ha]].
    unfold Parser.parseAttachmentBlock in Ha.
    destruct (negb (JS.includes "ATTACHMENT_END" block)); [destruct Ha|].
    destruct (Parser.attachmentComplete _) eqn:E; [|destruct Ha].
    destruct Ha as [<-|[]]. unfold Parser.attachmentComplete in E.
    now apply ParserProperties.truthyOpt_true in E.
Qed.

(** An account block with an [EMAIL] line: the address is not read. *)
Lemma parsed_records_have_required_fields_witness :
  In (EmailAccount.mk (Some "iCloud") (Some "") (Some "imap"))
    (Parser.parseAccounts "ACCOUNT_START
NAME:iCloud
TYPE:imap
EMAIL:me@icloud.com
ACCOUNT_END
")
  /\ EmailAccount.email (EmailAccount.mk (Some "iCloud") (Some "") (Some "imap"))
     = Some "".
Proof.
  assert (Hin : In (EmailAccount.mk (Some "iCloud") (Some "") (Some "imap"))
                  (Parser.parseAccounts "ACCOUNT_START
NAME:iCloud
TYPE:imap
EMAIL:me@icloud.com
ACCOUNT_END
")) by (vm_compute; left; reflexivity).
  split; [exact Hin|].
  exact (proj2 (proj2 (proj1 (proj2 (parsed_records_have_required_fields _))
                         _ Hin))).
Defined.

(** For every input text and every message returned: the flag
    [hasAttachments] is there exactly when the count is, and it tells whether
    the count is a number above zero (it is false for a count that is not a
    number). *)
Theorem has_attachments_follows_count (output : string) (m : EmailMessage.t) :
  In m (Parser.parseEmailMessages output) ->
  EmailMessage.hasAttachments m
  = option_map JS.gtZero (EmailMessage.attachmentCount m).
Proof.
  intros Hm. rewrite ParserProperties.parseEmailMessages_flat_map in Hm.
  apply in_flat_map in Hm. destruct Hm as [block [_ Hm]].
  apply ParserProperties.parseMessageBlock_In in Hm. subst m.
  unfold Parser.messageOfLines.
  change Parser.messageLine
    with (Generic.line EmailMessage.t Parser.messageField).
  rewrite (get_fold _ _ _ _ "ATTACHMENT_COUNT"
             (fun v => JS.gtZero (JS.parseInt v)) hasAttachments_field).
  rewrite (get_fold _ _ _ _ "ATTACHMENT_COUNT" JS.parseInt
             attachmentCount_field).
  now destruct (Lines.lastValue "ATTACHMENT_COUNT" _).
Qed.

(** A message with two attachments. *)
Lemma has_attachments_follows_count_witness :
  In (EmailMessage.mk (Some "1") (Some "a") None None None None None None None
        (Some (JS.Num 2)) (Some true) None)
    (Parser.parseEmailMessages "MESSAGE_START
ID:1
SUBJECT:a
ATTACHMENT_COUNT:2
MESSAGE_END
")
  /\ Some true = option_map JS.gtZero (Some (JS.Num 2)).
Proof.
  assert (Hin : In (EmailMessage.mk (Some "1") (Some "a") None None None None
                      None None None (Some (JS.Num 2)) (Some true) None)
                  (Parser.parseEmailMessages "MESSAGE_START
ID:1
SUBJECT:a
ATTACHMENT_COUNT:2
MESSAGE_END
")) by (vm_compute; left; reflexivity).
  split; [exact Hin|].
  exact (has_attachments_follows_count _ _ Hin).
Defined.

(** The list of recipients that the script of [getEmailById] writes (every
    address followed by a comma) is read back as the list of the addresses,
    when no address is empty or holds a comma. *)
Theorem recipients_read_back (addresses : list string) (m : EmailMessage.t) :
  Forall (fun a => a <> "" /\ JS.includes "," a = false) addresses ->
  EmailMessage.recipients
    (Parser.messageField "RECIPIENTS" (Wire.recipientList addresses) m)
  = Some addresses.
Proof.
  intros H. rewrite recipients_field. cbn [String.eqb Ascii.eqb Bool.eqb].
  f_equal.
  assert (E : JS.split "," (Wire.recipientList addresses)
              = (addresses ++ [""])%list).
  { rewrite split_nonempty_sep by discriminate.
    induction H as [|a rest [_ Ha] _ IH]; [reflexivity|].
    cbn [Wire.recipientList]. rewrite splitFrom_piece.
    - now rewrite IH.
    - discriminate.
    - now apply noMatch_char. }
  rewrite E. apply filterBoolean_lines.
  eapply Forall_impl; [|exact H]. now intros a [Ha _].
Qed.

(** Two addresses. *)
Lemma recipients_read_back_witness :
  EmailMessage.recipients
    (Parser.messageField "RECIPIENTS" "a@b.com,c@d.org," EmailMessage.empty)
  = Some ["a@b.com"; "c@d.org"].
Proof.
  apply (recipients_read_back ["a@b.com"; "c@d.org"] EmailMessage.empty).
  repeat constructor; discriminate.
Defined.

(** *** No end marker, no record *)

Lemma startsWith_grow (pat x y : string) :
  JS.startsWith pat x = true -> JS.startsWith pat (x ++ y) = true.
Proof.
  revert x. induction pat as [|a pat IH]; intros x H; [reflexivity|].
  destruct x as [|b x]; [discriminate|].
  cbn [append JS.startsWith] in *. apply andb_true_iff in H.
  destruct H as [H1 H2]. now rewrite H1, (IH x H2).
Qed.

Lemma includes_append_r (pat x y : string) :
  JS.includes pat x = true -> JS.includes pat (x ++ y) = true.
Proof.
  induction x as [|c x IH]; intros H.
  - destruct pat; [|discriminate]. now apply includes_here.
  - cbn [JS.includes] in H.
    destruct (JS.startsWith pat (String c x)) eqn:E.
    + apply includes_here. now apply startsWith_grow.
    + cbn [append]. apply BlockFacts.includes_grow. now apply IH.
Qed.

(** The piece being read is a prefix of the text. *)
Lemma splitFrom_head (sep s h : string) (t : list string) :
  JS.splitFrom sep 0 s = h :: t -> exists y, s = h ++ y.
Proof.
  revert h t. induction s as [|c s IH]; intros h t H.
  - injection H as <- _. now exists "".
  - cbn [JS.splitFrom] in H.
    destruct (JS.startsWith sep (String c s)).
    + injection H as <- _. now exists (String c s).
    + destruct (JS.splitFrom sep 0 s) as [|h' t'] eqn:E.
      * injection H as <- _. exfalso. now apply (splitFrom_not_nil sep 0 s).
      * cbn [JS.consHead] in H. injection H as <- _.
        destruct (IH h' t' eq_refl) as [y ->]. now exists y.
Qed.

(** What a piece of a text includes, the text includes. *)
Lemma splitFrom_includes (sep pat s : string) (k : nat) (b : string) :
  In b (JS.splitFrom sep k s) ->
  JS.includes pat b = true -> JS.includes pat s = true.
Proof.
  revert k b. induction s as [|c s IH]; intros k b Hin Hb.
  - destruct Hin as [<-|[]]. exact Hb.
  - cbn [JS.splitFrom] in Hin. destruct k as [|k].
    + destruct (JS.startsWith sep (String c s)) eqn:E.
      * destruct Hin as [<-|Hin].
        -- destruct pat; [|discriminate]. now apply includes_here.
        -- apply BlockFacts.includes_grow.
           exact (IH _ b Hin Hb).
      * destruct (JS.splitFrom sep 0 s) as [|h t] eqn:Es.
        -- exfalso. now apply (splitFrom_not_nil sep 0 s).
        -- cbn [JS.consHead] in Hin. destruct Hin as [<-|Hin].
           ++ destruct (splitFrom_head _ _ _ _ Es) as [y ->].
              change (String c (h ++ y)) with (String c h ++ y).
              now apply includes_append_r.
           ++ apply BlockFacts.includes_grow. apply (IH 0 b); [|exact Hb].
              rewrite Es. now right.
    + apply BlockFacts.includes_grow. exact (IH k b Hin Hb).
Qed.

Lemma blocks_include (START pat output block : string) :
  In block (Generic.blocks START output) ->
  JS.includes pat block = true -> JS.includes pat output = true.
Proof.
  unfold Generic.blocks, JS.filterBoolean. intros Hin Hb.
  apply filter_In in Hin. destruct Hin as [Hin _].
  rewrite split_nonempty_sep in Hin by (destruct START; discriminate).
  exact (splitFrom_includes _ pat _ 0 block Hin Hb).
Qed.

Lemma flat_map_nil {A B : Type} (f : A -> list B) (l : list A) :
  (forall x, In x l -> f x = []) -> flat_map f l = [].
Proof.
  induction l as [|x l IH]; intros H; [reflexivity|].
  cbn [flat_map]. rewrite (H x (or_introl eq_refl)).
  apply IH. intros y Hy. apply H. now right.
Qed.

(** A text in which the end marker occurs nowhere yields no record, whatever
    else it holds: a response that was cut before its first end marker is
    read as an empty result. *)
Theorem no_end_marker_no_record (output : string) :
  (JS.includes "MESSAGE_END" output = false ->
   Parser.parseEmailMessages output = [])
  /\ (JS.includes "MAILBOX_END" output = false ->
      Parser.parseMailboxes output = [])
  /\ (JS.includes "ACCOUNT_END" output = false ->
      Parser.parseAccounts output = [])
  /\ (JS.includes "ATTACHMENT_END" output = false ->
      Parser.parseAttachments output = []).
Proof.
  repeat split; intros H.
  - rewrite ParserProperties.parseEmailMessages_flat_map.
    apply flat_map_nil. intros block Hin. unfold Parser.parseMessageBlock.
    destruct (JS.includes "MESSAGE_END" block) eqn:E; [|reflexivity].
    rewrite (blocks_include "MESSAGE_START" _ output block Hin E) in H.
    discriminate.
  - rewrite ParserProperties.parseMailboxes_flat_map.
    apply flat_map_nil. intros block Hin. unfold Parser.parseMailboxBlock.
    destruct (JS.includes "MAILBOX_END" block) eqn:E; [|reflexivity].
    rewrite (blocks_include "MAILBOX_START" _ output block Hin E) in H.
    discriminate.
  - rewrite parseAccounts_flat_map.
    apply flat_map_nil. intros block Hin. unfold Parser.parseAccountBlock.
    destruct (JS.includes "ACCOUNT_END" block) eqn:E; [|reflexivity].
    rewrite (blocks_include "ACCOUNT_START" _ output block Hin E) in H.
    discriminate.
  - rewrite parseAttachments_flat_map.
    apply flat_map_nil. intros block Hin. unfold Parser.parseAttachmentBlock.
    destruct (JS.includes "ATTACHMENT_END" block) eqn:E; [|reflexivity].
    rewrite (blocks_include "ATTACHMENT_START" _ output block Hin E) in H.
    discriminate.
Qed.

(** Two blocks without their end markers: the text stops inside the last
    one. *)
Lemma no_end_marker_no_record_witness :
  JS.includes "MAILBOX_END" "MAILBOX_START
NAME:Inbox
ACCOUNT:iCloud
MAILBOX_START
NAME:Sent
ACCOUNT:iCloud
MAILBOX_EN" = false
  /\ Parser.parseMailboxes "MAILBOX_START
NAME:Inbox
ACCOUNT:iCloud
MAILBOX_START
NAME:Sent
ACCOUNT:iCloud
MAILBOX_EN" = [].
Proof.
  split; [reflexivity|].
  apply (proj1 (proj2 (no_end_marker_no_record _))). reflexivity.
Defined.

End ParserExtras.

(** ** Further properties of the script builder *)

Module ScriptExtras.

Import Script.

(** The lookup of [getEmailById] is scoped in this order: with a mailbox and
    an account, to the named mailbox of the named account; with a mailbox
    only, to the named mailbox; otherwise to all the messages, and then the
    account hint is not used at all. *)
Theorem getEmailById_lookup_scope (messageId mb acc : string) :
  (mb <> "" -> acc <> "" ->
   getEmailByIdScript messageId (Some mb) (Some acc)
   = tpl "
tell application `Mail`
  set msgs to (every message of mailbox `" ++ mb ++ tpl "` of account `"
     ++ acc ++ tpl "` whose id is " ++ messageId ++ tpl ")
" ++ getEmailByIdOutput)
  /\ (mb <> "" -> forall a, notGiven a ->
      getEmailByIdScript messageId (Some mb) a
      = tpl "
tell application `Mail`
  set msgs to (every message of mailbox `" ++ mb ++ tpl "` whose id is "
        ++ messageId ++ tpl ")
" ++ getEmailByIdOutput)
  /\ (forall m a, notGiven m ->
      getEmailByIdScript messageId m a
      = tpl "
tell application `Mail`
  set msgs to (every message whose id is " ++ messageId ++ tpl ")
" ++ getEmailByIdOutput).
Proof.
  split; [|split].
  - intros Hm Ha. unfold getEmailByIdScript.
    rewrite (ScriptProperties.truthyOpt_given mb Hm),
      (ScriptProperties.truthyOpt_given acc Ha).
    cbn [andb str]. now rewrite !StringFacts.append_assoc.
  - intros Hm a Ha. unfold getEmailByIdScript.
    rewrite (ScriptProperties.truthyOpt_given mb Hm),
      (ScriptProperties.truthyOpt_notGiven a Ha).
    cbn [andb str]. now rewrite !StringFacts.append_assoc.
  - intros m a Hm. unfold getEmailByIdScript.
    rewrite (ScriptProperties.truthyOpt_notGiven m Hm).
    cbn [andb]. now rewrite !StringFacts.append_assoc.
Qed.

(** An account hint with no mailbox: the lookup is over all the messages. *)
Lemma getEmailById_lookup_scope_witness :
  getEmailByIdScript "42" None (Some "iCloud")
  = getEmailByIdScript "42" None None.
Proof.
  destruct (getEmailById_lookup_scope "42" "" "") as [_ [_ H]].
  rewrite (H None (Some "iCloud") (or_introl eq_refl)).
  rewrite (H None None (or_introl eq_refl)). reflexivity.
Defined.

Lemma fold_statements (kind : string) (addresses : list string)
  (script : string) :
  fold_left (fun script addr => script ++ recipientStatement kind addr)
    addresses script
  = script ++ recipientStatements kind addresses.
Proof.
  revert script. induction addresses as [|a rest IH]; intros script.
  - cbn [fold_left recipientStatements].
    now rewrite StringFacts.append_empty_r.
  - cbn [fold_left recipientStatements]. rewrite IH.
    now rewrite StringFacts.append_assoc.
Qed.


Lemma searchSource_same (m m' a a' : option string) :
  sameText m m' -> sameText a a' -> searchSource m a = searchSource m' a'.
Proof.
  intros [->|[[->| ->] [->| ->]]] [->|[[->| ->] [->| ->]]];
    unfold searchSource; cbn [JS.truthyOpt JS.truthy String.eqb negb andb];
    try reflexivity;
    destruct (JS.truthyOpt m'); reflexivity.
Qed.

Lemma searchConditions_same (p p' : SearchParams) :
  sameText (query p) (query p') ->
  sameText (sender p) (sender p') ->
  sameText (subject p) (subject p') ->
  sameFlag (unreadOnly p) (unreadOnly p') ->
  searchConditions p = searchConditions p'.
Proof.
  intros Hq Hs Hj Hu. unfold searchConditions.
  assert (Eq : (if JS.truthyOpt (query p) then [queryCondition p] else [])
               = (if JS.truthyOpt (query p') then [queryCondition p']
                  else [])).
  { unfold queryCondition.
    destruct Hq as [->|[[->| ->] [->| ->]]]; reflexivity. }
  assert (Es : (if JS.truthyOpt (sender p) then [senderCondition p] else [])
               = (if JS.truthyOpt (sender p') then [senderCondition p']
                  else [])).
  { unfold senderCondition.
    destruct Hs as [->|[[->| ->] [->| ->]]]; reflexivity. }
  assert (Ej : (if JS.truthyOpt (subject p) then [subjectCondition p] else [])
               = (if JS.truthyOpt (subject p') then [subjectCondition p']
                  else [])).
  { unfold subjectCondition.
    destruct Hj as [->|[[->| ->] [->| ->]]]; reflexivity. }
  assert (Eu : match unreadOnly p with
               | Some true => [unreadCondition]
               | _ => []
               end
               = match unreadOnly p' with
                 | Some true => [unreadCondition]
                 | _ => []
                 end).
  { destruct Hu as [->|[H H']]; [reflexivity|].
    destruct (unreadOnly p) as [[|]|], (unreadOnly p') as [[|]|];
      try reflexivity; congruence. }
  now rewrite Eq, Es, Ej, Eu.
Qed.

(** The search script does not tell apart two parameter objects that differ
    only in this: a text parameter (query, sender, subject, mailbox, account)
    that is left out in one and the empty string in the other; the flag
    [unreadOnly] left out in one and [false] in the other; the limit left out
    in one and 50 in the other; and the two dates, whatever they are. *)
Theorem search_script_of_equivalent_parameters (p p' : SearchParams) :
  sameText (query p) (query p') ->
  sameText (sender p) (sender p') ->
  sameText (subject p) (subject p') ->
  sameText (mailbox p) (mailbox p') ->
  sameText (account p) (account p') ->
  sameFlag (unreadOnly p) (unreadOnly p') ->
  searchLimit p = searchLimit p' ->
  searchScript p = searchScript p'.
Proof.
  intros Hq Hs Hj Hm Ha Hu Hl. unfold searchScript, searchTail, searchFilter.
  rewrite (searchSource_same _ _ _ _ Hm Ha).
  rewrite (searchConditions_same p p' Hq Hs Hj Hu).
  now rewrite Hl.
Qed.

(** Empty strings, [false] and no limit on one side; nothing but the limit 50
    and two dates on the other. *)
Lemma search_script_of_equivalent_parameters_witness :
  searchScript
    {| query := Some ""; sender := None; subject := Some ""; dateFrom := None;
       dateTo := None; mailbox := Some ""; account := None;
       unreadOnly := Some false; limit := None |}
  = searchScript
      {| query := None; sender := None; subject := None;
         dateFrom := Some "2024-01-01"; dateTo := Some "2024-12-31";
         mailbox := None; account := None; unreadOnly := None;
         limit := Some 50%Z |}.
Proof.
  apply search_script_of_equivalent_parameters.
  - right. split; [right | left]; reflexivity.
  - left. reflexivity.
  - right. split; [right | left]; reflexivity.
  - right. split; [right | left]; reflexivity.
  - left. reflexivity.
  - right. split; discriminate.
  - reflexivity.
Defined.

End ScriptExtras.

(** ** Further properties of the process invoker and of the guard *)

Module InvokerExtras.

Import Effect.

Section WithEnv.

Context {W : Type} (env : Env W).

Lemma bind_throws {A B : Type} (m : M W A) (k : A -> M W B) (s s' : State W)
  (e : thrown) :
  bind m k s = (Threw e, s') ->
  m s = (Threw e, s')
  \/ exists a s1, m s = (Returned a, s1) /\ k a s1 = (Threw e, s').
Proof.
  unfold bind. destruct (m s) as [[a|e1] s1]; intros H.
  - right. eauto.
  - left. injection H as -> ->. reflexivity.
Qed.

Lemma executeAppleScript_throws (script : string) (s s' : State W)
  (e : thrown) :
  AppleScript.executeAppleScript env script s = (Threw e, s') ->
  executionFailure e.
Proof.
  unfold AppleScript.executeAppleScript, tryCatch, bind, AppleScript.awaitExec.
  destruct (execAsync env _ (world s)) as [[[stdout stderr]|e1] w].
  - unfold consoleError, ret. destruct (JS.truthy stderr); discriminate.
  - destruct e1 as [message|]; unfold throw; intros H; injection H as <- _.
    + now exists (": " ++ message).
    + now exists " with unknown error".
Qed.

Lemma executeAppleScriptFile_failure (script : string) (s s' : State W)
  (e : thrown) :
  AppleScript.executeAppleScriptFile env script s = (Threw e, s') ->
  executionFailure e \/ AppleScript.executorRaised env script e.
Proof.
  unfold AppleScript.executeAppleScriptFile.
  destruct (spawnOsascript env script (world s))
    as [[message|message|code out err] w] eqn:E.
  - intros H. injection H as <- _. right. now exists message, (world s), w.
  - intros H. injection H as <- _. left. now exists (": " ++ message).
  - destruct code as [[|p|p]|].
    + unfold bind, consoleError, ret. destruct (JS.truthy err); discriminate.
    + intros H. injection H as <- _. left.
      now exists (" with code " ++ AppleScript.showCode (Some (Z.pos p))
                  ++ ": " ++ err).
    + intros H. injection H as <- _. left.
      now exists (" with code " ++ AppleScript.showCode (Some (Z.neg p))
                  ++ ": " ++ err).
    + intros H. injection H as <- _. left.
      now exists (" with code " ++ AppleScript.showCode None ++ ": " ++ err).
Qed.

Lemma isMailRunning_returns (s : State W) :
  exists running s', AppleScript.isMailRunning env s = (Returned running, s').
Proof.
  unfold AppleScript.isMailRunning, tryCatch, bind.
  destruct (AppleScript.executeAppleScript env _ s) as [[result|e] s1];
    unfold ret; eauto.
Qed.

Lemma ensureMailRunning_throws (s s' : State W) (e : thrown) :
  AppleScript.ensureMailRunning env s = (Threw e, s') -> executionFailure e.
Proof.
  unfold AppleScript.ensureMailRunning. intros H.
  apply bind_throws in H. destruct H as [H|[running [s1 [H1 H2]]]].
  - destruct (isMailRunning_returns s) as [r [s1 E]]. congruence.
  - destruct running; cbn [negb] in H2; [discriminate|].
    apply bind_throws in H2. destruct H2 as [H2|[a [s2 [_ H3]]]].
    + now apply executeAppleScript_throws in H2.
    + discriminate.
Qed.

End WithEnv.

Lemma escape_injective (a b : string) :
  AppleScript.escapeAppleScript a = AppleScript.escapeAppleScript b -> a = b.
Proof.
  unfold AppleScript.escapeAppleScript. revert b.
  induction a as [|c a IH]; intros [|d b] H.
  - reflexivity.
  - cbn [JS.replaceChar] in H. destruct (Ascii.eqb "'" d); discriminate.
  - cbn [JS.replaceChar] in H. destruct (Ascii.eqb "'" c); discriminate.
  - cbn [JS.replaceChar] in H.
    destruct (Ascii.eqb_spec "'" c) as [<-|Hc],
             (Ascii.eqb_spec "'" d) as [<-|Hd].
    + cbn [append] in H. injection H as H. now rewrite (IH b H).
    + cbn [append] in H. injection H as H _. congruence.
    + cbn [append] in H. injection H as H _. congruence.
    + injection H as -> H. now rewrite (IH b H).
Qed.

Lemma append_quote_injective (x y : string) :
  x ++ "'" = y ++ "'" -> x = y.
Proof.
  revert y. induction x as [|c x IH]; intros [|d y] H.
  - reflexivity.
  - cbn [append] in H. injection H as _ H. destruct y; discriminate.
  - cbn [append] in H. injection H as _ H. destruct x; discriminate.
  - cbn [append] in H. injection H as -> H. now rewrite (IH y H).
Qed.

Lemma escape_append (a b : string) :
  AppleScript.escapeAppleScript (a ++ b)
  = AppleScript.escapeAppleScript a ++ AppleScript.escapeAppleScript b.
Proof.
  unfold AppleScript.escapeAppleScript.
  induction a as [|c a IH]; [reflexivity|].
  cbn [append JS.replaceChar]. rewrite IH.
  destruct (Ascii.eqb "'" c); reflexivity.
Qed.

(** The escaping of the command line works character by character: it
    distributes over concatenation, it leaves a script without a single quote
    as it is, and it loses nothing: two different scripts give two different
    command lines. *)
Theorem escaping_keeps_scripts_apart (a b : string) :
  AppleScript.escapeAppleScript (a ++ b)
  = AppleScript.escapeAppleScript a ++ AppleScript.escapeAppleScript b
  /\ (JS.includes "'" a = false -> AppleScript.escapeAppleScript a = a)
  /\ (a <> b -> AppleScript.command a <> AppleScript.command b).
Proof.
  split; [apply escape_append|]. split.
  - unfold AppleScript.escapeAppleScript.
    induction a as [|c a IH]; intros H; [reflexivity|].
    cbn [JS.includes JS.startsWith] in H. cbn [JS.replaceChar].
    destruct (Ascii.eqb "'" c); [discriminate|].
    cbn [andb] in H. now rewrite (IH H).
  - intros Hab H. apply Hab. unfold AppleScript.command in H.
    cbn [append] in H. injection H as H.
    apply escape_injective. now apply append_quote_injective.
Qed.

(** A script with a single quote and the script that is its escaped form. *)
Lemma escaping_keeps_scripts_apart_witness :
  AppleScript.command "it's" <> AppleScript.command "it'\''s".
Proof.
  apply (proj2 (proj2 (escaping_keeps_scripts_apart "it's" "it'\''s"))).
  discriminate.
Defined.

(** The probe of the guard never throws, and it answers [true] exactly when
    the command resolves with an output that is [true] once trimmed and put
    in lower case; a command that rejects counts as "not running". *)
Theorem isMailRunning_never_throws {W : Type} (env : Env W) (s : State W) :
  exists running s',
    AppleScript.isMailRunning env s = (Returned running, s')
    /\ (running = true <->
        exists stdout stderr w,
          execAsync env (AppleScript.command Script.isMailRunningScript)
            (world s)
          = (Returned (stdout, stderr), w)
          /\ JS.toLowerCase (JS.trim stdout) = "true").
Proof.
  unfold AppleScript.isMailRunning, AppleScript.executeAppleScript,
    AppleScript.awaitExec, tryCatch, bind.
  change ("osascript -e '"
          ++ AppleScript.escapeAppleScript Script.isMailRunningScript ++ "'")
    with (AppleScript.command Script.isMailRunningScript).
  destruct (execAsync env (AppleScript.command Script.isMailRunningScript)
              (world s)) as [[[stdout stderr]|e] w].
  - unfold consoleError, ret.
    destruct (JS.truthy stderr); cbn [fst snd];
      (eexists; eexists; split; [reflexivity|]; split;
       [ intros H; apply String.eqb_eq in H; eauto
       | intros [o [e' [w' [E H]]]]; injection E as <- _ _;
         now apply String.eqb_eq ]).
  - destruct e as [message|]; unfold throw, ret;
      (eexists; eexists; split; [reflexivity|]; split;
       [ discriminate | intros [o [e' [w' [E _]]]]; discriminate ]).
Qed.

(** When the probe answers that Mail is running, the guard does nothing
    more: no activation, no wait.  When it answers that Mail is not running,
    the guard runs the activation script; if that resolves it waits 1000
    milliseconds and returns, without probing again; if that rejects the
    guard throws. *)
Theorem guard_activates_only_when_not_running {W : Type} (env : Env W)
  (s s1 : State W) :
  (AppleScript.isMailRunning env s = (Returned true, s1) ->
   AppleScript.ensureMailRunning env s = (Returned tt, s1))
  /\ (AppleScript.isMailRunning env s = (Returned false, s1) ->
      (forall stdout stderr w2,
         execAsync env (AppleScript.command Script.activateScript) (world s1)
         = (Returned (stdout, stderr), w2) ->
         exists s2,
           AppleScript.ensureMailRunning env s = (Returned tt, s2)
           /\ world s2 = setTimeout env 1000 w2)
      /\ (forall e w2,
            execAsync env (AppleScript.command Script.activateScript)
              (world s1)
            = (Threw e, w2) ->
            exists e' s2,
              AppleScript.ensureMailRunning env s = (Threw e', s2)
              /\ executionFailure e' /\ world s2 = w2)).
Proof.
  split.
  - intros H. unfold AppleScript.ensureMailRunning, bind. now rewrite H.
  - intros H. split.
    + intros stdout stderr w2 Hexec.
      unfold AppleScript.ensureMailRunning, bind. rewrite H. cbn [negb].
      unfold AppleScript.executeAppleScript, tryCatch, bind,
        AppleScript.awaitExec.
      change ("osascript -e '"
              ++ AppleScript.escapeAppleScript Script.activateScript ++ "'")
        with (AppleScript.command Script.activateScript).
      rewrite Hexec. unfold consoleError, ret, AppleScript.sleep.
      destruct (JS.truthy stderr); eexists; split; reflexivity.
    + intros e w2 Hexec.
      unfold AppleScript.ensureMailRunning, bind. rewrite H. cbn [negb].
      unfold AppleScript.executeAppleScript, tryCatch, bind,
        AppleScript.awaitExec.
      change ("osascript -e '"
              ++ AppleScript.escapeAppleScript Script.activateScript ++ "'")
        with (AppleScript.command Script.activateScript).
      rewrite Hexec. destruct e as [message|]; unfold throw;
        eexists; eexists; (split; [reflexivity|]); (split; [|reflexivity]).
      * now exists (": " ++ message).
      * now exists " with unknown error".
Qed.

(** The probe answers TRUE in capitals: the guard returns at once. *)
Lemma guard_activates_only_when_not_running_witness :
  AppleScript.ensureMailRunning
    {| execAsync := fun _ w => (Returned ("TRUE" ++ JS.LF, ""), w);
       spawnOsascript := fun _ w => (ErrorEvent "not used", w);
       setTimeout := fun _ (w : nat) => S w |}
    (World.start 0)
  = (Returned tt, World.start 0).
Proof.
  apply (proj1 (guard_activates_only_when_not_running
                  {| execAsync := fun _ w => (Returned ("TRUE" ++ JS.LF, ""), w);
                     spawnOsascript := fun _ w => (ErrorEvent "not used", w);
                     setTimeout := fun _ (w : nat) => S w |}
                  (World.start 0) (World.start 0))).
  reflexivity.
Defined.

End InvokerExtras.

(** ** Further properties of the operations *)

Module MailExtras.

Import Effect.

(** *** The output of the scripts, once trimmed, for each parser *)

Lemma messages_trimmed (blocks : list (list (string * string))) (n : nat) :
  Forall (Wire.fieldsOf "MESSAGE_START" "MESSAGE_END") blocks ->
  Parser.parseEmailMessages
    (JS.trim (Wire.messages (map Wire.Block blocks) ++ Wire.lineFeeds n))
  = flat_map Wire.messageRecords (map Wire.Block blocks).
Proof.
  intros H. rewrite ParserFacts.parseEmailMessages_shape.
  apply BlockFacts.parse_trim_blocks;
    try reflexivity; try discriminate; try exact H; intros; reflexivity.
Qed.

Lemma mailboxes_trimmed (blocks : list (list (string * string))) (n : nat) :
  Forall (Wire.fieldsOf "MAILBOX_START" "MAILBOX_END") blocks ->
  Parser.parseMailboxes
    (JS.trim (Wire.mailboxes (map Wire.Block blocks) ++ Wire.lineFeeds n))
  = flat_map Wire.mailboxRecords (map Wire.Block blocks).
Proof.
  intros H. rewrite ParserFacts.parseMailboxes_shape.
  apply BlockFacts.parse_trim_blocks;
    try reflexivity; try discriminate; try exact H; intros; reflexivity.
Qed.

Lemma accounts_trimmed (blocks : list (list (string * string))) (n : nat) :
  Forall (Wire.fieldsOf "ACCOUNT_START" "ACCOUNT_END") blocks ->
  Parser.parseAccounts
    (JS.trim (Wire.accounts (map Wire.Block blocks) ++ Wire.lineFeeds n))
  = flat_map Wire.accountRecords (map Wire.Block blocks).
Proof.
  intros H. rewrite ParserFacts.parseAccounts_shape.
  apply BlockFacts.parse_trim_blocks;
    try reflexivity; try discriminate; try exact H; intros; reflexivity.
Qed.

Lemma attachments_trimmed (blocks : list (list (string * string))) (n : nat) :
  Forall (Wire.fieldsOf "ATTACHMENT_START" "ATTACHMENT_END") blocks ->
  Parser.parseAttachments
    (JS.trim (Wire.attachments (map Wire.Block blocks) ++ Wire.lineFeeds n))
  = flat_map Wire.attachmentRecords (map Wire.Block blocks).
Proof.
  intros H. rewrite ParserFacts.parseAttachments_shape.
  apply BlockFacts.parse_trim_blocks;
    try reflexivity; try discriminate; try exact H; intros; reflexivity.
Qed.

Lemma rows_records (rows : list Wire.SearchRow) :
  flat_map Wire.messageRecords
    (map Wire.Block (map Wire.searchFields rows))
  = map Wire.searchMessage (filter Wire.rowComplete rows).
Proof.
  induction rows as [|row rows IH]; [reflexivity|].
  cbn [map flat_map filter]. rewrite IH.
  change (Wire.messageRecords (Wire.Block (Wire.searchFields row)))
    with (if Wire.rowComplete row then [Wire.searchMessage row] else []).
  now destruct (Wire.rowComplete row).
Qed.

Section WithEnv.

Context {W : Type} (env : Env W).

(** What an operation that runs the guard, then a script, then a pure
    function of the output, does when the guard returns and the script
    closes with exit code 0. *)
Lemma guarded_script {A : Type} (script : string) (f : string -> A)
  (s s1 : State W) (stdout stderr : string) (w2 : W) :
  AppleScript.ensureMailRunning env s = (Returned tt, s1) ->
  spawnOsascript env script (world s1)
  = (CloseEvent (Some 0%Z) stdout stderr, w2) ->
  exists s2,
    bind (AppleScript.ensureMailRunning env)
      (fun _ => bind (AppleScript.executeAppleScriptFile env script)
                  (fun result => ret (f result))) s
    = (Returned (f (JS.trim stdout)), s2)
    /\ world s2 = w2.
Proof.
  intros Hguard Hspawn.
  destruct (MailProperties.executeAppleScriptFile_closes env _ _ _ _ _ Hspawn)
    as [s2 [Hexec Hw]].
  exists s2. split; [|exact Hw].
  rewrite (MailProperties.bind_guard env _ s s1 Hguard).
  unfold bind. now rewrite Hexec.
Qed.

End WithEnv.

(** When the guard returns and the search script closes with exit code 0
    after writing one block for each message (followed by any number of line
    feeds), and every written value holds no line feed and neither marker,
    [searchEmails] returns the messages in the order in which they were
    written, every field trimmed, without those whose identifier or subject
    is empty.  A value that holds a line feed is not read back whole: for
    the content made of the lines [hello] and [ID:666], the message comes
    back with the content [hello] and the identifier [666]. *)
Theorem searchEmails_returns_written_rows {W : Type} (env : Env W)
  (params : Script.SearchParams) (s s1 : State W)
  (rows : list Wire.SearchRow) (n : nat) (stderr : string) (w2 : W) :
  (AppleScript.ensureMailRunning env s = (Returned tt, s1) ->
   spawnOsascript env (Script.searchScript params) (world s1)
   = (CloseEvent (Some 0%Z)
        (Wire.messages (map Wire.Block (map Wire.searchFields rows))
         ++ Wire.lineFeeds n)
        stderr, w2) ->
   Forall (Wire.fieldsOf "MESSAGE_START" "MESSAGE_END")
     (map Wire.searchFields rows) ->
   exists s2,
     Mail.searchEmails env params s
     = (Returned (map Wire.searchMessage (filter Wire.rowComplete rows)), s2)
     /\ world s2 = w2)
  /\ fst (Mail.searchEmails
            (World.answering
               (CloseEvent (Some 0%Z)
                  (Wire.messages
                     [Wire.Block
                        (Wire.searchFields
                           {| Wire.rowId := "1";
                              Wire.rowSubject := "Hi";
                              Wire.rowSender := "a@b.com";
                              Wire.rowDate := "today";
                              Wire.rowRead := "true";
                              Wire.rowFlagged := "false";
                              Wire.rowContent := "hello
ID:666" |})]) ""))
            params (World.start tt))
     = Returned
         [EmailMessage.mk (Some "666") (Some "Hi") (Some "a@b.com") None
            (Some "today") (Some true) (Some false) None None None None
            (Some "hello")].
Proof.
  split; [|reflexivity].
  intros Hguard Hspawn Hrows.
  destruct (guarded_script env _ Parser.parseEmailMessages _ _ _ _ _
              Hguard Hspawn) as [s2 [E Hw]].
  exists s2. split; [|exact Hw].
  unfold Mail.searchEmails. rewrite E.
  now rewrite (messages_trimmed _ n Hrows), rows_records.
Qed.

(** Mail is running and the script writes two messages, the second one with
    no subject. *)
Lemma searchEmails_returns_written_rows_witness :
  fst (Mail.searchEmails
         (World.answering
            (CloseEvent (Some 0%Z) "MESSAGE_START
ID:1
SUBJECT:Hi
SENDER:a@b.com
DATE:today
READ:true
FLAGGED:false
CONTENT:hello
MESSAGE_END
MESSAGE_START
ID:2
SUBJECT:
SENDER:c@d.org
DATE:today
READ:false
FLAGGED:false
CONTENT:bye
MESSAGE_END

" ""))
         (Script.Build_SearchParams None None None None None None None None None)
         (World.start tt))
  = Returned
      [EmailMessage.mk (Some "1") (Some "Hi") (Some "a@b.com") None
         (Some "today") (Some true) (Some false) None None None None
         (Some "hello")].
Proof.
  destruct (proj1 (searchEmails_returns_written_rows
              (World.answering
                 (CloseEvent (Some 0%Z)
                    (Wire.messages
                       (map Wire.Block
                          (map Wire.searchFields
                             [Wire.Build_SearchRow "1" "Hi" "a@b.com" "today"
                                "true" "false" "hello";
                              Wire.Build_SearchRow "2" "" "c@d.org" "today"
                                "false" "false" "bye"]))
                     ++ Wire.lineFeeds 1) ""))
              (Script.Build_SearchParams None None None None None None None
                 None None)
              (World.start tt) (World.start tt)
              [Wire.Build_SearchRow "1" "Hi" "a@b.com" "today" "true" "false"
                 "hello";
               Wire.Build_SearchRow "2" "" "c@d.org" "today" "false" "false"
                 "bye"]
              1 "" tt) eq_refl eq_refl ltac:(repeat constructor))
    as [s2 [E _]].
  exact (f_equal fst E).
Defined.



(** [getEmailById] never returns a message without an identifier or without
    a subject.  When the guard returns and the script closes with exit code 0
    after writing blocks (followed by any number of line feeds), it returns
    the first record of these blocks, or [null] when they yield none (no
    block at all, or blocks with no identifier or no subject). *)
Theorem getEmailById_returns_first_complete_message {W : Type} (env : Env W)
  (messageId : string) (mailbox account : option string) (s : State W) :
  (forall m s',
     Mail.getEmailById env messageId mailbox account s = (Returned (Some m), s')
     -> (exists v, EmailMessage.id m = Some v /\ v <> "")
        /\ (exists v, EmailMessage.subject m = Some v /\ v <> ""))
  /\ (forall s1 blocks n stderr w2,
        AppleScript.ensureMailRunning env s = (Returned tt, s1) ->
        spawnOsascript env
          (Script.getEmailByIdScript messageId mailbox account) (world s1)
        = (CloseEvent (Some 0%Z)
             (Wire.messages (map Wire.Block blocks) ++ Wire.lineFeeds n)
             stderr, w2) ->
        Forall (Wire.fieldsOf "MESSAGE_START" "MESSAGE_END") blocks ->
        exists s2,
          Mail.getEmailById env messageId mailbox account s
          = (Returned
               (hd_error
                  (flat_map Wire.messageRecords (map Wire.Block blocks))), s2)
          /\ world s2 = w2).
Proof.
  split.
  - intros m s' H. unfold Mail.getEmailById, bind in H.
    destruct (AppleScript.ensureMailRunning env s) as [[[]|e] s1];
      [|discriminate].
    destruct (AppleScript.executeAppleScriptFile env _ s1) as [[result|e] s2];
      [|discriminate].
    destruct (result =? "NOT_FOUND"); [discriminate|].
    unfold ret in H. injection H as H _.
    assert (Hin : In m (Parser.parseEmailMessages result)).
    { destruct (Parser.parseEmailMessages result) as [|x l];
        [discriminate|]. injection H as ->. now left. }
    rewrite ParserProperties.parseEmailMessages_flat_map in Hin.
    apply in_flat_map in Hin. destruct Hin as [block [_ Hin]].
    apply ParserProperties.parseMessageBlock_complete in Hin.
    unfold Parser.messageComplete in Hin. apply andb_true_iff in Hin.
    now rewrite !ParserProperties.truthyOpt_true in Hin.
  - intros s1 blocks n stderr w2 Hguard Hspawn Hblocks.
    destruct (MailProperties.executeAppleScriptFile_closes env _ _ _ _ _
                Hspawn) as [s2 [Hexec Hw]].
    exists s2. split; [|exact Hw].
    unfold Mail.getEmailById.
    rewrite (MailProperties.bind_guard env _ s s1 Hguard).
    unfold bind. rewrite Hexec.
    rewrite (messages_trimmed _ n Hblocks).
    replace (JS.trim (Wire.messages (map Wire.Block blocks)
                      ++ Wire.lineFeeds n) =? "NOT_FOUND") with false;
      [reflexivity|].
    destruct (BlockFacts.trim_render_blocks_cases "MESSAGE_START"
                "MESSAGE_END" ltac:(intros; reflexivity)
                ltac:(intros; reflexivity) blocks n) as [E|[r E]];
      unfold Wire.messages; rewrite E; reflexivity.
Qed.

(** Mail is running and the script writes a block with no subject: the
    result is [null]. *)
Lemma getEmailById_returns_first_complete_message_witness :
  fst (Mail.getEmailById
         (World.answering (CloseEvent (Some 0%Z) "MESSAGE_START
ID:42
SENDER:a@b.com
MESSAGE_END
" ""))
         "42" None None (World.start tt))
  = Returned None.
Proof.
  destruct (proj2 (getEmailById_returns_first_complete_message
              (World.answering
                 (CloseEvent (Some 0%Z)
                    (Wire.messages
                       (map Wire.Block [[("ID", "42"); ("SENDER", "a@b.com")]])
                     ++ Wire.lineFeeds 0) ""))
              "42" None None (World.start tt))
              (World.start tt) [[("ID", "42"); ("SENDER", "a@b.com")]]
              0 "" tt eq_refl eq_refl ltac:(repeat constructor))
    as [s2 [E _]].
  exact (f_equal fst E).
Defined.

(** Once the guard has returned, [createDraft] returns the trimmed output of
    its script as the identifier of the draft, whatever that output is, and,
    unlike [sendEmail], throws what the script execution throws. *)
Theorem createDraft_returns_output_or_throws {W : Type} (env : Env W)
  (draft : Script.DraftEmail) (s s1 : State W) :
  AppleScript.ensureMailRunning env s = (Returned tt, s1) ->
  (forall stdout stderr w2,
     spawnOsascript env (Script.createDraftScript draft) (world s1)
     = (CloseEvent (Some 0%Z) stdout stderr, w2) ->
     exists s2,
       Mail.createDraft env draft s = (Returned (JS.trim stdout), s2)
       /\ world s2 = w2)
  /\ (forall e s2,
        AppleScript.executeAppleScriptFile env
          (Script.createDraftScript draft) s1
        = (Threw e, s2) ->
        Mail.createDraft env draft s = (Threw e, s2)).
Proof.
  intros Hguard. split.
  - intros stdout stderr w2 Hspawn.
    exact (guarded_script env _ (fun messageId => messageId) _ _ _ _ _
             Hguard Hspawn).
  - intros e s2 H. unfold Mail.createDraft.
    rewrite (MailProperties.bind_guard env _ s s1 Hguard).
    unfold bind. now rewrite H.
Qed.

(** Mail is running and the script exits with code 1: the draft operation
    throws. *)
Lemma createDraft_returns_output_or_throws_witness :
  Mail.createDraft
    (World.answering (CloseEvent (Some 1%Z) "" "execution error"))
    {| Script.draftSubject := "Hello";
       Script.to := ["a@b.com"];
       Script.cc := None;
       Script.bcc := None;
       Script.draftContent := "Hi there";
       Script.draftAccount := None |}
    (World.start tt)
  = (Threw (Error "AppleScript execution failed with code 1: execution error"),
     World.start tt).
Proof.
  apply (proj2 (createDraft_returns_output_or_throws
                  (World.answering
                     (CloseEvent (Some 1%Z) "" "execution error"))
                  {| Script.draftSubject := "Hello";
                     Script.to := ["a@b.com"];
                     Script.cc := None;
                     Script.bcc := None;
                     Script.draftContent := "Hi there";
                     Script.draftAccount := None |}
                  (World.start tt) (World.start tt) eq_refl)).
  reflexivity.
Defined.

(** When the guard throws, the six operations that have no [try] of their
    own throw the same value, in the state in which the guard left the
    world: their script is not run. *)
Theorem guard_failure_stops_operation {W : Type} (env : Env W)
  (params : Script.SearchParams) (messageId : string)
  (mailbox account : option string) (draft : Script.DraftEmail)
  (s s1 : State W) (e : thrown) :
  AppleScript.ensureMailRunning env s = (Threw e, s1) ->
  Mail.searchEmails env params s = (Threw e, s1)
  /\ Mail.getEmailById env messageId mailbox account s = (Threw e, s1)
  /\ Mail.listMailboxes env s = (Threw e, s1)
  /\ Mail.listAccounts env s = (Threw e, s1)
  /\ Mail.createDraft env draft s = (Threw e, s1)
  /\ Mail.getAttachments env messageId s = (Threw e, s1).
Proof.
  intros H. repeat split.
  - unfold Mail.searchEmails.
    now rewrite (MailProperties.bind_guard_throws env _ s s1 e H).
  - unfold Mail.getEmailById.
    now rewrite (MailProperties.bind_guard_throws env _ s s1 e H).
  - unfold Mail.listMailboxes.
    now rewrite (MailProperties.bind_guard_throws env _ s s1 e H).
  - unfold Mail.listAccounts.
    now rewrite (MailProperties.bind_guard_throws env _ s s1 e H).
  - unfold Mail.createDraft.
    now rewrite (MailProperties.bind_guard_throws env _ s s1 e H).
  - unfold Mail.getAttachments.
    now rewrite (MailProperties.bind_guard_throws env _ s s1 e H).
Qed.

(** No [osascript] command can be run: listing the mailboxes throws. *)
Lemma guard_failure_stops_operation_witness :
  Mail.listMailboxes World.unavailable (World.start tt)
  = (Threw (Error "AppleScript execution failed: Command failed: osascript"),
     World.start tt).
Proof.
  apply (guard_failure_stops_operation World.unavailable
           (Script.Build_SearchParams None None None None None None None None
              None)
           "" None None
           (Script.Build_DraftEmail "" [] None None "" None)
           (World.start tt) (World.start tt) _ eq_refl).
Defined.

Section Throws.

Context {W : Type} (env : Env W).

Lemma guarded_throws {B : Type} (script : string)
  (k : string -> M W B) (s s' : State W) (e : thrown) :
  (forall result s1 s2, k result s1 <> (Threw e, s2)) ->
  bind (AppleScript.ensureMailRunning env)
    (fun _ => bind (AppleScript.executeAppleScriptFile env script) k) s
  = (Threw e, s') ->
  executionFailure e \/ AppleScript.executorRaised env script e.
Proof.
  intros Hk H. apply InvokerExtras.bind_throws in H.
  destruct H as [H|[a [s1 [_ H]]]].
  - left. now apply InvokerExtras.ensureMailRunning_throws in H.
  - apply InvokerExtras.bind_throws in H.
    destruct H as [H|[result [s2 [_ H]]]].
    + now apply InvokerExtras.executeAppleScriptFile_failure in H.
    + now apply Hk in H.
Qed.

Lemma guarded_try_throws {A : Type} (m : M W A) (handler : thrown -> A)
  (s s' : State W) (e : thrown) :
  bind (AppleScript.ensureMailRunning env)
    (fun _ => tryCatch m (fun error => ret (handler error))) s
  = (Threw e, s') ->
  executionFailure e.
Proof.
  intros H. apply InvokerExtras.bind_throws in H.
  destruct H as [H|[a [s1 [_ H]]]].
  - now apply InvokerExtras.ensureMailRunning_throws in H.
  - unfold tryCatch, ret in H. destruct (m s1) as [[x|e1] s2]; discriminate.
Qed.

End Throws.

(** What the nine operations throw.  [sendEmail], [moveEmail] and
    [setReadStatus] run their script inside a [try]: a value that they throw
    comes from the guard, and is an [Error] whose message starts with
    [AppleScript execution failed].  The six other operations throw such an
    [Error] too, or the exception that the executor of the promise raised
    for their script, which comes out as it is: the listing of the mailboxes
    throws the [Error] with the bare message of [spawn] where [spawn] itself
    throws. *)
Theorem operations_throw_errors_of_the_invoker {W : Type} (env : Env W)
  (params : Script.SearchParams) (messageId targetMailbox : string)
  (mailbox account : option string) (draft : Script.DraftEmail) (read : bool)
  (s s' : State W) (e : thrown) :
  (Mail.sendEmail env draft s = (Threw e, s') -> executionFailure e)
  /\ (Mail.moveEmail env messageId targetMailbox account s = (Threw e, s') ->
      executionFailure e)
  /\ (Mail.setReadStatus env messageId read s = (Threw e, s') ->
      executionFailure e)
  /\ (Mail.searchEmails env params s = (Threw e, s') ->
      executionFailure e
      \/ AppleScript.executorRaised env (Script.searchScript params) e)
  /\ (Mail.getEmailById env messageId mailbox account s = (Threw e, s') ->
      executionFailure e
      \/ AppleScript.executorRaised env
           (Script.getEmailByIdScript messageId mailbox account) e)
  /\ (Mail.listMailboxes env s = (Threw e, s') ->
      executionFailure e
      \/ AppleScript.executorRaised env Script.listMailboxesScript e)
  /\ (Mail.listAccounts env s = (Threw e, s') ->
      executionFailure e
      \/ AppleScript.executorRaised env Script.listAccountsScript e)
  /\ (Mail.createDraft env draft s = (Threw e, s') ->
      executionFailure e
      \/ AppleScript.executorRaised env (Script.createDraftScript draft) e)
  /\ (Mail.getAttachments env messageId s = (Threw e, s') ->
      executionFailure e
      \/ AppleScript.executorRaised env
           (Script.getAttachmentsScript messageId) e)
  /\ Mail.listMailboxes (World.answering (ExecutorThrew "spawn EMFILE"))
       (World.start tt)
     = (Threw (Error "spawn EMFILE"), World.start tt).
Proof.
  split; [unfold Mail.sendEmail; apply guarded_try_throws|].
  split; [unfold Mail.moveEmail; apply guarded_try_throws|].
  split; [unfold Mail.setReadStatus; apply guarded_try_throws|].
  split; [apply (guarded_throws env); discriminate|].
  split.
  { apply (guarded_throws env). intros result s1 s2.
    destruct (result =? "NOT_FOUND"); discriminate. }
  split; [apply (guarded_throws env); discriminate|].
  split; [apply (guarded_throws env); discriminate|].
  split; [apply (guarded_throws env); discriminate|].
  split; [apply (guarded_throws env); discriminate|].
  reflexivity.
Qed.

(** No [osascript] command can be run: what [setReadStatus] throws is the
    failure of the guard. *)
Lemma operations_throw_errors_of_the_invoker_witness :
  executionFailure
    (Error "AppleScript execution failed: Command failed: osascript").
Proof.
  apply (proj1 (proj2 (proj2 (operations_throw_errors_of_the_invoker
           World.unavailable
           (Script.Build_SearchParams None None None None None None None None
              None)
           "42" "" None None
           (Script.Build_DraftEmail "" [] None None "" None) true
           (World.start tt) (World.start tt) _)))).
  reflexivity.
Defined.

(** Parameters that are accepted and have no effect: the dates of a search,
    and the account of a draft, for [createDraft] and for [sendEmail]. *)
Theorem parameters_without_effect {W : Type} (env : Env W)
  (params : Script.SearchParams) (from to_ : option string)
  (draft : Script.DraftEmail) (a : option string) (s : State W) :
  Mail.searchEmails env (Script.withDates from to_ params) s
  = Mail.searchEmails env params s
  /\ Mail.createDraft env (Script.withAccount a draft) s
     = Mail.createDraft env draft s
  /\ Mail.sendEmail env (Script.withAccount a draft) s
     = Mail.sendEmail env draft s.
Proof. repeat split. Qed.

End MailExtras.

(** ** Properties of the tool handlers *)

Module ToolsExtras.

Import Effect Tools.

Section WithEnv.

Context {W : Type} (env : Env W).

Lemma tryCatch_returns {A : Type} (m : M W A) (handler : thrown -> A)
  (s : State W) :
  exists r s', tryCatch m (fun error => ret (handler error)) s = (Returned r, s').
Proof.
  unfold tryCatch, ret. destruct (m s) as [[a|e] s1]; eauto.
Qed.

Lemma tryCatch_guard_throws {A B : Type} (k : M W A) (f : A -> M W B)
  (handler : thrown -> B) (s s1 : State W) (e : thrown) :
  AppleScript.ensureMailRunning env s = (Threw e, s1) ->
  tryCatch
    (bind (bind (AppleScript.ensureMailRunning env) (fun _ => k)) f)
    (fun error => ret (handler error)) s
  = (Returned (handler e), s1).
Proof.
  intros H. unfold tryCatch, bind. now rewrite H.
Qed.

End WithEnv.

(** The handlers never throw, whatever the world does: every call returns a
    result, structured or error. *)
Theorem tool_handlers_never_throw {W : Type} (env : Env W)
  (stringify : forall A : Type, A -> string)
  (get : GetEmailInput) (move : MoveEmailInput) (mark : SetReadStatusInput)
  (draft : Script.DraftEmail) (message_id : string) (s : State W) :
  (exists r s', getEmailTool env stringify get s = (Returned r, s'))
  /\ (exists r s', listMailboxesTool env stringify s = (Returned r, s'))
  /\ (exists r s',
        getAttachmentsTool env stringify message_id s = (Returned r, s'))
  /\ (exists r s', moveEmailTool env stringify move s = (Returned r, s'))
  /\ (exists r s', markReadTool env stringify mark s = (Returned r, s'))
  /\ (exists r s', createDraftTool env stringify draft s = (Returned r, s'))
  /\ (exists r s', sendEmailTool env stringify draft s = (Returned r, s'))
  /\ (exists r s', listAccountsTool env stringify s = (Returned r, s')).
Proof.
  split; [unfold getEmailTool; apply tryCatch_returns|].
  split; [unfold listMailboxesTool; apply tryCatch_returns|].
  split; [unfold getAttachmentsTool; apply tryCatch_returns|].
  split; [unfold moveEmailTool; apply tryCatch_returns|].
  split; [unfold markReadTool; apply tryCatch_returns|].
  split; [unfold createDraftTool; apply tryCatch_returns|].
  split; [unfold sendEmailTool; apply tryCatch_returns|].
  unfold listAccountsTool; apply tryCatch_returns.
Qed.

(** When the availability guard throws, every handler returns an error
    result whose text is the label of the tool followed by the message of
    the error, and that message starts with [AppleScript execution failed]:
    also the handlers of the send, move and mark-read tools, which then
    report no [success] flag at all. *)
Theorem guard_failure_becomes_error_result {W : Type} (env : Env W)
  (stringify : forall A : Type, A -> string)
  (get : GetEmailInput) (move : MoveEmailInput) (mark : SetReadStatusInput)
  (draft : Script.DraftEmail) (message_id : string) (s s1 : State W)
  (e : thrown) :
  AppleScript.ensureMailRunning env s = (Threw e, s1) ->
  executionFailure e
  /\ getEmailTool env stringify get s
     = (Returned (IsError ("Error getting email: " ++ errorMsg e)), s1)
  /\ listMailboxesTool env stringify s
     = (Returned (IsError ("Error listing mailboxes: " ++ errorMsg e)), s1)
  /\ getAttachmentsTool env stringify message_id s
     = (Returned (IsError ("Error getting attachments: " ++ errorMsg e)), s1)
  /\ moveEmailTool env stringify move s
     = (Returned (IsError ("Error moving email: " ++ errorMsg e)), s1)
  /\ markReadTool env stringify mark s
     = (Returned (IsError ("Error updating read status: " ++ errorMsg e)), s1)
  /\ createDraftTool env stringify draft s
     = (Returned (IsError ("Error creating draft: " ++ errorMsg e)), s1)
  /\ sendEmailTool env stringify draft s
     = (Returned (IsError ("Error sending email: " ++ errorMsg e)), s1)
  /\ listAccountsTool env stringify s
     = (Returned (IsError ("Error listing accounts: " ++ errorMsg e)), s1).
Proof.
  intros H.
  split; [exact (InvokerExtras.ensureMailRunning_throws env s s1 e H)|].
  repeat split.
  - exact (tryCatch_guard_throws env _ _
             (fun error => IsError ("Error getting email: " ++ errorMsg error))
             s s1 e H).
  - exact (tryCatch_guard_throws env _ _
             (fun error =>
                IsError ("Error listing mailboxes: " ++ errorMsg error))
             s s1 e H).
  - exact (tryCatch_guard_throws env _ _
             (fun error =>
                IsError ("Error getting attachments: " ++ errorMsg error))
             s s1 e H).
  - exact (tryCatch_guard_throws env _ _
             (fun error => IsError ("Error moving email: " ++ errorMsg error))
             s s1 e H).
  - exact (tryCatch_guard_throws env _ _
             (fun error =>
                IsError ("Error updating read status: " ++ errorMsg error))
             s s1 e H).
  - exact (tryCatch_guard_throws env _ _
             (fun error => IsError ("Error creating draft: " ++ errorMsg error))
             s s1 e H).
  - exact (tryCatch_guard_throws env _ _
             (fun error => IsError ("Error sending email: " ++ errorMsg error))
             s s1 e H).
  - exact (tryCatch_guard_throws env _ _
             (fun error =>
                IsError ("Error listing accounts: " ++ errorMsg error))
             s s1 e H).
Qed.

(** No [osascript] command can be run: the move tool returns an error
    result. *)
Lemma guard_failure_becomes_error_result_witness :
  moveEmailTool World.unavailable (fun _ _ => "")
    {| move_message_id := "42";
       target_mailbox := "Archive";
       target_account := None |}
    (World.start tt)
  = (Returned
       (IsError "Error moving email: AppleScript execution failed: Command failed: osascript"),
     World.start tt).
Proof.
  destruct (guard_failure_becomes_error_result World.unavailable
              (fun _ _ => "")
              {| get_message_id := ""; get_mailbox := None;
                 get_account := None |}
              {| move_message_id := "42";
                 target_mailbox := "Archive";
                 target_account := None |}
              {| mark_message_id := ""; mark_read := true |}
              (Script.Build_DraftEmail "" [] None None "" None) ""
              (World.start tt) (World.start tt) _ eq_refl)
    as [_ [_ [_ [_ [H _]]]]].
  exact H.
Defined.

(** Once the guard has returned, the handlers of the move and mark-read
    tools always return a structured result: its [success] flag is [true]
    when the script execution returned and [false] when it threw, and the
    identifier and the target, or the flag, are those of the request. *)
Theorem move_and_mark_tools_report_success {W : Type} (env : Env W)
  (stringify : forall A : Type, A -> string)
  (move : MoveEmailInput) (mark : SetReadStatusInput) (s s1 : State W) :
  AppleScript.ensureMailRunning env s = (Returned tt, s1) ->
  (forall outcome s2,
     AppleScript.executeAppleScriptFile env
       (Script.moveEmailScript (move_message_id move) (target_mailbox move)
          (target_account move)) s1
     = (outcome, s2) ->
     let output :=
       {| moveSuccess := match outcome with
                         | Returned _ => true
                         | Threw _ => false
                         end;
          moveMessageId := move_message_id move;
          targetMailbox := target_mailbox move |} in
     moveEmailTool env stringify move s
     = (Returned (Structured (stringify _ output) output), s2))
  /\ (forall outcome s2,
        AppleScript.executeAppleScriptFile env
          (Script.setReadStatusScript (mark_message_id mark) (mark_read mark))
          s1
        = (outcome, s2) ->
        let output :=
          {| markSuccess := match outcome with
                            | Returned _ => true
                            | Threw _ => false
                            end;
             markMessageId := mark_message_id mark;
             markRead := mark_read mark |} in
        markReadTool env stringify mark s
        = (Returned (Structured (stringify _ output) output), s2)).
Proof.
  intros Hguard. split; intros outcome s2 H output.
  - unfold moveEmailTool, Mail.moveEmail, tryCatch, bind.
    rewrite Hguard, H. subst output. now destruct outcome.
  - unfold markReadTool, Mail.setReadStatus, tryCatch, bind.
    rewrite Hguard, H. subst output. now destruct outcome.
Qed.

(** Mail is running and the script exits with code 1: the move tool reports
    [success] false. *)
Lemma move_and_mark_tools_report_success_witness :
  moveEmailTool (World.answering (CloseEvent (Some 1%Z) "" "no such mailbox"))
    (fun _ _ => "")
    {| move_message_id := "42";
       target_mailbox := "Archive";
       target_account := None |}
    (World.start tt)
  = (Returned
       (Structured ""
          {| moveSuccess := false;
             moveMessageId := "42";
             targetMailbox := "Archive" |}),
     World.start tt).
Proof.
  apply (proj1 (move_and_mark_tools_report_success
                  (World.answering
                     (CloseEvent (Some 1%Z) "" "no such mailbox"))
                  (fun _ _ => "")
                  {| move_message_id := "42";
                     target_mailbox := "Archive";
                     target_account := None |}
                  {| mark_message_id := ""; mark_read := true |}
                  (World.start tt) (World.start tt) eq_refl)
           (Threw (Error "AppleScript execution failed with code 1: no such mailbox"))).
  reflexivity.
Defined.

(** Once the guard has returned, the handler of the send tool always returns
    a structured result.  When the script execution throws, the result has
    [success] false, the empty identifier and the message of the error; when
    it returns an identifier, the result has [success] true and that
    identifier.  The count of the recipients is the number of addresses of
    the [to], [cc] and [bcc] lists. *)
Theorem send_tool_reports_result {W : Type} (env : Env W)
  (stringify : forall A : Type, A -> string)
  (draft : Script.DraftEmail) (s s1 : State W) :
  AppleScript.ensureMailRunning env s = (Returned tt, s1) ->
  (forall message s2,
     AppleScript.executeAppleScriptFile env (Script.sendEmailScript draft) s1
     = (Threw (Error message), s2) ->
     let output :=
       {| sendSuccess := false;
          sendMessageId := "";
          sendError := Some message;
          sendSubject := Script.draftSubject draft;
          sendRecipientCount :=
            List.length (Script.to draft)
            + List.length (Script.orNone (Script.cc draft))
            + List.length (Script.orNone (Script.bcc draft)) |} in
     sendEmailTool env stringify draft s
     = (Returned (Structured (stringify _ output) output), s2))
  /\ (forall messageId s2,
        AppleScript.executeAppleScriptFile env (Script.sendEmailScript draft)
          s1
        = (Returned messageId, s2) ->
        let output :=
          {| sendSuccess := true;
             sendMessageId := messageId;
             sendError := None;
             sendSubject := Script.draftSubject draft;
             sendRecipientCount :=
               List.length (Script.to draft)
               + List.length (Script.orNone (Script.cc draft))
               + List.length (Script.orNone (Script.bcc draft)) |} in
        sendEmailTool env stringify draft s
        = (Returned (Structured (stringify _ output) output), s2)).
Proof.
  intros Hguard.
  assert (Hcount : recipientCount draft
                   = List.length (Script.to draft)
                     + List.length (Script.orNone (Script.cc draft))
                     + List.length (Script.orNone (Script.bcc draft))).
  { unfold recipientCount, Script.orNone.
    destruct (Script.cc draft), (Script.bcc draft); reflexivity. }
  split.
  - intros message s2 H output.
    unfold sendEmailTool, Mail.sendEmail, tryCatch, bind.
    rewrite Hguard, H. cbn [ret Mail.success Mail.messageId Mail.error orEmpty].
    rewrite Hcount. reflexivity.
  - intros messageId s2 H output.
    unfold sendEmailTool, Mail.sendEmail, tryCatch, bind.
    rewrite Hguard, H. cbn [ret Mail.success Mail.messageId Mail.error orEmpty].
    rewrite Hcount. subst output.
    replace (if JS.truthy messageId then messageId else "") with messageId;
      [reflexivity|].
    unfold JS.truthy. now destruct (String.eqb_spec messageId "") as [->|].
Qed.

(** Mail is running and the script exits with code 1. *)
Lemma send_tool_reports_result_witness :
  sendEmailTool (World.answering (CloseEvent (Some 1%Z) "" "not allowed"))
    (fun _ _ => "")
    {| Script.draftSubject := "Hello";
       Script.to := ["a@b.com"; "c@d.org"];
       Script.cc := Some ["e@f.net"];
       Script.bcc := None;
       Script.draftContent := "Hi there";
       Script.draftAccount := None |}
    (World.start tt)
  = (Returned
       (Structured ""
          {| sendSuccess := false;
             sendMessageId := "";
             sendError :=
               Some "AppleScript execution failed with code 1: not allowed";
             sendSubject := "Hello";
             sendRecipientCount := 3 |}),
     World.start tt).
Proof.
  apply (proj1 (send_tool_reports_result
                  (World.answering (CloseEvent (Some 1%Z) "" "not allowed"))
                  (fun _ _ => "")
                  {| Script.draftSubject := "Hello";
                     Script.to := ["a@b.com"; "c@d.org"];
                     Script.cc := Some ["e@f.net"];
                     Script.bcc := None;
                     Script.draftContent := "Hi there";
                     Script.draftAccount := None |}
                  (World.start tt) (World.start tt) eq_refl)).
  reflexivity.
Defined.

(** Once the guard has returned, when the lookup script closes with exit
    code 0 and an output that is [NOT_FOUND] up to the surrounding white
    space, the handler of the get-email tool returns the error result
    [Email with ID ... not found], with the identifier of the request. *)
Theorem get_email_tool_not_found {W : Type} (env : Env W)
  (stringify : forall A : Type, A -> string)
  (get : GetEmailInput) (s s1 : State W) (stdout stderr : string) (w2 : W) :
  AppleScript.ensureMailRunning env s = (Returned tt, s1) ->
  spawnOsascript env
    (Script.getEmailByIdScript (get_message_id get) (get_mailbox get)
       (get_account get)) (world s1)
  = (CloseEvent (Some 0%Z) stdout stderr, w2) ->
  JS.trim stdout = "NOT_FOUND" ->
  exists s2,
    getEmailTool env stringify get s
    = (Returned
         (IsError ("Email with ID " ++ get_message_id get ++ " not found")),
       s2)
    /\ world s2 = w2.
Proof.
  intros Hguard Hspawn Hout.
  destruct (MailProperties.executeAppleScriptFile_closes env _ _ _ _ _ Hspawn)
    as [s2 [Hexec Hw]].
  exists s2. split; [|exact Hw].
  unfold getEmailTool, Mail.getEmailById, tryCatch, bind.
  rewrite Hguard, Hexec, Hout. reflexivity.
Qed.

(** Mail is running and the script prints the sentinel. *)
Lemma get_email_tool_not_found_witness :
  fst (getEmailTool
         (World.answering (CloseEvent (Some 0%Z) ("NOT_FOUND" ++ JS.LF) ""))
         (fun _ _ => "")
         {| get_message_id := "42"; get_mailbox := None; get_account := None |}
         (World.start tt))
  = Returned (IsError "Email with ID 42 not found").
Proof.
  destruct (get_email_tool_not_found
              (World.answering
                 (CloseEvent (Some 0%Z) ("NOT_FOUND" ++ JS.LF) ""))
              (fun _ _ => "")
              {| get_message_id := "42"; get_mailbox := None;
                 get_account := None |}
              (World.start tt) (World.start tt) _ _ tt eq_refl eq_refl
              eq_refl) as [s2 [E _]].
  exact (f_equal fst E).
Defined.

End ToolsExtras.
